(** * NAJM accident-reporting demo: chat client, conversation server, SQLite backend

    A shallow embedding of the parts of the repository that the specification
    talks about, and the properties proved about them.

    - [Js]: JSON/JavaScript values as the handlers see them (truthiness,
      strict equality, property access).
    - [Json]: [JSON.parse].
    - [Regex]: the backtracking matcher behind [String.prototype.match] for
      the one shape of pattern [app.js] uses.
    - [Replace]: [String.prototype.replace] with a global pattern of lazy
      wildcards, and [trim].
    - [Chat]: the chat client of [app.js] (phase tracker, upload gate, ticket
      creation, the text shown for a reply).
    - [ConversationServer]: the JSON-file server (tickets, /upload, /stt).
    - [BackendApi]: the client module [backend-integration.js], alone and
      against the conversation server.
    - [Backend]: the SQLite backend (schema of [database/db.js], the routes of
      [routes/tickets.js], [routes/auth.js], [routes/upload.js]).

    Strings are modelled by their UTF-8 bytes.  Every pattern and every piece
    of JSON syntax inspected by the code is ASCII, and UTF-8 never reuses an
    ASCII byte inside a multi-byte sequence, so matching on bytes and matching
    on UTF-16 code units agree on where [{], [}] and ["phase"] stand. *)

From Stdlib Require Import List String Ascii ZArith NArith Bool Lia PeanoNat.
From Stdlib Require Import DecimalString Permutation.
Import ListNotations.

Local Open Scope string_scope.
Local Open Scope list_scope.

(* ===================================================================== *)
(** ** JavaScript values *)
(* ===================================================================== *)

Module Js.

#[local] Set Warnings "-register-all".

(** A JSON number is kept as the exact decimal [m * 10^e] it was written as
    (rounding to IEEE doubles is not modelled). *)
Inductive value : Type :=
| VUndefined
| VNull
| VBool (b : bool)
| VNum (m e : Z)
| VStr (s : string)
| VArr (items : list value)
| VObj (fields : list (string * value)).

(** [ToBoolean]: what [if (x)], [!x] and [x || y] look at. *)
Definition truthy (v : value) : bool :=
  match v with
  | VUndefined | VNull => false
  | VBool b => b
  | VNum m _ => negb (m =? 0)%Z
  | VStr s => negb (s =? "")
  | VArr _ | VObj _ => true
  end.

(** [x || y] *)
Definition or_else (x y : value) : value := if truthy x then x else y.

Definition num_eqb (m1 e1 m2 e2 : Z) : bool :=
  if (e1 <=? e2)%Z then (m1 =? m2 * 10 ^ (e2 - e1))%Z
  else (m1 * 10 ^ (e1 - e2) =? m2)%Z.

(** [x === y] on values that came out of [JSON.parse] (or a request body):
    primitives compare by value; two objects or arrays are distinct
    references, hence never equal. *)
Definition strict_eq (x y : value) : bool :=
  match x, y with
  | VUndefined, VUndefined => true
  | VNull, VNull => true
  | VBool a, VBool b => Bool.eqb a b
  | VNum m1 e1, VNum m2 e2 => num_eqb m1 e1 m2 e2
  | VStr a, VStr b => (a =? b)
  | _, _ => false
  end.

(** Own-property lookup [o.k].  An object holds a key once ([set_field]
    keeps it so); reading a property of a primitive gives [undefined] for
    the keys used in this code base. *)
Fixpoint lookup (k : string) (fields : list (string * value)) : option value :=
  match fields with
  | [] => None
  | (k', v) :: rest => if k' =? k then Some v else lookup k rest
  end.

Definition get (o : value) (k : string) : value :=
  match o with
  | VObj fields => match lookup k fields with Some v => v | None => VUndefined end
  | _ => VUndefined
  end.

(** [o[k] = v]: an existing key keeps its place, a new one goes last. *)
Fixpoint set_field (k : string) (v : value) (fields : list (string * value))
  : list (string * value) :=
  match fields with
  | [] => [(k, v)]
  | (k', v') :: rest =>
      if k' =? k then (k', v) :: rest else (k', v') :: set_field k v rest
  end.

Definition set_prop (o : value) (k : string) (v : value) : value :=
  match o with
  | VObj fields => VObj (set_field k v fields)
  | _ => o
  end.

(** [Array.prototype.includes] over a list of string literals. *)
Definition includes (l : list string) (v : value) : bool :=
  existsb (fun s => strict_eq (VStr s) v) l.

Lemma lookup_set_field_same k v fields : lookup k (set_field k v fields) = Some v.
Proof.
  induction fields as [|[k' v'] rest IH]; simpl.
  - now rewrite String.eqb_refl.
  - destruct (k' =? k) eqn:E; simpl; now rewrite E.
Qed.

Lemma lookup_set_field_other k k' v fields :
  k' <> k -> lookup k (set_field k' v fields) = lookup k fields.
Proof.
  intros Hne. apply String.eqb_neq in Hne.
  induction fields as [|[k0 v0] rest IH]; simpl.
  - now rewrite Hne.
  - destruct (k0 =? k') eqn:E; simpl.
    + apply String.eqb_eq in E. subst k0. now rewrite Hne.
    + now rewrite IH.
Qed.

Lemma get_set_prop_same fields k v : get (set_prop (VObj fields) k v) k = v.
Proof. simpl. now rewrite lookup_set_field_same. Qed.

Lemma get_set_prop_other o k k' v : k' <> k -> get (set_prop o k' v) k = get o k.
Proof.
  intros Hne. destruct o; try reflexivity. simpl.
  now rewrite lookup_set_field_other.
Qed.

Definition dq : ascii := "034"%char.
Definition quoted (s : string) : string := String dq (s ++ String dq "").

End Js.

(* ===================================================================== *)
(** ** JSON.parse *)
(* ===================================================================== *)

Module Json.
Import Js.

Definition is_ws (c : ascii) : bool :=
  (c =? " ")%char || (c =? "009")%char || (c =? "010")%char || (c =? "013")%char.

Fixpoint skip_ws (s : string) : string :=
  match s with
  | String c s' => if is_ws c then skip_ws s' else s
  | EmptyString => s
  end.

Fixpoint strip_prefix (p s : string) : option string :=
  match p with
  | EmptyString => Some s
  | String a p' =>
      match s with
      | String b s' => if (a =? b)%char then strip_prefix p' s' else None
      | EmptyString => None
      end
  end.

Definition digit_val (c : ascii) : option Z :=
  let n := N_of_ascii c in
  if ((48 <=? n) && (n <=? 57))%N then Some (Z.of_N (n - 48)) else None.

Definition hex_val (c : ascii) : option N :=
  let n := N_of_ascii c in
  if ((48 <=? n) && (n <=? 57))%N then Some (n - 48)%N
  else if ((65 <=? n) && (n <=? 70))%N then Some (n - 55)%N
  else if ((97 <=? n) && (n <=? 102))%N then Some (n - 87)%N
  else None.

(** A maximal run of decimal digits: its value, its length, what follows. *)
Fixpoint digits (s : string) (acc : Z) (len : nat) : Z * nat * string :=
  match s with
  | String c s' =>
      match digit_val c with
      | Some d => digits s' (acc * 10 + d)%Z (S len)
      | None => (acc, len, s)
      end
  | EmptyString => (acc, len, s)
  end.

(** The rest of [s] after the character [c], when [s] starts with it. *)
Definition eat (c : ascii) (s : string) : option string :=
  match s with
  | String a r => if (a =? c)%char then Some r else None
  | EmptyString => None
  end.

(** A JSON number: optional minus, an integer part without superfluous
    leading zero, an optional fraction, an optional exponent. *)
Definition parse_number (s : string) : option (value * string) :=
  let '(neg, s1) :=
    match eat "-" s with Some r => (true, r) | None => (false, s) end in
  let '(ip, ilen, s2) := digits s1 0%Z 0 in
  let leading_zero :=
    match eat "0" s1 with Some _ => Nat.ltb 1 ilen | None => false end in
  if Nat.eqb ilen 0 || leading_zero then None else
  let frac :=
    match eat "." s2 with
    | Some r =>
        let '(fp, flen, s3) := digits r ip 0 in
        if Nat.eqb flen 0 then None else Some (fp, flen, s3)
    | None => Some (ip, 0, s2)
    end in
  match frac with
  | None => None
  | Some (m, flen, s3) =>
      let expo :=
        match (match eat "e" s3 with Some r => Some r | None => eat "E" s3 end) with
        | Some r =>
            let '(eneg, r1) :=
              match eat "-" r with
              | Some r' => (true, r')
              | None => match eat "+" r with Some r' => (false, r') | None => (false, r) end
              end in
            let '(ev, elen, s4) := digits r1 0%Z 0 in
            if Nat.eqb elen 0 then None
            else Some ((if eneg then - ev else ev)%Z, s4)
        | None => Some (0%Z, s3)
        end in
      match expo with
      | None => None
      | Some (ev, s4) =>
          Some (VNum (if neg then - m else m)%Z (ev - Z.of_nat flen)%Z, s4)
      end
  end.

(** UTF-8 bytes of a code point. *)
Definition byte (n : N) : ascii := ascii_of_N n.

Definition utf8_encode (cp : N) : string :=
  if (cp <? 128)%N then String (byte cp) ""
  else if (cp <? 2048)%N then
    String (byte (192 + cp / 64)) (String (byte (128 + cp mod 64)) "")
  else if (cp <? 65536)%N then
    String (byte (224 + cp / 4096))
      (String (byte (128 + (cp / 64) mod 64)) (String (byte (128 + cp mod 64)) ""))
  else
    String (byte (240 + cp / 262144))
      (String (byte (128 + (cp / 4096) mod 64))
         (String (byte (128 + (cp / 64) mod 64)) (String (byte (128 + cp mod 64)) ""))).

Definition hex4 (s : string) : option (N * string) :=
  match s with
  | String a (String b (String c (String d r))) =>
      match hex_val a, hex_val b, hex_val c, hex_val d with
      | Some x, Some y, Some z, Some w => Some (((x * 16 + y) * 16 + z) * 16 + w, r)%N
      | _, _, _, _ => None
      end
  | _ => None
  end.

(** The escape after [\u]: one code unit, or a surrogate pair read as one
    code point. *)
Definition parse_unicode (s : string) : option (string * string) :=
  match hex4 s with
  | None => None
  | Some (hi, r) =>
      if ((55296 <=? hi) && (hi <=? 56319))%N then
        match (match eat "\" r with Some r1 => eat "u" r1 | None => None end) with
        | Some r' =>
            match hex4 r' with
            | Some (lo, r'') =>
                if ((56320 <=? lo) && (lo <=? 57343))%N
                then Some (utf8_encode (65536 + (hi - 55296) * 1024 + (lo - 56320)), r'')
                else Some (utf8_encode hi, r)
            | None => Some (utf8_encode hi, r)
            end
        | None => Some (utf8_encode hi, r)
        end
      else Some (utf8_encode hi, r)
  end.

(** The character a two-character escape stands for. *)
Definition escape_char (e : ascii) : option ascii :=
  if (e =? dq)%char then Some dq
  else if (e =? "\")%char then Some "\"%char
  else if (e =? "/")%char then Some "/"%char
  else if (e =? "b")%char then Some "008"%char
  else if (e =? "f")%char then Some "012"%char
  else if (e =? "n")%char then Some "010"%char
  else if (e =? "r")%char then Some "013"%char
  else if (e =? "t")%char then Some "009"%char
  else None.

(** The characters of a string literal after its opening quote, up to and
    including the closing quote. *)
Fixpoint parse_string_body (fuel : nat) (s : string) : option (string * string) :=
  match fuel with
  | O => None
  | S n =>
      match s with
      | EmptyString => None
      | String c r =>
          if (c =? dq)%char then Some ("", r)
          else if (c =? "\")%char then
            match r with
            | String e r' =>
                if (e =? "u")%char then
                  match parse_unicode r' with
                  | Some (u, r'') =>
                      match parse_string_body n r'' with
                      | Some (t, rest) => Some ((u ++ t)%string, rest)
                      | None => None
                      end
                  | None => None
                  end
                else
                  match escape_char e with
                  | Some x =>
                      match parse_string_body n r' with
                      | Some (t, rest) => Some (String x t, rest)
                      | None => None
                      end
                  | None => None
                  end
            | EmptyString => None
            end
          else if (N_of_ascii c <? 32)%N then None
          else
            match parse_string_body n r with
            | Some (t, rest) => Some (String c t, rest)
            | None => None
            end
      end
  end.

Definition parse_string (s : string) : option (string * string) :=
  parse_string_body (S (String.length s)) s.

Fixpoint parse_value (fuel : nat) (s : string) {struct fuel} : option (value * string) :=
  match fuel with
  | O => None
  | S n =>
      match skip_ws s with
      | EmptyString => None
      | String c r =>
          if (c =? "{")%char then
            match eat "}" (skip_ws r) with
            | Some r' => Some (VObj [], r')
            | None => parse_members n r []
            end
          else if (c =? "[")%char then
            match eat "]" (skip_ws r) with
            | Some r' => Some (VArr [], r')
            | None => parse_elements n r []
            end
          else if (c =? dq)%char then
            match parse_string r with
            | Some (t, rest) => Some (VStr t, rest)
            | None => None
            end
          else if (c =? "t")%char then
            option_map (fun rest => (VBool true, rest)) (strip_prefix "rue" r)
          else if (c =? "f")%char then
            option_map (fun rest => (VBool false, rest)) (strip_prefix "alse" r)
          else if (c =? "n")%char then
            option_map (fun rest => (VNull, rest)) (strip_prefix "ull" r)
          else parse_number (String c r)
      end
  end
with parse_members (fuel : nat) (s : string) (acc : list (string * value))
       {struct fuel} : option (value * string) :=
  match fuel with
  | O => None
  | S n =>
      match eat dq (skip_ws s) with
      | Some r =>
          match parse_string r with
          | Some (k, r1) =>
              match eat ":" (skip_ws r1) with
              | Some r2 =>
                  match parse_value n r2 with
                  | Some (v, r3) =>
                      match eat "," (skip_ws r3) with
                      | Some r4 => parse_members n r4 (set_field k v acc)
                      | None =>
                          match eat "}" (skip_ws r3) with
                          | Some r4 => Some (VObj (set_field k v acc), r4)
                          | None => None
                          end
                      end
                  | None => None
                  end
              | None => None
              end
          | None => None
          end
      | None => None
      end
  end
with parse_elements (fuel : nat) (s : string) (acc : list value)
       {struct fuel} : option (value * string) :=
  match fuel with
  | O => None
  | S n =>
      match parse_value n s with
      | Some (v, r) =>
          match eat "," (skip_ws r) with
          | Some r' => parse_elements n r' (acc ++ [v])
          | None =>
              match eat "]" (skip_ws r) with
              | Some r' => Some (VArr (acc ++ [v]), r')
              | None => None
              end
          end
      | None => None
      end
  end.

(** [JSON.parse(text)]: [None] stands for the [SyntaxError] it throws.  Each
    recursive call of the parser is made after at least one character was
    consumed, so the length of the text is fuel enough ([parse_adequate]
    below). *)
Definition parse_with (fuel : nat) (text : string) : option value :=
  match parse_value fuel text with
  | Some (v, rest) =>
      match skip_ws rest with
      | EmptyString => Some v
      | _ => None
      end
  | None => None
  end.

Definition parse (text : string) : option value :=
  parse_with (S (String.length text)) text.

(** *** The fuel is enough

    A successful run consumes at least one character for every unit of fuel
    it needs, so a result obtained with any fuel is the result at the fuel
    [parse] gives. *)

Lemma skip_ws_length s : String.length (skip_ws s) <= String.length s.
Proof. induction s as [|c s IH]; simpl; [lia|]. destruct (is_ws c); simpl; lia. Qed.

Lemma eat_length c s r : eat c s = Some r -> String.length s = S (String.length r).
Proof.
  destruct s as [|a s]; simpl; [discriminate|].
  destruct (a =? c)%char; [|discriminate]. intros H. now inversion H.
Qed.

Lemma eat_skip_length c s r :
  eat c (skip_ws s) = Some r -> String.length r < String.length s.
Proof. intros H. apply eat_length in H. pose proof (skip_ws_length s). lia. Qed.

Lemma strip_prefix_length p s r :
  strip_prefix p s = Some r -> String.length r <= String.length s.
Proof.
  revert s; induction p as [|a p IH]; intros s H; simpl in H.
  - inversion H. lia.
  - destruct s as [|b s]; [discriminate|].
    destruct (a =? b)%char; [|discriminate]. apply IH in H. simpl. lia.
Qed.

Lemma digits_length s acc len v len' r :
  digits s acc len = (v, len', r) ->
  String.length r + len' = String.length s + len.
Proof.
  revert acc len; induction s as [|c s IH]; intros acc len H; simpl in H.
  - inversion H. reflexivity.
  - destruct (digit_val c).
    + apply IH in H. simpl. lia.
    + inversion H. reflexivity.
Qed.

Lemma parse_number_length s v r :
  parse_number s = Some (v, r) -> String.length r < String.length s.
Proof.
  unfold parse_number.
  assert (H1 : String.length
                 (snd (match eat "-" s with Some r => (true, r) | None => (false, s) end))
               <= String.length s).
  { destruct (eat "-" s) as [r0|] eqn:E; [apply eat_length in E|]; simpl; lia. }
  destruct (match eat "-" s with Some r => (true, r) | None => (false, s) end)
    as [neg s1]. cbn [snd] in H1.
  destruct (digits s1 0%Z 0) as [[ip ilen] s2] eqn:Ed. apply digits_length in Ed.
  destruct (Nat.eqb_spec ilen 0) as [->|Hi]; [discriminate|]. cbn [orb].
  destruct (match eat "0" s1 with Some _ => Nat.ltb 1 ilen | None => false end);
    [discriminate|].
  assert (H2 : forall m flen s3,
            match eat "." s2 with
            | Some r =>
                let '(fp, flen, s3) := digits r ip 0 in
                if Nat.eqb flen 0 then None else Some (fp, flen, s3)
            | None => Some (ip, 0, s2)
            end = Some (m, flen, s3) -> String.length s3 <= String.length s2).
  { intros m flen s3. destruct (eat "." s2) as [r0|] eqn:E.
    - apply eat_length in E. destruct (digits r0 ip 0) as [[fp fl] s3'] eqn:Ef.
      apply digits_length in Ef. destruct (Nat.eqb fl 0); [discriminate|].
      intros H. inversion H; subst. lia.
    - intros H. inversion H; subst. lia. }
  destruct (match eat "." s2 with
            | Some r =>
                let '(fp, flen, s3) := digits r ip 0 in
                if Nat.eqb flen 0 then None else Some (fp, flen, s3)
            | None => Some (ip, 0, s2)
            end) as [[[m flen] s3]|]; [|discriminate].
  specialize (H2 m flen s3 eq_refl).
  destruct (match eat "e" s3 with Some r => Some r | None => eat "E" s3 end)
    as [r0|] eqn:Ee.
  - assert (H3 : String.length s3 = S (String.length r0)).
    { destruct (eat "e" s3) eqn:E1; [inversion Ee; subst; now apply eat_length in E1|].
      now apply eat_length in Ee. }
    assert (H4 : String.length
                   (snd (match eat "-" r0 with
                         | Some r' => (true, r')
                         | None => match eat "+" r0 with
                                   | Some r' => (false, r')
                                   | None => (false, r0)
                                   end
                         end)) <= String.length r0).
    { destruct (eat "-" r0) eqn:E1; [apply eat_length in E1; simpl; lia|].
      destruct (eat "+" r0) eqn:E2; [apply eat_length in E2; simpl; lia|]. simpl; lia. }
    destruct (match eat "-" r0 with
              | Some r' => (true, r')
              | None => match eat "+" r0 with
                        | Some r' => (false, r')
                        | None => (false, r0)
                        end
              end) as [eneg r1]. cbn [snd] in H4.
    destruct (digits r1 0%Z 0) as [[ev elen] s4] eqn:Ex. apply digits_length in Ex.
    destruct (Nat.eqb elen 0); [discriminate|].
    intros H. inversion H; subst. lia.
  - intros H. inversion H; subst. lia.
Qed.

Lemma hex4_length s n r : hex4 s = Some (n, r) -> String.length s = 4 + String.length r.
Proof.
  unfold hex4. destruct s as [|a [|b [|c [|d r0]]]]; try discriminate.
  destruct (hex_val a), (hex_val b), (hex_val c), (hex_val d); try discriminate.
  intros H. inversion H; subst. reflexivity.
Qed.

Lemma parse_unicode_length s u r :
  parse_unicode s = Some (u, r) -> String.length r < String.length s.
Proof.
  unfold parse_unicode. destruct (hex4 s) as [[hi r0]|] eqn:E; [|discriminate].
  apply hex4_length in E.
  destruct ((55296 <=? hi)%N && (hi <=? 56319)%N);
    [|intros H; inversion H; subst; lia].
  destruct (match eat "\" r0 with Some r1 => eat "u" r1 | None => None end)
    as [r'|] eqn:Eu; [|intros H; inversion H; subst; lia].
  assert (Hr' : String.length r' < String.length r0).
  { destruct (eat "\" r0) as [r1|] eqn:E1; [|discriminate].
    apply eat_length in E1, Eu. lia. }
  destruct (hex4 r') as [[lo r'']|] eqn:El; [|intros H; inversion H; subst; lia].
  apply hex4_length in El.
  destruct ((56320 <=? lo)%N && (lo <=? 57343)%N);
    intros H; inversion H; subst; lia.
Qed.

Lemma parse_string_body_fuel f s t rest :
  parse_string_body f s = Some (t, rest) ->
  String.length rest < String.length s
  /\ forall f', String.length s - String.length rest <= f' ->
                parse_string_body f' s = Some (t, rest).
Proof.
  revert s t rest; induction f as [|n IH]; intros s t rest H; [discriminate|].
  cbn [parse_string_body] in H. destruct s as [|c r]; [discriminate|].
  assert (Hsimple : forall (x : ascii) (r0 : string),
    String.length r0 < String.length (String c r) ->
    match parse_string_body n r0 with
    | Some (t0, rest0) => Some (String x t0, rest0)
    | None => None
    end = Some (t, rest) ->
    String.length rest < String.length (String c r)
    /\ forall m, String.length (String c r) - String.length rest <= S m ->
                 match parse_string_body m r0 with
                 | Some (t0, rest0) => Some (String x t0, rest0)
                 | None => None
                 end = Some (t, rest)).
  { intros x r0 Hr0 H0.
    destruct (parse_string_body n r0) as [[t0 rest0]|] eqn:E; [|discriminate].
    inversion H0; subst. destruct (IH _ _ _ E) as [Hl Hf].
    split; [lia|]. intros m Hm. rewrite Hf by lia. reflexivity. }
  destruct (c =? dq)%char eqn:Eq.
  { inversion H; subst. split; [cbn [String.length]; lia|].
    intros [|m] Hm; [cbn [String.length] in Hm; lia|]. cbn [parse_string_body]. now rewrite Eq. }
  destruct (c =? "\")%char eqn:Eb.
  - destruct r as [|e r']; [discriminate|].
    assert (Hlen : String.length r' < String.length (String c (String e r')))
      by (cbn [String.length]; lia).
    destruct (e =? "u")%char eqn:Eu0.
    + (* the unicode escape *)
      destruct (parse_unicode r') as [[u r'']|] eqn:Eu; [|discriminate].
      apply parse_unicode_length in Eu as Hu.
      destruct (parse_string_body n r'') as [[t0 rest0]|] eqn:E'; [|discriminate].
      inversion H; subst. destruct (IH _ _ _ E') as [Hl Hf].
      split; [cbn [String.length]; lia|].
      intros [|m] Hm; [cbn [String.length] in Hm; lia|].
      cbn [parse_string_body]. rewrite Eq, Eb, Eu0, Eu.
      rewrite Hf by (cbn [String.length] in Hm; lia). reflexivity.
    + destruct (escape_char e) as [x|] eqn:Ex; [|discriminate].
      destruct (Hsimple x r' Hlen H) as [Hl Hf]. split; [exact Hl|].
      intros [|m] Hm; [cbn [String.length] in Hm, Hl; lia|].
      cbn [parse_string_body]. rewrite Eq, Eb, Eu0, Ex. now apply Hf.
  - destruct (N_of_ascii c <? 32)%N eqn:Ec; [discriminate|].
    assert (Hlen : String.length r < String.length (String c r))
      by (cbn [String.length]; lia).
    destruct (Hsimple c r Hlen H) as [Hl Hf]. split; [exact Hl|].
    intros [|m] Hm; [cbn [String.length] in Hm, Hl; lia|].
    cbn [parse_string_body]. rewrite Eq, Eb, Ec. now apply Hf.
Qed.

Lemma parse_string_length r t rest :
  parse_string r = Some (t, rest) -> String.length rest < String.length r.
Proof. intros H. now apply parse_string_body_fuel in H. Qed.

Definition enough_value (f : nat) : Prop :=
  forall s v rest,
    parse_value f s = Some (v, rest) ->
    String.length rest < String.length s
    /\ forall f', String.length s - String.length rest <= f' ->
                  parse_value f' s = Some (v, rest).

Definition enough_members (f : nat) : Prop :=
  forall s acc v rest,
    parse_members f s acc = Some (v, rest) ->
    String.length rest < String.length s
    /\ forall f', String.length s - String.length rest <= f' ->
                  parse_members f' s acc = Some (v, rest).

Definition enough_elements (f : nat) : Prop :=
  forall s acc v rest,
    parse_elements f s acc = Some (v, rest) ->
    String.length rest < String.length s
    /\ forall f', String.length s - String.length rest <= f' ->
                  parse_elements f' s acc = Some (v, rest).

Lemma enough_value_step n :
  enough_members n -> enough_elements n -> enough_value (S n).
Proof.
  intros IHm IHe s v rest H. cbn [parse_value] in H.
  pose proof (skip_ws_length s) as Hws.
  destruct (skip_ws s) as [|c r] eqn:Es; [discriminate|]. cbn [String.length] in Hws.
  assert (Hfinal : forall body : nat -> option (value * string),
    String.length rest < String.length s ->
    (forall m, String.length s - String.length rest <= S m -> body m = Some (v, rest)) ->
    (forall m, parse_value (S m) s = body m) ->
    String.length rest < String.length s
    /\ forall f', String.length s - String.length rest <= f' ->
                  parse_value f' s = Some (v, rest)).
  { intros body Hl Hb Hpv. split; [exact Hl|].
    intros [|m] Hm; [lia|]. rewrite Hpv. now apply Hb. }
  destruct (c =? "{")%char eqn:E1.
  { destruct (eat "}" (skip_ws r)) as [r'|] eqn:Ee.
    - inversion H; subst. apply eat_skip_length in Ee as Hl.
      apply (Hfinal (fun _ => Some (VObj [], rest))); [lia | reflexivity |].
      intros m. cbn [parse_value]. now rewrite Es, E1, Ee.
    - destruct (IHm _ _ _ _ H) as [Hl Hf].
      apply (Hfinal (fun m => parse_members m r [])); [lia | intros m Hm; apply Hf; lia |].
      intros m. cbn [parse_value]. now rewrite Es, E1, Ee. }
  destruct (c =? "[")%char eqn:E2.
  { destruct (eat "]" (skip_ws r)) as [r'|] eqn:Ee.
    - inversion H; subst. apply eat_skip_length in Ee as Hl.
      apply (Hfinal (fun _ => Some (VArr [], rest))); [lia | reflexivity |].
      intros m. cbn [parse_value]. now rewrite Es, E1, E2, Ee.
    - destruct (IHe _ _ _ _ H) as [Hl Hf].
      apply (Hfinal (fun m => parse_elements m r [])); [lia | intros m Hm; apply Hf; lia |].
      intros m. cbn [parse_value]. now rewrite Es, E1, E2, Ee. }
  assert (Hscalar : forall x : option (value * string),
    x = Some (v, rest) -> String.length rest <= String.length r ->
    (forall m, parse_value (S m) s = x) ->
    String.length rest < String.length s
    /\ forall f', String.length s - String.length rest <= f' ->
                  parse_value f' s = Some (v, rest)).
  { intros x Hx Hl Hpv. apply (Hfinal (fun _ => x)); [lia | now intros | exact Hpv]. }
  destruct (c =? dq)%char eqn:E3.
  { destruct (parse_string r) as [[t rest0]|] eqn:Ep; [|discriminate].
    inversion H; subst. apply parse_string_length in Ep as Hl.
    apply (Hscalar (Some (VStr t, rest))); [reflexivity | lia |].
    intros m. cbn [parse_value]. now rewrite Es, E1, E2, E3, Ep. }
  destruct (c =? "t")%char eqn:E4.
  { destruct (strip_prefix "rue" r) as [rest0|] eqn:Ep; [|discriminate].
    inversion H; subst. apply strip_prefix_length in Ep as Hl.
    apply (Hscalar (Some (VBool true, rest))); [reflexivity | lia |].
    intros m. cbn [parse_value]. now rewrite Es, E1, E2, E3, E4, Ep. }
  destruct (c =? "f")%char eqn:E5.
  { destruct (strip_prefix "alse" r) as [rest0|] eqn:Ep; [|discriminate].
    inversion H; subst. apply strip_prefix_length in Ep as Hl.
    apply (Hscalar (Some (VBool false, rest))); [reflexivity | lia |].
    intros m. cbn [parse_value]. now rewrite Es, E1, E2, E3, E4, E5, Ep. }
  destruct (c =? "n")%char eqn:E6.
  { destruct (strip_prefix "ull" r) as [rest0|] eqn:Ep; [|discriminate].
    inversion H; subst. apply strip_prefix_length in Ep as Hl.
    apply (Hscalar (Some (VNull, rest))); [reflexivity | lia |].
    intros m. cbn [parse_value]. now rewrite Es, E1, E2, E3, E4, E5, E6, Ep. }
  apply parse_number_length in H as Hl. cbn [String.length] in Hl.
  apply (Hscalar (parse_number (String c r))); [exact H | lia |].
  intros m. cbn [parse_value]. now rewrite Es, E1, E2, E3, E4, E5, E6.
Qed.

Lemma enough_members_step n :
  enough_value n -> enough_members n -> enough_members (S n).
Proof.
  intros IHv IHm s acc v rest H. cbn [parse_members] in H.
  destruct (eat dq (skip_ws s)) as [r|] eqn:E1; [|discriminate].
  apply eat_skip_length in E1 as L1.
  destruct (parse_string r) as [[k r1]|] eqn:E2; [|discriminate].
  apply parse_string_length in E2 as L2.
  destruct (eat ":" (skip_ws r1)) as [r2|] eqn:E3; [|discriminate].
  apply eat_skip_length in E3 as L3.
  destruct (parse_value n r2) as [[v0 r3]|] eqn:E4; [|discriminate].
  destruct (IHv _ _ _ E4) as [L4 F4].
  destruct (eat "," (skip_ws r3)) as [r4|] eqn:E5.
  - apply eat_skip_length in E5 as L5.
    destruct (IHm _ _ _ _ H) as [L6 F6].
    split; [lia|]. intros [|m] Hm; [lia|].
    cbn [parse_members]. rewrite E1, E2, E3, F4 by lia. rewrite E5. apply F6. lia.
  - destruct (eat "}" (skip_ws r3)) as [r4|] eqn:E6; [|discriminate].
    apply eat_skip_length in E6 as L6. inversion H; subst.
    split; [lia|]. intros [|m] Hm; [lia|].
    cbn [parse_members]. rewrite E1, E2, E3, F4 by lia. now rewrite E5, E6.
Qed.

Lemma enough_elements_step n :
  enough_value n -> enough_elements n -> enough_elements (S n).
Proof.
  intros IHv IHe s acc v rest H. cbn [parse_elements] in H.
  destruct (parse_value n s) as [[v0 r]|] eqn:E1; [|discriminate].
  destruct (IHv _ _ _ E1) as [L1 F1].
  destruct (eat "," (skip_ws r)) as [r'|] eqn:E2.
  - apply eat_skip_length in E2 as L2.
    destruct (IHe _ _ _ _ H) as [L3 F3].
    split; [lia|]. intros [|m] Hm; [lia|].
    cbn [parse_elements]. rewrite F1 by lia. rewrite E2. apply F3. lia.
  - destruct (eat "]" (skip_ws r)) as [r'|] eqn:E3; [|discriminate].
    apply eat_skip_length in E3 as L3. inversion H; subst.
    split; [lia|]. intros [|m] Hm; [lia|].
    cbn [parse_elements]. rewrite F1 by lia. now rewrite E2, E3.
Qed.

Lemma fuel_enough f : enough_value f /\ enough_members f /\ enough_elements f.
Proof.
  induction f as [|n (IHv & IHm & IHe)].
  - split; [intros s v rest H; discriminate|].
    split; intros s acc v rest H; discriminate.
  - split; [now apply enough_value_step|].
    split; [now apply enough_members_step | now apply enough_elements_step].
Qed.

(** [parse] fails only where the text is not JSON: a value found with any
    amount of fuel is the value [parse] returns. *)
Lemma parse_adequate fuel text v :
  parse_with fuel text = Some v -> parse text = Some v.
Proof.
  unfold parse, parse_with.
  destruct (parse_value fuel text) as [[v0 rest]|] eqn:E; [|discriminate].
  destruct (proj1 (fuel_enough fuel) _ _ _ E) as [Hl Hf].
  rewrite Hf by lia. tauto.
Qed.

End Json.

(* ===================================================================== *)
(** ** Regular expressions of the shape used by app.js *)
(* ===================================================================== *)

Module Regex.

(** A pattern is a sequence of literal runs and greedy [[\s\S]*] wildcards,
    which is all that [/\{[\s\S]*"phase"[\s\S]*\}/] needs. *)
Inductive atom : Type :=
| Lit (s : string)
| AnyStar.

Definition regex := list atom.

(** A greedy star followed by the continuation [k]: it first tries to
    swallow one more character and only then hands over to [k], so the
    longest run that lets the rest succeed wins. *)
Fixpoint star (k : string -> option string) (s : string) : option string :=
  match s with
  | EmptyString => k ""
  | String c s' =>
      match star k s' with
      | Some m => Some (String c m)
      | None => k s
      end
  end.

(** Backtracking match anchored at the start of the subject; the result is
    the text matched. *)
Fixpoint match_here (r : regex) : string -> option string :=
  match r with
  | [] => fun _ => Some ""
  | Lit l :: r' =>
      fun s =>
        match Json.strip_prefix l s with
        | Some rest => option_map (String.append l) (match_here r' rest)
        | None => None
        end
  | AnyStar :: r' => star (match_here r')
  end.

(** [s.match(r)[0]] for a pattern without the global flag: the match at the
    leftmost position where one exists; [None] is the [null] result. *)
Fixpoint search (r : regex) (s : string) : option string :=
  match match_here r s with
  | Some m => Some m
  | None =>
      match s with
      | String _ s' => search r s'
      | EmptyString => None
      end
  end.

(** The longest prefix of [s] that ends with the character [c]. *)
Fixpoint upto_last (c : ascii) (s : string) : option string :=
  match s with
  | EmptyString => None
  | String a s' =>
      match upto_last c s' with
      | Some m => Some (String a m)
      | None => if (a =? c)%char then Some (String a "") else None
      end
  end.

(** [c] does not occur in [s]. *)
Fixpoint free_of (c : ascii) (s : string) : bool :=
  match s with
  | EmptyString => true
  | String a s' => negb (a =? c)%char && free_of c s'
  end.

Lemma append_assoc (a b c : string) : ((a ++ b) ++ c = a ++ (b ++ c))%string.
Proof. induction a as [|x a IH]; simpl; [reflexivity | now rewrite IH]. Qed.

Lemma append_nil_r (a : string) : (a ++ "" = a)%string.
Proof. induction a as [|x a IH]; simpl; [reflexivity | now rewrite IH]. Qed.

Lemma strip_prefix_app (l s : string) :
  Json.strip_prefix l (l ++ s) = Some s.
Proof.
  induction l as [|a l IH]; simpl; [reflexivity|].
  now rewrite Ascii.eqb_refl.
Qed.

Lemma strip_prefix_sound (l s rest : string) :
  Json.strip_prefix l s = Some rest -> s = (l ++ rest)%string.
Proof.
  revert s; induction l as [|a l IH]; intros s H; simpl in *.
  - now inversion H.
  - destruct s as [|b s]; [discriminate|].
    destruct (Ascii.eqb_spec a b) as [->|]; [|discriminate].
    now rewrite (IH _ H).
Qed.

Lemma star_cons_some k c s m :
  star k s = Some m -> star k (String c s) = Some (String c m).
Proof. intros H; simpl; now rewrite H. Qed.

(** A star never fails where its continuation succeeds further right. *)
Lemma star_complete k (s1 s2 m : string) :
  k s2 = Some m -> exists m', star k (s1 ++ s2) = Some m'.
Proof.
  intros Hk; induction s1 as [|c s1 [m' IH]]; simpl.
  - destruct s2 as [|c s2]; simpl; [eauto|].
    destruct (star k s2); eauto.
  - rewrite IH; eauto.
Qed.

Lemma upto_last_free c s : free_of c s = true -> upto_last c s = None.
Proof.
  induction s as [|a s IH]; simpl; [reflexivity|].
  intros H; apply andb_prop in H as [Ha Hs].
  rewrite (IH Hs). apply negb_true_iff in Ha. now rewrite Ha.
Qed.

Lemma upto_last_app_some c (p s m : string) :
  upto_last c s = Some m -> upto_last c (p ++ s) = Some (p ++ m)%string.
Proof.
  intros H; induction p as [|a p IH]; simpl; [assumption | now rewrite IH].
Qed.

Lemma upto_last_closing c (b post : string) :
  free_of c post = true ->
  upto_last c (b ++ String c post) = Some (b ++ String c "")%string.
Proof.
  intros H. apply upto_last_app_some. simpl.
  rewrite (upto_last_free _ _ H). now rewrite Ascii.eqb_refl.
Qed.

(** [[\s\S]*c] matches exactly the longest prefix ending in [c]. *)
Lemma star_lit_upto_last c s :
  star (match_here [Lit (String c "")]) s = upto_last c s.
Proof.
  induction s as [|a s IH]; [reflexivity|].
  cbn [star upto_last]. rewrite IH. destruct (upto_last c s); [reflexivity|].
  cbn. rewrite (Ascii.eqb_sym c a).
  destruct (Ascii.eqb_spec a c) as [->|]; reflexivity.
Qed.

(** Whatever [[\s\S]*lit[\s\S]*c] matches is the longest prefix ending in
    [c]: the first star gives characters back only until [lit] fits, and the
    second one then runs to the last [c]. *)
Lemma lit_star_upto_last lit c s m :
  match_here [Lit lit; AnyStar; Lit (String c "")] s = Some m ->
  upto_last c s = Some m.
Proof.
  cbn [match_here]. intros H.
  destruct (Json.strip_prefix lit s) as [rest|] eqn:E; [|discriminate].
  apply strip_prefix_sound in E; subst s.
  change (star (fun s => match Json.strip_prefix (String c "") s with
                         | Some rest => option_map (String.append (String c "")) (Some "")
                         | None => None end) rest)
    with (star (match_here [Lit (String c "")]) rest) in H.
  rewrite star_lit_upto_last in H.
  destruct (upto_last c rest) as [m2|] eqn:E2; [|discriminate].
  inversion H; subst. now apply upto_last_app_some.
Qed.

Lemma star_lit_star_upto_last lit c s m :
  star (match_here [Lit lit; AnyStar; Lit (String c "")]) s = Some m ->
  upto_last c s = Some m.
Proof.
  revert m; induction s as [|a s IH]; intros m H.
  - now apply (lit_star_upto_last lit).
  - cbn [star] in H.
    destruct (star (match_here [Lit lit; AnyStar; Lit (String c "")]) s) as [m'|] eqn:E.
    + inversion H; subst. simpl. now rewrite (IH _ eq_refl).
    + now apply (lit_star_upto_last lit).
Qed.

Lemma search_cons r a s :
  search r (String a s)
  = match match_here r (String a s) with Some m => Some m | None => search r s end.
Proof. reflexivity. Qed.

Lemma match_here_char c r a s :
  match_here (Lit (String c "") :: r) (String a s)
  = if (c =? a)%char then option_map (String c) (match_here r s) else None.
Proof. cbn. destruct (c =? a)%char; reflexivity. Qed.

Lemma match_here_star r : match_here (AnyStar :: r) = star (match_here r).
Proof. reflexivity. Qed.

(** The pattern [\{[\s\S]*lit[\s\S]*\}] on a subject whose first [{] opens
    the block and whose last [}] closes it: the match is the block. *)
Lemma search_block (opening closing : ascii) (lit pre b1 b2 post : string) :
  free_of opening pre = true ->
  free_of closing post = true ->
  search [Lit (String opening ""); AnyStar; Lit lit; AnyStar; Lit (String closing "")]
    (pre ++ String opening (b1 ++ lit ++ b2 ++ String closing post))
  = Some (String opening (b1 ++ lit ++ b2 ++ String closing ""))%string.
Proof.
  intros Hpre Hpost.
  set (k := match_here [Lit lit; AnyStar; Lit (String closing "")]).
  assert (Hblock :
    star k (b1 ++ lit ++ b2 ++ String closing post)
    = Some (b1 ++ lit ++ b2 ++ String closing "")%string).
  { assert (Hk : k (lit ++ b2 ++ String closing post)%string
                 = Some (lit ++ b2 ++ String closing "")%string).
    { unfold k. cbn [match_here]. rewrite strip_prefix_app.
      change (star _ (b2 ++ String closing post))
        with (star (match_here [Lit (String closing "")]) (b2 ++ String closing post)).
      rewrite star_lit_upto_last, (upto_last_closing _ _ _ Hpost). reflexivity. }
    destruct (star_complete k b1 _ _ Hk) as [m Hm].
    rewrite Hm. f_equal.
    apply star_lit_star_upto_last in Hm.
    rewrite <- !append_assoc in Hm.
    rewrite (upto_last_closing _ _ _ Hpost) in Hm.
    rewrite !append_assoc in Hm. now inversion Hm. }
  induction pre as [|a pre IH].
  - cbn [String.append]. rewrite search_cons, match_here_char, Ascii.eqb_refl.
    rewrite match_here_star. fold k. rewrite Hblock. reflexivity.
  - simpl in Hpre. apply andb_prop in Hpre as [Ha Hpre'].
    apply negb_true_iff in Ha.
    cbn [String.append]. rewrite search_cons, match_here_char.
    rewrite (Ascii.eqb_sym opening a), Ha.
    now apply IH.
Qed.

Lemma star_sound k s m :
  star k s = Some m ->
  exists s1 s2 m2, s = (s1 ++ s2)%string /\ k s2 = Some m2 /\ m = (s1 ++ m2)%string.
Proof.
  revert m; induction s as [|a s IH]; intros m H.
  - exists "", "", m. auto.
  - cbn [star] in H. destruct (star k s) as [m'|] eqn:E.
    + inversion H; subst. destruct (IH _ eq_refl) as (s1 & s2 & m2 & -> & Hk & ->).
      exists (String a s1), s2, m2. auto.
    + exists "", (String a s), m. auto.
Qed.

Lemma upto_last_none_free c s : upto_last c s = None -> free_of c s = true.
Proof.
  induction s as [|a s IH]; simpl; [reflexivity|].
  destruct (upto_last c s); [discriminate|].
  destruct (a =? c)%char; [discriminate|]. intros _. now rewrite IH.
Qed.

Lemma upto_last_sound c s m :
  upto_last c s = Some m ->
  exists b post,
    m = (b ++ String c "")%string /\ s = (m ++ post)%string /\ free_of c post = true.
Proof.
  revert m; induction s as [|a s IH]; intros m H; [discriminate|].
  cbn [upto_last] in H. destruct (upto_last c s) as [m'|] eqn:E.
  - inversion H; subst. destruct (IH _ eq_refl) as (b & post & -> & Hs & Hfree).
    exists (String a b), post. cbn [String.append]. rewrite <- Hs. auto.
  - destruct (Ascii.eqb_spec a c) as [->|]; [|discriminate].
    inversion H; subst. exists "", s. split; [reflexivity|].
    split; [reflexivity|]. now apply upto_last_none_free.
Qed.

Lemma lit_star_lit_complete lit c (b2 post : string) :
  free_of c post = true ->
  match_here [Lit lit; AnyStar; Lit (String c "")] (lit ++ b2 ++ String c post)
  = Some (lit ++ b2 ++ String c "")%string.
Proof.
  intros Hpost. cbn [match_here]. rewrite strip_prefix_app.
  change (star _ (b2 ++ String c post))
    with (star (match_here [Lit (String c "")]) (b2 ++ String c post)).
  rewrite star_lit_upto_last, (upto_last_closing _ _ _ Hpost). reflexivity.
Qed.

Lemma lit_star_lit_sound lit c s m :
  match_here [Lit lit; AnyStar; Lit (String c "")] s = Some m ->
  exists b2 post,
    s = (lit ++ b2 ++ String c post)%string
    /\ m = (lit ++ b2 ++ String c "")%string
    /\ free_of c post = true.
Proof.
  cbn [match_here]. intros H.
  destruct (Json.strip_prefix lit s) as [rest|] eqn:E; [|discriminate].
  apply strip_prefix_sound in E; subst s.
  change (star _ rest) with (star (match_here [Lit (String c "")]) rest) in H.
  rewrite star_lit_upto_last in H.
  destruct (upto_last c rest) as [t|] eqn:Et; [|discriminate].
  inversion H; subst.
  destruct (upto_last_sound _ _ _ Et) as (b & post & -> & -> & Hfree).
  exists b, post. rewrite append_assoc. auto.
Qed.

(** Conversely, a match of the pattern always has that shape: it starts at
    the first opening character of the subject and ends at its last closing
    one. *)
Lemma search_block_inv (opening closing : ascii) (lit s m : string) :
  search [Lit (String opening ""); AnyStar; Lit lit; AnyStar; Lit (String closing "")] s
  = Some m ->
  exists pre b1 b2 post,
    free_of opening pre = true /\ free_of closing post = true
    /\ s = (pre ++ String opening (b1 ++ lit ++ b2 ++ String closing post))%string
    /\ m = String opening (b1 ++ lit ++ b2 ++ String closing "")%string.
Proof.
  set (k := match_here [Lit lit; AnyStar; Lit (String closing "")]).
  induction s as [|a s IH]; intros H.
  - cbn in H. discriminate.
  - rewrite search_cons, match_here_char, match_here_star in H. fold k in H.
    destruct (Ascii.eqb_spec opening a) as [<-|Hne].
    + destruct (star k s) as [m'|] eqn:E; cbn [option_map] in H.
      * inversion H; subst m.
        destruct (star_sound _ _ _ E) as (b1 & s2 & m2 & -> & Hk & ->).
        destruct (lit_star_lit_sound _ _ _ _ Hk) as (b2 & post & -> & -> & Hfree).
        exists "", b1, b2, post. auto.
      * exfalso. destruct (IH H) as (pre & b1 & b2 & post & _ & Hpost & -> & _).
        pose proof (lit_star_lit_complete lit closing b2 post Hpost) as Hk.
        change (pre ++ String opening (b1 ++ lit ++ b2 ++ String closing post))%string
          with (pre ++ String opening b1 ++ lit ++ b2 ++ String closing post)%string in E.
        rewrite <- !append_assoc in E. rewrite !append_assoc in E.
        rewrite <- (append_assoc pre) in E.
        destruct (star_complete k (pre ++ String opening b1) _ _ Hk) as [m' Hm'].
        congruence.
    + destruct (IH H) as (pre & b1 & b2 & post & Hpre & Hpost & -> & ->).
      exists (String a pre), b1, b2, post. cbn [free_of String.append].
      apply Ascii.eqb_neq in Hne. rewrite Ascii.eqb_sym in Hne. rewrite Hne, Hpre. auto.
Qed.

End Regex.

(* ===================================================================== *)
(** ** String.prototype.replace with a global pattern, and trim *)
(* ===================================================================== *)

Module Replace.

(** The patterns that [app.js] replaces are sequences of literal runs and
    lazy [[\s\S]*?] wildcards. *)
Inductive atom : Type :=
| Lit (s : string)
| AnyLazy.

Definition regex := list atom.

(** A lazy star followed by the continuation [k]: it first hands over to
    [k] and swallows one more character only when [k] fails, so the
    shortest run that lets the rest succeed wins.  The result is the length
    of the match. *)
Fixpoint lazy_star (k : string -> option nat) (s : string) : option nat :=
  match k s with
  | Some n => Some n
  | None =>
      match s with
      | String _ s' => option_map S (lazy_star k s')
      | EmptyString => None
      end
  end.

(** Backtracking match anchored at the start of the subject. *)
Fixpoint match_len (r : regex) : string -> option nat :=
  match r with
  | [] => fun _ => Some 0
  | Lit l :: r' =>
      fun s =>
        match Json.strip_prefix l s with
        | Some rest => option_map (Nat.add (String.length l)) (match_len r' rest)
        | None => None
        end
  | AnyLazy :: r' => lazy_star (match_len r')
  end.

(** [s.replace(r, '')] for a pattern with the global flag.  The subject is
    read from left to right; [skip] counts the characters of the current
    match that are still to be dropped.  Where no match starts (or only an
    empty one) the character is kept and the search goes on after it; after
    a match it goes on at the end of the match. *)
Fixpoint remove_from (r : regex) (skip : nat) (s : string) : string :=
  match s with
  | EmptyString => EmptyString
  | String c s' =>
      match skip with
      | S k => remove_from r k s'
      | O =>
          match match_len r s with
          | Some (S k) => remove_from r k s'
          | _ => String c (remove_from r 0 s')
          end
      end
  end.

Definition remove_all (r : regex) (s : string) : string := remove_from r 0 s.

(** *** White space

    [trim] removes the white space and line terminators of ECMAScript at
    both ends: TAB, LF, VT, FF, CR, SP, U+00A0, U+1680, U+2000 to U+200A,
    U+2028, U+2029, U+202F, U+205F, U+3000 and U+FEFF, here in their UTF-8
    bytes. *)
Definition ws1 (c : ascii) : bool :=
  let n := N_of_ascii c in ((9 <=? n) && (n <=? 13))%N || (n =? 32)%N.

Definition ws2 (c1 c2 : ascii) : bool :=
  (N_of_ascii c1 =? 194)%N && (N_of_ascii c2 =? 160)%N.

Definition ws3 (c1 c2 c3 : ascii) : bool :=
  let a := N_of_ascii c1 in
  let b := N_of_ascii c2 in
  let c := N_of_ascii c3 in
  ((a =? 225) && (b =? 154) && (c =? 128))%N
  || ((a =? 226) && (b =? 128)
      && (((128 <=? c) && (c <=? 138)) || (c =? 168) || (c =? 169) || (c =? 175)))%N
  || ((a =? 226) && (b =? 129) && (c =? 159))%N
  || ((a =? 227) && (b =? 128) && (c =? 128))%N
  || ((a =? 239) && (b =? 187) && (c =? 191))%N.

(** The rest of [s] after the white-space character it starts with. *)
Definition ws_char (s : string) : option string :=
  match s with
  | String c1 r1 =>
      if ws1 c1 then Some r1
      else
        match r1 with
        | String c2 r2 =>
            if ws2 c1 c2 then Some r2
            else
              match r2 with
              | String c3 r3 => if ws3 c1 c2 c3 then Some r3 else None
              | EmptyString => None
              end
        | EmptyString => None
        end
  | EmptyString => None
  end.

Fixpoint trimStart (s : string) : string :=
  match s with
  | String c1 r1 =>
      if ws1 c1 then trimStart r1
      else
        match r1 with
        | String c2 r2 =>
            if ws2 c1 c2 then trimStart r2
            else
              match r2 with
              | String c3 r3 => if ws3 c1 c2 c3 then trimStart r3 else s
              | EmptyString => s
              end
        | EmptyString => s
        end
  | EmptyString => s
  end.

(** [s] is white space from end to end. *)
Definition blank (s : string) : bool :=
  match trimStart s with EmptyString => true | _ => false end.

Fixpoint trimEnd (s : string) : string :=
  match s with
  | EmptyString => EmptyString
  | String c r => if blank s then EmptyString else String c (trimEnd r)
  end.

Definition trim (s : string) : string := trimEnd (trimStart s).

(** *** What a pattern matches *)

(** The subjects that [r] matches at their start, by their shape. *)
Fixpoint matches (r : regex) (s : string) : Prop :=
  match r with
  | [] => True
  | Lit l :: r' => exists rest, s = (l ++ rest)%string /\ matches r' rest
  | AnyLazy :: r' => exists a b, s = (a ++ b)%string /\ matches r' b
  end.

(** [r] matches somewhere in [s]. *)
Definition occurs (r : regex) (s : string) : Prop :=
  exists p q, s = (p ++ q)%string /\ matches r q.

Lemma lazy_star_unfold k s :
  lazy_star k s
  = match k s with
    | Some n => Some n
    | None =>
        match s with
        | String _ s' => option_map S (lazy_star k s')
        | EmptyString => None
        end
    end.
Proof. destruct s; reflexivity. Qed.

Lemma lazy_star_some k a b :
  k b <> None -> lazy_star k (a ++ b) <> None.
Proof.
  intros Hk. induction a as [|c a IH]; cbn [String.append].
  - rewrite lazy_star_unfold. destruct (k b); [discriminate | contradiction].
  - rewrite lazy_star_unfold. destruct (k (String c (a ++ b))); [discriminate|].
    destruct (lazy_star k (a ++ b)); [discriminate | contradiction].
Qed.

Lemma lazy_star_inv k s :
  lazy_star k s <> None -> exists a b, s = (a ++ b)%string /\ k b <> None.
Proof.
  induction s as [|c s IH]; rewrite lazy_star_unfold; intros H.
  - exists ""%string, ""%string. split; [reflexivity|].
    destruct (k ""%string); [discriminate | contradiction].
  - destruct (k (String c s)) eqn:E.
    + exists ""%string, (String c s). split; [reflexivity|]. now rewrite E.
    + destruct (lazy_star k s) eqn:El; [|contradiction].
      destruct IH as (a & b & -> & Hb); [discriminate|].
      now exists (String c a), b.
Qed.

Lemma match_len_matches r s : match_len r s <> None <-> matches r s.
Proof.
  revert s; induction r as [|[l|] r IH]; intros s; cbn [match_len matches].
  - split; [trivial | discriminate].
  - split.
    + destruct (Json.strip_prefix l s) as [rest|] eqn:E; [|contradiction].
      intros H. exists rest. split; [now apply Regex.strip_prefix_sound|].
      apply IH. destruct (match_len r rest); [discriminate | contradiction].
    + intros (rest & -> & Hm). rewrite Regex.strip_prefix_app.
      apply IH in Hm. destruct (match_len r rest); [discriminate | contradiction].
  - split.
    + intros H. apply lazy_star_inv in H as (a & b & -> & Hb).
      exists a, b. split; [reflexivity | now apply IH].
    + intros (a & b & -> & Hm). apply lazy_star_some. now apply IH.
Qed.

Lemma match_len_none r s : match_len r s = None <-> ~ matches r s.
Proof.
  rewrite <- match_len_matches. destruct (match_len r s); split; intros H;
    try reflexivity; try discriminate; try (intros H'; now apply H').
  exfalso; apply H; discriminate.
Qed.

(** A pattern that starts with a character never matches the empty text. *)
Lemma match_len_positive c l r s :
  match_len (Lit (String c l) :: r) s <> Some 0.
Proof.
  cbn [match_len]. destruct (Json.strip_prefix (String c l) s); [|discriminate].
  destruct (match_len r s0); cbn; discriminate.
Qed.

Lemma occurs_cons r c s :
  occurs r (String c s) <-> matches r (String c s) \/ occurs r s.
Proof.
  split.
  - intros (p & q & E & Hm). destruct p as [|a p]; cbn in E.
    + left. now subst q.
    + right. inversion E; subst. now exists p, q.
  - intros [Hm | (p & q & -> & Hm)].
    + now exists ""%string, (String c s).
    + now exists (String c p), q.
Qed.

Lemma occurs_nil c l r : ~ occurs (Lit (String c l) :: r) "".
Proof.
  intros (p & q & E & Hm). destruct p; [|discriminate]. cbn in E; subst q.
  destruct Hm as (rest & E & _). discriminate.
Qed.

(** Where nothing matches, nothing is removed. *)
Lemma remove_from_nothing r s :
  ~ occurs r s -> remove_from r 0 s = s.
Proof.
  induction s as [|c s IH]; intros H; [reflexivity|].
  cbn [remove_from].
  assert (Hm : match_len r (String c s) = None).
  { apply match_len_none. intros Hm. apply H, occurs_cons. now left. }
  rewrite Hm. f_equal. apply IH. intros Ho. apply H, occurs_cons. now right.
Qed.

Section SingleCharacterHead.

(** The patterns that begin with one character and a wildcard. *)
Variable c0 : ascii.
Variable r' : regex.

Let r : regex := Lit (String c0 "") :: AnyLazy :: r'.

Lemma matches_head c s : matches r (String c s) -> c = c0.
Proof. intros (rest & E & _). cbn in E. now inversion E. Qed.

(** If the pattern fails where its first character stands, it matches
    nowhere after that place either. *)
Lemma no_match_no_later s :
  ~ matches r (String c0 s) -> ~ occurs r s.
Proof.
  intros H (p & q & -> & (rest & -> & a & b & -> & Hm)). apply H.
  exists (p ++ String c0 "" ++ a ++ b)%string. split; [reflexivity|].
  exists (p ++ String c0 "" ++ a)%string, b. split; [|exact Hm].
  now rewrite !Regex.append_assoc.
Qed.

Lemma remove_from_clean s : forall skip, ~ occurs r (remove_from r skip s).
Proof.
  induction s as [|c s IH]; intros skip.
  - cbn. apply occurs_nil.
  - cbn [remove_from]. destruct skip as [|k]; [|apply IH].
    destruct (match_len r (String c s)) as [[|k]|] eqn:E.
    + exfalso. exact (match_len_positive _ _ _ _ E).
    + apply IH.
    + apply match_len_none in E. intros Ho. apply occurs_cons in Ho as [Hm | Ho].
      * pose proof (matches_head _ _ Hm) as ->.
        rewrite (remove_from_nothing r s) in Hm by now apply no_match_no_later.
        now apply E.
      * exact (IH 0 Ho).
Qed.

End SingleCharacterHead.

(** *** [trim] keeps a stretch of its subject *)

Lemma trimStart_eq s :
  trimStart s = match ws_char s with Some r => trimStart r | None => s end.
Proof.
  destruct s as [|c1 r1]; [reflexivity|]. cbn [trimStart ws_char].
  destruct (ws1 c1); [reflexivity|].
  destruct r1 as [|c2 r2]; [reflexivity|].
  destruct (ws2 c1 c2); [reflexivity|].
  destruct r2 as [|c3 r3]; [reflexivity|].
  now destruct (ws3 c1 c2 c3).
Qed.

Lemma ws_char_suffix s r :
  ws_char s = Some r ->
  exists a, s = (a ++ r)%string /\ String.length r < String.length s.
Proof.
  destruct s as [|c1 r1]; [discriminate|]. cbn [ws_char].
  destruct (ws1 c1).
  { intros [= <-]. exists (String c1 ""). split; [reflexivity | cbn; lia]. }
  destruct r1 as [|c2 r2]; [discriminate|].
  destruct (ws2 c1 c2).
  { intros [= <-]. exists (String c1 (String c2 "")). split; [reflexivity | cbn; lia]. }
  destruct r2 as [|c3 r3]; [discriminate|].
  destruct (ws3 c1 c2 c3); [|discriminate].
  intros [= <-]. exists (String c1 (String c2 (String c3 ""))).
  split; [reflexivity | cbn; lia].
Qed.

Lemma trimStart_suffix s : exists a, s = (a ++ trimStart s)%string.
Proof.
  remember (String.length s) as n eqn:Hn.
  revert s Hn; induction n as [n IH] using lt_wf_ind; intros s Hn.
  rewrite trimStart_eq. destruct (ws_char s) as [r|] eqn:E.
  - apply ws_char_suffix in E as (a & -> & Hlt).
    destruct (IH (String.length r) ltac:(lia) r eq_refl) as (a' & Ha').
    exists (a ++ a')%string. rewrite Regex.append_assoc. now rewrite <- Ha'.
  - now exists ""%string.
Qed.

Lemma trimEnd_prefix s : exists b, s = (trimEnd s ++ b)%string.
Proof.
  induction s as [|c s [b IH]]; [now exists ""%string|].
  cbn [trimEnd]. destruct (blank (String c s)).
  - now exists (String c s).
  - exists b. cbn. now rewrite <- IH.
Qed.

Lemma trim_infix s : exists a b, s = (a ++ trim s ++ b)%string.
Proof.
  unfold trim. destruct (trimStart_suffix s) as (a & Ha).
  destruct (trimEnd_prefix (trimStart s)) as (b & Hb).
  exists a, b. now rewrite <- Hb.
Qed.

Lemma occurs_infix r a s b : occurs r s -> occurs r (a ++ s ++ b).
Proof.
  intros (p & q & -> & Hm). exists (a ++ p)%string, (q ++ b)%string.
  split; [now rewrite !Regex.append_assoc|].
  clear p a. revert q Hm; induction r as [|[l|] r IH]; intros q Hm; cbn [matches] in *.
  - trivial.
  - destruct Hm as (rest & -> & Hm). exists (rest ++ b)%string.
    split; [now rewrite Regex.append_assoc | now apply IH].
  - destruct Hm as (x & y & -> & Hm). exists x, (y ++ b)%string.
    split; [now rewrite Regex.append_assoc | now apply IH].
Qed.

Lemma trim_clean r s : ~ occurs r s -> ~ occurs r (trim s).
Proof.
  intros H Ho. apply H. destruct (trim_infix s) as (a & b & E).
  rewrite E. now apply occurs_infix.
Qed.

(** *** Text without the first character of the pattern *)

Lemma length_append (a b : string) :
  String.length (a ++ b) = String.length a + String.length b.
Proof. induction a as [|x a IH]; cbn; [reflexivity | now rewrite IH]. Qed.

Lemma free_of_app c a b :
  Regex.free_of c (a ++ b) = Regex.free_of c a && Regex.free_of c b.
Proof.
  induction a as [|x a IH]; cbn [String.append Regex.free_of]; [reflexivity|].
  now rewrite IH, andb_assoc.
Qed.

Lemma matches_first c l r a s : matches (Lit (String c l) :: r) (String a s) -> a = c.
Proof. intros (rest & E & _). cbn in E. now inversion E. Qed.

Lemma free_not_occurs c l r s :
  Regex.free_of c s = true -> ~ occurs (Lit (String c l) :: r) s.
Proof.
  induction s as [|a s IH]; intros Hf; [apply occurs_nil|].
  cbn [Regex.free_of] in Hf. apply andb_true_iff in Hf as [Ha Hs].
  intros Ho. apply occurs_cons in Ho as [Hm | Ho]; [|now apply IH].
  apply matches_first in Hm. subst a. now rewrite Ascii.eqb_refl in Ha.
Qed.

Lemma match_len_other c l r a s :
  (a =? c)%char = false -> match_len (Lit (String c l) :: r) (String a s) = None.
Proof.
  intros Ha. cbn [match_len Json.strip_prefix].
  rewrite Ascii.eqb_sym in Ha. now rewrite Ha.
Qed.

Lemma lazy_star_free c l r body t :
  Regex.free_of c body = true ->
  lazy_star (match_len (Lit (String c l) :: r)) (body ++ t)
  = option_map (Nat.add (String.length body))
      (lazy_star (match_len (Lit (String c l) :: r)) t).
Proof.
  induction body as [|a body IH]; intros Hf; cbn [String.append String.length].
  - now destruct (lazy_star _ t).
  - cbn [Regex.free_of] in Hf. apply andb_true_iff in Hf as [Ha Hb].
    apply negb_true_iff in Ha.
    rewrite lazy_star_unfold, (match_len_other c l r a _ Ha), (IH Hb).
    now destruct (lazy_star _ t).
Qed.

Lemma remove_from_keep c l r prose t :
  Regex.free_of c prose = true ->
  remove_from (Lit (String c l) :: r) 0 (prose ++ t)
  = (prose ++ remove_from (Lit (String c l) :: r) 0 t)%string.
Proof.
  induction prose as [|a prose IH]; intros Hf; [reflexivity|].
  cbn [Regex.free_of] in Hf. apply andb_true_iff in Hf as [Ha Hb].
  apply negb_true_iff in Ha.
  cbn [String.append remove_from].
  rewrite (match_len_other c l r a _ Ha). now rewrite (IH Hb).
Qed.

Lemma remove_from_skip r m rest :
  remove_from r (String.length m) (m ++ rest) = remove_from r 0 rest.
Proof. induction m as [|a m IH]; [reflexivity | exact IH]. Qed.

Section Fence.

(** A pattern made of an opening run, a wildcard and a closing run. *)
Variables (c : ascii) (l : string) (d : ascii) (e : string).

Let fence : regex := [Lit (String c l); AnyLazy; Lit (String d e)].

Lemma match_len_fence body post :
  Regex.free_of d body = true ->
  match_len fence (String c l ++ body ++ String d e ++ post)
  = Some (S (String.length (l ++ body ++ String d e))).
Proof.
  intros Hb. unfold fence.
  change (match_len [Lit (String c l); AnyLazy; Lit (String d e)]
            (String c l ++ body ++ String d e ++ post))
    with (match Json.strip_prefix (String c l) (String c l ++ body ++ String d e ++ post) with
          | Some rest =>
              option_map (Nat.add (String.length (String c l)))
                (lazy_star (match_len [Lit (String d e)]) rest)
          | None => None
          end).
  rewrite Regex.strip_prefix_app, (lazy_star_free d e [] body _ Hb).
  rewrite lazy_star_unfold.
  change (match_len [Lit (String d e)] (String d e ++ post))
    with (match Json.strip_prefix (String d e) (String d e ++ post) with
          | Some rest => option_map (Nat.add (String.length (String d e))) (Some 0)
          | None => None
          end).
  rewrite Regex.strip_prefix_app. cbn [option_map].
  rewrite !length_append. cbn [String.length]. f_equal. lia.
Qed.

(** One fenced stretch in a text that has the opening character nowhere
    else: the stretch goes, the text around it stays. *)
Lemma remove_fence prose body post :
  Regex.free_of c prose = true ->
  Regex.free_of d body = true ->
  Regex.free_of c post = true ->
  remove_all fence (prose ++ String c l ++ body ++ String d e ++ post)
  = (prose ++ post)%string.
Proof.
  intros Hp Hb Hq. unfold remove_all, fence.
  rewrite (remove_from_keep c l _ prose _ Hp). f_equal.
  pose proof (match_len_fence body post Hb) as Hm. unfold fence in Hm.
  change (String c l ++ body ++ String d e ++ post)%string
    with (String c (l ++ body ++ String d e ++ post)) in *.
  cbn [remove_from]. rewrite Hm.
  replace (l ++ body ++ String d e ++ post)%string
    with ((l ++ body ++ String d e) ++ post)%string
    by now rewrite !Regex.append_assoc.
  rewrite remove_from_skip. apply remove_from_nothing.
  now apply free_not_occurs.
Qed.

End Fence.

(** *** [trim] twice is [trim] once *)

Lemma ws_char_app v r b :
  ws_char v = Some r -> ws_char (v ++ b) = Some (r ++ b)%string.
Proof.
  destruct v as [|c1 r1]; [discriminate|]. cbn [ws_char String.append].
  destruct (ws1 c1); [now intros [= <-]|].
  destruct r1 as [|c2 r2]; [discriminate|]. cbn [String.append].
  destruct (ws2 c1 c2); [now intros [= <-]|].
  destruct r2 as [|c3 r3]; [discriminate|]. cbn [String.append].
  destruct (ws3 c1 c2 c3); [now intros [= <-] | discriminate].
Qed.

Lemma ws_char_trimStart s : ws_char (trimStart s) = None.
Proof.
  remember (String.length s) as n eqn:Hn.
  revert s Hn; induction n as [n IH] using lt_wf_ind; intros s Hn.
  rewrite trimStart_eq. destruct (ws_char s) as [r|] eqn:E; [|exact E].
  apply ws_char_suffix in E as (a & -> & Hlt).
  exact (IH (String.length r) ltac:(lia) r eq_refl).
Qed.

Lemma trimStart_fixed s : ws_char s = None -> trimStart s = s.
Proof. intros H. now rewrite trimStart_eq, H. Qed.

Lemma trimStart_blank_app x b :
  trimStart x = ""%string -> trimStart (x ++ b) = trimStart b.
Proof.
  remember (String.length x) as n eqn:Hn.
  revert x Hn; induction n as [n IH] using lt_wf_ind; intros x Hn.
  rewrite (trimStart_eq x). destruct (ws_char x) as [r|] eqn:E.
  - intros Hr. rewrite (trimStart_eq (x ++ b)), (ws_char_app _ _ b E).
    apply ws_char_suffix in E as (a & -> & Hlt).
    exact (IH (String.length r) ltac:(lia) r eq_refl Hr).
  - now intros ->.
Qed.

Lemma blank_app x b : blank x = true -> blank (x ++ b) = blank b.
Proof.
  unfold blank. intros H.
  rewrite trimStart_blank_app; [reflexivity|].
  now destruct (trimStart x).
Qed.

Lemma trimEnd_cut s : exists b, s = (trimEnd s ++ b)%string /\ blank b = true.
Proof.
  induction s as [|c s (b & IH & Hb)]; [now exists ""%string|].
  cbn [trimEnd]. destruct (blank (String c s)) eqn:E.
  - now exists (String c s).
  - exists b. split; [cbn; now rewrite <- IH | exact Hb].
Qed.

Lemma trimEnd_idem s : trimEnd (trimEnd s) = trimEnd s.
Proof.
  induction s as [|c s IH]; [reflexivity|].
  cbn [trimEnd]. destruct (blank (String c s)) eqn:E; [reflexivity|].
  cbn [trimEnd]. rewrite IH.
  destruct (blank (String c (trimEnd s))) eqn:E'; [|reflexivity].
  destruct (trimEnd_cut s) as (b & Hs & Hb).
  rewrite Hs in E.
  change (String c (trimEnd s ++ b)) with (String c (trimEnd s) ++ b)%string in E.
  rewrite (blank_app _ b E') in E. congruence.
Qed.

Lemma trim_idem s : trim (trim s) = trim s.
Proof.
  unfold trim.
  assert (H : ws_char (trimEnd (trimStart s)) = None).
  { destruct (ws_char (trimEnd (trimStart s))) as [r|] eqn:E; [|reflexivity].
    destruct (trimEnd_prefix (trimStart s)) as (b & Hb).
    apply (ws_char_app _ _ b) in E. rewrite <- Hb, ws_char_trimStart in E.
    discriminate. }
  rewrite (trimStart_fixed _ H). apply trimEnd_idem.
Qed.

Lemma free_of_trim c s : Regex.free_of c s = true -> Regex.free_of c (trim s) = true.
Proof.
  intros H. destruct (trim_infix s) as (a & b & E). rewrite E in H.
  rewrite !free_of_app in H. apply andb_true_iff in H as [_ H].
  now apply andb_true_iff in H as [H _].
Qed.

End Replace.

(* ===================================================================== *)
(** ** The chat client (app.js) *)
(* ===================================================================== *)

Module Chat.
Import Js.

(** One entry of [chatHistory]. *)
Record message : Type := { role : string; content : string }.

(** The [File] picked in the file input. *)
Record file : Type := { file_name : string; file_type : string }.

(** What a handler does to the page and to the network.  The DOM is written
    to and never read back by the code modelled here, so it appears as
    output. *)
Inductive effect : Type :=
| ShowPage (id : string)
| AddMessage (sender text : string)
| AddImageMessage (imageData : string)
| RemoveUploadingMessage
| ClearMessages
| ClearInput
| Alert (text : string)
| ResetFileInput
| ShowTyping
| RemoveTyping
| SetDisplay (element display : string)
| SetPlaceholder (element text : string)
| UpdateLanguageDom (lang : string)
| FetchChatCompletion (history : list message)
| ReadAsDataURL (f : file)
| UploadImage (f : file) (uploadType : option string)
| PostTicket (payload : value)
| Speak (text lang : string).

(** The global variables of app.js. *)
Record state : Type := {
  currentLanguage : string;
  chatHistory : list message;
  currentTicket : value;
  currentPhase : value;
  ticketData : value;
  voiceEnabled : bool;
  ticketAlreadyCreated : bool;
  uploadedFiles : value;
  tickets : list value
}.

Definition emptyUploadedFiles : value :=
  VObj [("accident_photos", VArr []); ("id_card", VNull);
        ("driving_license", VNull); ("vehicle_registration", VNull)].

Definition initial : state :=
  {| currentLanguage := "ar"; chatHistory := []; currentTicket := VNull;
     currentPhase := VStr "greeting"; ticketData := VObj [];
     voiceEnabled := false; ticketAlreadyCreated := false;
     uploadedFiles := emptyUploadedFiles; tickets := [] |}.

Definition set_language (l : string) (st : state) : state :=
  {| currentLanguage := l; chatHistory := chatHistory st;
     currentTicket := currentTicket st; currentPhase := currentPhase st;
     ticketData := ticketData st; voiceEnabled := voiceEnabled st;
     ticketAlreadyCreated := ticketAlreadyCreated st;
     uploadedFiles := uploadedFiles st; tickets := tickets st |}.

Definition set_history (h : list message) (st : state) : state :=
  {| currentLanguage := currentLanguage st; chatHistory := h;
     currentTicket := currentTicket st; currentPhase := currentPhase st;
     ticketData := ticketData st; voiceEnabled := voiceEnabled st;
     ticketAlreadyCreated := ticketAlreadyCreated st;
     uploadedFiles := uploadedFiles st; tickets := tickets st |}.

Definition set_currentTicket (t : value) (st : state) : state :=
  {| currentLanguage := currentLanguage st; chatHistory := chatHistory st;
     currentTicket := t; currentPhase := currentPhase st;
     ticketData := ticketData st; voiceEnabled := voiceEnabled st;
     ticketAlreadyCreated := ticketAlreadyCreated st;
     uploadedFiles := uploadedFiles st; tickets := tickets st |}.

Definition set_phase (p : value) (st : state) : state :=
  {| currentLanguage := currentLanguage st; chatHistory := chatHistory st;
     currentTicket := currentTicket st; currentPhase := p;
     ticketData := ticketData st; voiceEnabled := voiceEnabled st;
     ticketAlreadyCreated := ticketAlreadyCreated st;
     uploadedFiles := uploadedFiles st; tickets := tickets st |}.

Definition set_ticketData (d : value) (st : state) : state :=
  {| currentLanguage := currentLanguage st; chatHistory := chatHistory st;
     currentTicket := currentTicket st; currentPhase := currentPhase st;
     ticketData := d; voiceEnabled := voiceEnabled st;
     ticketAlreadyCreated := ticketAlreadyCreated st;
     uploadedFiles := uploadedFiles st; tickets := tickets st |}.

Definition set_voiceEnabled (b : bool) (st : state) : state :=
  {| currentLanguage := currentLanguage st; chatHistory := chatHistory st;
     currentTicket := currentTicket st; currentPhase := currentPhase st;
     ticketData := ticketData st; voiceEnabled := b;
     ticketAlreadyCreated := ticketAlreadyCreated st;
     uploadedFiles := uploadedFiles st; tickets := tickets st |}.

Definition set_created (b : bool) (st : state) : state :=
  {| currentLanguage := currentLanguage st; chatHistory := chatHistory st;
     currentTicket := currentTicket st; currentPhase := currentPhase st;
     ticketData := ticketData st; voiceEnabled := voiceEnabled st;
     ticketAlreadyCreated := b;
     uploadedFiles := uploadedFiles st; tickets := tickets st |}.

Definition set_uploadedFiles (u : value) (st : state) : state :=
  {| currentLanguage := currentLanguage st; chatHistory := chatHistory st;
     currentTicket := currentTicket st; currentPhase := currentPhase st;
     ticketData := ticketData st; voiceEnabled := voiceEnabled st;
     ticketAlreadyCreated := ticketAlreadyCreated st;
     uploadedFiles := u; tickets := tickets st |}.

Definition set_tickets (t : list value) (st : state) : state :=
  {| currentLanguage := currentLanguage st; chatHistory := chatHistory st;
     currentTicket := currentTicket st; currentPhase := currentPhase st;
     ticketData := ticketData st; voiceEnabled := voiceEnabled st;
     ticketAlreadyCreated := ticketAlreadyCreated st;
     uploadedFiles := uploadedFiles st; tickets := t |}.

Definition push_history (m : message) (st : state) : state :=
  set_history (chatHistory st ++ [m]) st.

(** [currentLanguage === 'ar' ? a : e] *)
Definition by_language (st : state) (a e : string) : string :=
  if currentLanguage st =? "ar" then a else e.

(** *** parseLLMState *)

(** [/\{[\s\S]*"phase"[\s\S]*\}/] *)
Definition state_block_re : Regex.regex :=
  [Regex.Lit "{"; Regex.AnyStar; Regex.Lit (quoted "phase");
   Regex.AnyStar; Regex.Lit "}"].

(** [None] is the [null] the function returns, both when the pattern does not
    match and when [JSON.parse] throws inside the [try]. *)
Definition parseLLMState (message : string) : option value :=
  match Regex.search state_block_re message with
  | Some jsonStr => Json.parse jsonStr
  | None => None
  end.

(** *** The handlers

    What the page and the configuration provide is fixed for a session:
    [validateConfig()] of config.js, whether [window.elevenLabsTTS] is
    defined, whether the elements [#attachBtn] and [#messageInput] exist,
    the system prompt, [extractMessageText] (which only shapes the text
    shown), and [String(v)] for a phase that is not a string. *)
Section Handlers.

Variable config_valid : bool.
Variable tts_defined : bool.
Variable attachBtn_present : bool.
Variable messageInput_present : bool.
Variable CHAT_SYSTEM : string.
Variable extractMessageText : string -> string.
Variable ToString : value -> string.

Definition uploadPhases : list string :=
  ["accident_photos"; "id_card"; "driving_license"; "vehicle_registration"].

Definition when (b : bool) (out : list effect) : list effect :=
  if b then out else [].

(** [updateUIForPhase(phase)]: it writes to the page only. *)
Definition updateUIForPhase (phase : value) (st : state) : list effect :=
  if includes uploadPhases phase then
    when attachBtn_present [SetDisplay "attachBtn" "block"]
    ++ when messageInput_present
         [SetPlaceholder "messageInput"
            (by_language st "يرجى رفع الصورة المطلوبة..."
                            "Please upload the required image...")]
  else
    when messageInput_present
      [SetPlaceholder "messageInput"
         (by_language st "اكتب رسالتك..." "Type your message...")].

(** [getAIResponse()] up to its [await fetch(...)]. *)
Definition getAIResponse_start (st : state) : state * list effect :=
  if config_valid then (st, [ShowTyping; FetchChatCompletion (chatHistory st)])
  else (st, [AddMessage "system"
               (by_language st "⚠️ يرجى تكوين مفتاح OpenAI API في config.js"
                               "⚠️ Please configure OpenAI API key in config.js")]).

Definition message_value (m : message) : value :=
  VObj [("role", VStr (role m)); ("content", VStr (content m))].

Definition extracted_data_of (td uf : value) : value :=
  VObj [("description", or_else (get td "description") (VStr ""));
        ("location", or_else (get td "location") (VStr ""));
        ("number_of_vehicles", or_else (get td "number_of_vehicles") (VNum 0 0));
        ("injuries", or_else (get td "injuries") (VBool false));
        ("accident_photos_count", or_else (get td "accident_photos_count") (VNum 0 0));
        ("id_card_received", or_else (get td "id_card_received") (VBool false));
        ("driving_license_received",
           or_else (get td "driving_license_received") (VBool false));
        ("vehicle_registration_received",
           or_else (get td "vehicle_registration_received") (VBool false));
        ("uploads",
           VObj [("accident_photos", or_else (get uf "accident_photos") (VArr []));
                 ("id_card", or_else (get uf "id_card") VNull);
                 ("driving_license", or_else (get uf "driving_license") VNull);
                 ("vehicle_registration",
                    or_else (get uf "vehicle_registration") VNull)])].

Definition ticketPayload_of (ticketId : string) (st : state) : value :=
  VObj [("ticket_id", VStr ticketId);
        ("transcript", VArr (map message_value (chatHistory st)));
        ("extracted_data", extracted_data_of (ticketData st) (uploadedFiles st));
        ("description",
           or_else (get (ticketData st) "description") (VStr "Accident report"))].

(** [createTicketFromLLMData()] up to its [await fetch(...)].  [ticketId] is
    the identifier drawn from the clock and [Math.random()]. *)
Definition createTicket_start (ticketId : string) (st : state) : state * list effect :=
  if ticketAlreadyCreated st then (st, [])
  else (st, [PostTicket (ticketPayload_of ticketId st)]).

(** How the POST ended: the fetch was rejected, or a response came with its
    [ok] flag and its body read as JSON ([None]: [response.json()] failed). *)
Inductive post_outcome : Type :=
| PostRejected
| PostResponse (ok : bool) (body : option value).

Definition nl : string := String "010" "".

Definition ticket_error_message : string := "عذراً، حدث خطأ أثناء إنشاء التذكرة.".

Definition ticket_success_message (st : state) (ticketId : string) : string :=
  by_language st
    ("✅ تم إنشاء التذكرة بنجاح!" ++ nl ++ nl ++ "رقم التذكرة: " ++ ticketId
       ++ nl ++ nl ++ "احتفظ بهذا الرقم للمتابعة.")
    ("✅ Ticket created successfully!" ++ nl ++ nl ++ "Ticket ID: " ++ ticketId
       ++ nl ++ nl ++ "Keep this number for follow-up.").

(** The rest of [createTicketFromLLMData()] once the POST has ended.  The
    flag is set on the success path only; every failure lands in the
    [catch], which reports and changes no variable. *)
Definition createTicket_resume (ticketId : string) (payload : value)
    (o : post_outcome) (st : state) : state * list effect :=
  match o with
  | PostRejected => (st, [AddMessage "system" ticket_error_message])
  | PostResponse false _ => (st, [AddMessage "system" ticket_error_message])
  | PostResponse true None => (st, [AddMessage "system" ticket_error_message])
  | PostResponse true (Some result) =>
      let shown := AddMessage "system" (ticket_success_message st ticketId) in
      match result with
      | VNull | VUndefined =>
          (* [result.ticket] throws on [null] *)
          (st, [shown; AddMessage "system" ticket_error_message])
      | _ =>
          let t := or_else (get result "ticket") payload in
          let st1 := set_tickets (tickets st ++ [t]) st in
          let st2 := set_currentTicket t st1 in
          let st3 := set_created true st2 in
          (set_phase (VStr "completed") st3, [shown])
      end
  end.

(** The text-to-speech call at the end of [getAIResponse]. *)
Definition speak (st : state) (messageText : string) : list effect :=
  when (voiceEnabled st && tts_defined) [Speak messageText (currentLanguage st)].

(** How the chat-completion request ended: [LLMFailed] is every way into the
    [catch] (rejected fetch, status not ok, a body without the expected
    fields); [LLMReply] carries [data.choices[0].message.content]. *)
Inductive llm_outcome : Type :=
| LLMFailed
| LLMReply (fullMessage : string).

Definition llm_error_message (st : state) : string :=
  by_language st "❌ عذراً، حدث خطأ. يرجى المحاولة مرة أخرى."
                 "❌ Sorry, an error occurred. Please try again.".

(** The rest of [getAIResponse()] once the request has ended, up to the next
    [await] (the POST of the ticket, when one is sent) or to its end. *)
Definition getAIResponse_resume (o : llm_outcome) (ticketId : string)
    (st : state) : state * list effect :=
  match o with
  | LLMFailed => (st, [RemoveTyping; AddMessage "system" (llm_error_message st)])
  | LLMReply fullMessage =>
      let parsed := parseLLMState fullMessage in
      let messageText := extractMessageText fullMessage in
      let shown := [RemoveTyping; AddMessage "assistant" messageText] in
      let st1 := push_history {| role := "assistant"; content := fullMessage |} st in
      match parsed with
      | Some s =>
          if truthy (get s "phase") then
            let st2 := set_phase (get s "phase") st1 in
            let st3 := set_ticketData (or_else (get s "ticket") (ticketData st2)) st2 in
            let ui := updateUIForPhase (currentPhase st3) st3 in
            if strict_eq (currentPhase st3) (VStr "done")
               && negb (ticketAlreadyCreated st3)
            then
              let '(st4, out) := createTicket_start ticketId st3 in
              (st4, shown ++ ui ++ out)
            else (st3, shown ++ ui ++ speak st3 messageText)
          else (st1, shown ++ speak st1 messageText)
      | None => (st1, shown ++ speak st1 messageText)
      end
  end.

(** [sendMessage()]; [message] is [input.value.trim()]. *)
Definition sendMessage (message : string) (st : state) : state * list effect :=
  if message =? "" then (st, [])
  else
    let st1 := push_history {| role := "user"; content := message |} st in
    let '(st2, out) := getAIResponse_start st1 in
    (st2, [ClearInput; AddMessage "user" message] ++ out).

(** [startReport()], which runs [initChat()]. *)
Definition startReport (st : state) : state * list effect :=
  let st1 := set_history [{| role := "system"; content := CHAT_SYSTEM |}] st in
  let '(st2, out) := getAIResponse_start st1 in
  (st2, ShowPage "chatPage" :: out).

Definition goToLanding (st : state) : state * list effect :=
  ({| currentLanguage := currentLanguage st; chatHistory := [];
      currentTicket := VNull; currentPhase := VStr "greeting";
      ticketData := VObj []; voiceEnabled := false;
      ticketAlreadyCreated := false; uploadedFiles := emptyUploadedFiles;
      tickets := tickets st |},
   [ShowPage "landingPage"; ClearMessages]).

Definition toggleLanguage (st : state) : state * list effect :=
  let l := if currentLanguage st =? "ar" then "en" else "ar" in
  (set_language l st, [UpdateLanguageDom l]).

(** [manualCreateTicket()] *)
Definition manualCreateTicket (ticketId : string) (st : state) : state * list effect :=
  let st1 :=
    if truthy (currentTicket st) then st
    else set_currentTicket
           (VObj [("ocrData",
                   VObj [("plate", VStr "1234ABC"); ("vehicles", VNum 2 0);
                         ("damage", VStr "Front bumper damage")])]) st in
  createTicket_start ticketId st1.

(** *** Image upload *)

Definition validUploadPhases : list string :=
  ["accident_photos"; "id_card"; "driving_license"; "vehicle_registration"].

Definition wait_message (st : state) : string :=
  by_language st
    "يرجى انتظار التعليمات قبل رفع الصور. سيطلب منك المساعد رفع الصور في الوقت المناسب."
    "Please wait for instructions before uploading images. The assistant will ask you to upload images at the appropriate time.".

(** [handleImageUpload(event)] itself: [f] is [event.target.files[0]].  The
    upload is not made here; passing the gate hands the file to a
    [FileReader], whose [onload] callback ([reader_onload]) makes it. *)
Definition handleImageUpload (f : option file) (st : state) : state * list effect :=
  match f with
  | None => (st, [])
  | Some f =>
      if negb (String.prefix "image/" (file_type f)) then
        (st, [Alert (by_language st "يرجى اختيار صورة صحيحة"
                                    "Please select a valid image")])
      else if negb (includes validUploadPhases (currentPhase st)) then
        (st, [AddMessage "system" (wait_message st); ResetFileInput])
      else (st, [ReadAsDataURL f; ResetFileInput])
  end.

(** The [switch (currentPhase)] of the callback; [None] is the [undefined]
    left when no case applies. *)
Definition uploadType_of (phase : value) : option string :=
  if strict_eq phase (VStr "accident_photos") then Some "accident_photos"
  else if strict_eq phase (VStr "id_card") then Some "id_cards"
  else if strict_eq phase (VStr "driving_license") then Some "driving_licenses"
  else if strict_eq phase (VStr "vehicle_registration") then Some "vehicle_registrations"
  else None.

(** [reader.onload], up to [await window.backendAPI.uploadImage(...)]. *)
Definition reader_onload (f : file) (imageData : string) (st : state)
  : state * list effect :=
  (st, [AddImageMessage imageData; AddMessage "system" "جاري رفع الصورة...";
        UploadImage f (uploadType_of (currentPhase st))]).

Inductive upload_outcome : Type :=
| UploadFailed
| UploadOk (filename url : value).

Definition property_key (v : value) : string :=
  match v with
  | VStr s => s
  | _ => ToString v
  end.

Definition upload_error_message : string :=
  "عذراً، حدث خطأ أثناء رفع الصورة. يرجى المحاولة مرة أخرى.".

(** The rest of [reader.onload] once the upload has ended. *)
Definition upload_resume (uploadType : option string) (o : upload_outcome)
    (st : state) : state * list effect :=
  let failed := (st, [RemoveUploadingMessage; AddMessage "system" upload_error_message]) in
  match o with
  | UploadFailed => failed
  | UploadOk filename url =>
      let entry :=
        VObj [("filename", filename); ("url", url);
              ("type", match uploadType with Some t => VStr t | None => VUndefined end)] in
      let tracked :=
        match uploadType with
        | Some "accident_photos" =>
            match get (uploadedFiles st) "accident_photos" with
            | VArr l =>
                Some (set_prop (uploadedFiles st) "accident_photos" (VArr (l ++ [entry])))
            | _ => None (* [push] is not a function of it *)
            end
        | _ => Some (set_prop (uploadedFiles st) (property_key (currentPhase st)) entry)
        end in
      match tracked with
      | None => failed
      | Some uf =>
          let st1 := set_uploadedFiles uf st in
          let st2 :=
            push_history
              {| role := "user";
                 content := by_language st1 "تم رفع الصورة بنجاح"
                                            "Image uploaded successfully" |} st1 in
          let '(st3, out) := getAIResponse_start st2 in
          (st3, [RemoveUploadingMessage; AddMessage "system" "تم رفع الصورة بنجاح ✅"]
                  ++ out)
      end
  end.

(** *** The event loop

    Every stretch of code between two [await]s runs to its end before the
    next event is taken.  The POST and upload continuations receive what
    their closure captured. *)
Inductive event : Type :=
| StartReport
| GoToLanding
| ToggleLanguage
| EnableVoice
| SendMessage (message : string)
| LLMResult (o : llm_outcome) (ticketId : string)
| PostResult (ticketId : string) (payload : value) (speakAfter : option string)
    (o : post_outcome)
| ImageChosen (f : option file)
| ReaderLoaded (f : file) (imageData : string)
| UploadResult (uploadType : option string) (o : upload_outcome)
| ManualCreateTicket (ticketId : string).

Definition step (st : state) (e : event) : state * list effect :=
  match e with
  | StartReport => startReport st
  | GoToLanding => goToLanding st
  | ToggleLanguage => toggleLanguage st
  | EnableVoice => (set_voiceEnabled true st, [])
  | SendMessage m => sendMessage m st
  | LLMResult o ticketId => getAIResponse_resume o ticketId st
  | PostResult ticketId payload speakAfter o =>
      let '(st1, out) := createTicket_resume ticketId payload o st in
      (st1, out ++ match speakAfter with Some t => speak st1 t | None => [] end)
  | ImageChosen f => handleImageUpload f st
  | ReaderLoaded f d => reader_onload f d st
  | UploadResult t o => upload_resume t o st
  | ManualCreateTicket ticketId => manualCreateTicket ticketId st
  end.

(** Running a sequence of events: the final state and everything done. *)
Fixpoint run (st : state) (es : list event) : state * list effect :=
  match es with
  | [] => (st, [])
  | e :: es' =>
      let '(st1, out1) := step st e in
      let '(st2, out2) := run st1 es' in
      (st2, out1 ++ out2)
  end.

Definition is_post (e : effect) : bool :=
  match e with PostTicket _ => true | _ => false end.

(** The number of POST /tickets requests among the effects. *)
Definition posts (out : list effect) : nat := List.length (filter is_post out).

Definition is_landing (e : event) : bool :=
  match e with GoToLanding => true | _ => false end.

(** *** Facts about the handlers *)

(** The phase is one of the four upload phases. *)
Definition upload_phase (v : value) : Prop :=
  v = VStr "accident_photos" \/ v = VStr "id_card"
  \/ v = VStr "driving_license" \/ v = VStr "vehicle_registration".

Lemma strict_eq_str s v : strict_eq (VStr s) v = true <-> v = VStr s.
Proof.
  destruct v; simpl; split; intros H; try discriminate.
  - apply String.eqb_eq in H. now subst.
  - inversion H. apply String.eqb_refl.
Qed.

Lemma strict_eq_str_r s v : strict_eq v (VStr s) = true <-> v = VStr s.
Proof.
  destruct v; simpl; split; intros H; try discriminate.
  - apply String.eqb_eq in H. now subst.
  - inversion H. apply String.eqb_refl.
Qed.

Lemma includes_upload_phase v :
  includes validUploadPhases v = true <-> upload_phase v.
Proof.
  unfold includes, validUploadPhases, upload_phase. cbn [existsb].
  rewrite !orb_true_iff, !strict_eq_str. intuition discriminate.
Qed.

Lemma posts_app a b : posts (a ++ b) = posts a + posts b.
Proof. unfold posts. now rewrite filter_app, length_app. Qed.

Lemma posts_when_not_post b e : is_post e = false -> posts (when b [e]) = 0.
Proof. intros H. destruct b; unfold posts; simpl; [now rewrite H | reflexivity]. Qed.

Lemma posts_updateUI p st : posts (updateUIForPhase p st) = 0.
Proof.
  unfold updateUIForPhase.
  destruct (includes uploadPhases p); rewrite ?posts_app, !posts_when_not_post;
    reflexivity.
Qed.

Lemma posts_speak st t : posts (speak st t) = 0.
Proof. unfold speak. now apply posts_when_not_post. Qed.

Lemma getAIResponse_start_quiet st :
  fst (getAIResponse_start st) = st /\ posts (snd (getAIResponse_start st)) = 0.
Proof. unfold getAIResponse_start. destruct config_valid; split; reflexivity. Qed.

(** Once the flag is set, no handler but [goToLanding] clears it, and none
    sends a POST. *)
Lemma step_after_creation st e :
  ticketAlreadyCreated st = true ->
  is_landing e = false ->
  ticketAlreadyCreated (fst (step st e)) = true /\ posts (snd (step st e)) = 0.
Proof.
  intros Hflag Hland.
  destruct e; try discriminate; cbn [step].
  - (* startReport *)
    unfold startReport.
    destruct (getAIResponse_start_quiet
                (set_history [{| role := "system"; content := CHAT_SYSTEM |}] st))
      as [Hs Hp].
    destruct (getAIResponse_start _) as [st2 out]; simpl in *; subst. now split.
  - (* toggleLanguage *) now split.
  - (* EnableVoice *) now split.
  - (* sendMessage *)
    unfold sendMessage. destruct (message0 =? ""); [now split|].
    destruct (getAIResponse_start_quiet
                (push_history {| role := "user"; content := message0 |} st))
      as [Hs Hp].
    destruct (getAIResponse_start _) as [st2 out]; simpl in *; subst. now split.
  - (* the reply of the model *)
    unfold getAIResponse_resume.
    destruct o as [|fullMessage]; [now split|].
    destruct (parseLLMState fullMessage) as [s|]; cbn [fst snd].
    + destruct (truthy (get s "phase")).
      * cbn [ticketAlreadyCreated set_ticketData set_phase push_history set_history].
        rewrite Hflag, andb_false_r. cbn [fst snd].
        split; [assumption|].
        rewrite !posts_app, posts_updateUI, posts_speak. reflexivity.
      * cbn [fst snd]. split; [assumption|].
        rewrite posts_app, posts_speak. reflexivity.
    + split; [assumption|]. rewrite posts_app, posts_speak. reflexivity.
  - (* the result of a POST *)
    assert (H : ticketAlreadyCreated (fst (createTicket_resume ticketId payload o st)) = true
                /\ posts (snd (createTicket_resume ticketId payload o st)) = 0).
    { unfold createTicket_resume.
      destruct o as [|[|] [[]|]]; cbn; auto. }
    destruct (createTicket_resume ticketId payload o st) as [st1 out]; cbn [fst snd] in *.
    destruct H as [H1 H2]. split; [assumption|].
    rewrite posts_app, H2. destruct speakAfter; [apply posts_speak | reflexivity].
  - (* handleImageUpload *)
    unfold handleImageUpload. destruct f as [f|]; [|now split].
    destruct (negb (String.prefix "image/" (file_type f))); [now split|].
    destruct (negb (includes validUploadPhases (currentPhase st))); now split.
  - (* reader.onload *) now split.
  - (* the result of an upload *)
    unfold upload_resume.
    destruct o as [|filename url]; [now split|].
    match goal with |- context [match ?t with Some _ => _ | None => _ end] =>
      destruct t as [uf|] end; [|now split].
    match goal with |- context [getAIResponse_start ?x] =>
      destruct (getAIResponse_start_quiet x) as [Hs Hp];
      destruct (getAIResponse_start x) as [st3 out] end.
    simpl in *; subst. now split.
  - (* manualCreateTicket *)
    unfold manualCreateTicket, createTicket_start.
    destruct (truthy (currentTicket st)); cbn; rewrite Hflag; now split.
Qed.

Lemma run_cons st e es :
  run st (e :: es)
  = (fst (run (fst (step st e)) es), snd (step st e) ++ snd (run (fst (step st e)) es)).
Proof.
  cbn [run]. destruct (step st e) as [st1 out1]. cbn [fst snd].
  destruct (run st1 es) as [st2 out2]. reflexivity.
Qed.

Lemma run_after_creation st es :
  ticketAlreadyCreated st = true ->
  forallb (fun e => negb (is_landing e)) es = true ->
  ticketAlreadyCreated (fst (run st es)) = true /\ posts (snd (run st es)) = 0.
Proof.
  revert st; induction es as [|e es IH]; intros st Hflag Hes; [now split|].
  cbn [forallb] in Hes. apply andb_prop in Hes as [He Hes].
  apply negb_true_iff in He.
  destruct (step_after_creation st e Hflag He) as [H1 H2].
  destruct (IH _ H1 Hes) as [H3 H4].
  rewrite run_cons. cbn [fst snd]. rewrite posts_app, H2, H4. now split.
Qed.

(** The flag is set by one handler only: the continuation of a POST that was
    answered with an ok status and a readable body. *)
Lemma flag_set_only_by_success st e :
  ticketAlreadyCreated st = false ->
  ticketAlreadyCreated (fst (step st e)) = true ->
  exists ticketId payload speakAfter result,
    e = PostResult ticketId payload speakAfter (PostResponse true (Some result)).
Proof.
  intros Hflag H.
  destruct e; cbn [step] in H.
  - unfold startReport in H.
    destruct (getAIResponse_start_quiet
                (set_history [{| role := "system"; content := CHAT_SYSTEM |}] st))
      as [Hs _].
    destruct (getAIResponse_start _) as [st2 out]; simpl in *; subst.
    simpl in H. congruence.
  - simpl in H. discriminate.
  - simpl in H. congruence.
  - simpl in H. congruence.
  - unfold sendMessage in H. destruct (message0 =? ""); [simpl in H; congruence|].
    destruct (getAIResponse_start_quiet
                (push_history {| role := "user"; content := message0 |} st))
      as [Hs _].
    destruct (getAIResponse_start _) as [st2 out]; simpl in *; subst.
    simpl in H. congruence.
  - unfold getAIResponse_resume, createTicket_start in H.
    destruct o as [|fullMessage]; [simpl in H; congruence|].
    destruct (parseLLMState fullMessage) as [s|]; [|simpl in H; congruence].
    destruct (truthy (get s "phase")); [|simpl in H; congruence].
    cbn [ticketAlreadyCreated set_ticketData set_phase push_history set_history] in H.
    rewrite Hflag in H.
    destruct (strict_eq _ _ && _); simpl in H; congruence.
  - destruct o as [|ok body].
    + simpl in H. congruence.
    + destruct ok; [|simpl in H; congruence].
      destruct body as [result|]; [|simpl in H; congruence].
      now exists ticketId, payload, speakAfter, result.
  - unfold handleImageUpload in H. destruct f as [f|]; [|simpl in H; congruence].
    destruct (negb (String.prefix "image/" (file_type f))); [simpl in H; congruence|].
    destruct (negb (includes validUploadPhases (currentPhase st)));
      simpl in H; congruence.
  - simpl in H. congruence.
  - unfold upload_resume in H.
    destruct o as [|filename url]; [simpl in H; congruence|].
    match type of H with context [match ?t with Some _ => _ | None => _ end] =>
      destruct t as [uf|] end; [|simpl in H; congruence].
    match type of H with context [getAIResponse_start ?x] =>
      destruct (getAIResponse_start_quiet x) as [Hs _];
      destruct (getAIResponse_start x) as [st3 out] end.
    simpl in *; subst. simpl in H. congruence.
  - unfold manualCreateTicket, createTicket_start in H.
    destruct (truthy (currentTicket st)); cbn in H; rewrite Hflag in H;
      simpl in H; congruence.
Qed.
















(** A reply in phase done while no ticket was created yet sends the POST. *)
Lemma done_reply_posts st fullMessage s ticketId :
  parseLLMState fullMessage = Some s ->
  get s "phase" = VStr "done" ->
  ticketAlreadyCreated st = false ->
  posts (snd (getAIResponse_resume (LLMReply fullMessage) ticketId st)) = 1
  /\ ticketAlreadyCreated (fst (getAIResponse_resume (LLMReply fullMessage) ticketId st))
     = false.
Proof.
  intros Hparse Hphase Hflag. unfold getAIResponse_resume, createTicket_start.
  rewrite Hparse, Hphase.
  cbn [truthy String.eqb negb currentPhase ticketAlreadyCreated set_ticketData
       set_phase push_history set_history strict_eq].
  rewrite Hflag. cbn [String.eqb Ascii.eqb Bool.eqb andb negb fst snd].
  rewrite !posts_app, posts_updateUI. now split.
Qed.

(** Every failure of the POST lands in the [catch]: no variable changes. *)
Lemma post_failure_keeps_state st ticketId payload o :
  o = PostRejected \/ (exists body, o = PostResponse false body)
  \/ o = PostResponse true None ->
  fst (createTicket_resume ticketId payload o st) = st.
Proof. intros [-> | [[body ->] | ->]]; reflexivity. Qed.

Lemma post_success_sets_flag st ticketId payload result :
  result <> VNull -> result <> VUndefined ->
  ticketAlreadyCreated
    (fst (createTicket_resume ticketId payload (PostResponse true (Some result)) st))
  = true
  /\ currentPhase
       (fst (createTicket_resume ticketId payload (PostResponse true (Some result)) st))
     = VStr "completed".
Proof. intros H1 H2. destruct result; try contradiction; now split. Qed.

Lemma goToLanding_resets st :
  ticketAlreadyCreated (fst (goToLanding st)) = false
  /\ currentPhase (fst (goToLanding st)) = VStr "greeting"
  /\ uploadedFiles (fst (goToLanding st)) = emptyUploadedFiles.
Proof. now repeat split. Qed.

(** C10 (amended). Ticket creation in the chat client.  Once a POST /tickets
    has succeeded and set [ticketAlreadyCreated], the flag stays true through
    every handler other than [goToLanding] and no POST /tickets is sent any
    more, so a later reply whose parsed phase is done creates no second
    ticket.  The flag is set by the continuation of an ok POST and by nothing
    else; a POST that fails changes no variable, and while the flag is false
    a reply in phase done sends a POST (so a session can send more than one).
    [goToLanding] resets the flag, the phase to greeting and the
    uploaded-files record. *)
Theorem ticket_created_once :
  (forall st es,
      ticketAlreadyCreated st = true ->
      forallb (fun e => negb (is_landing e)) es = true ->
      ticketAlreadyCreated (fst (run st es)) = true /\ posts (snd (run st es)) = 0)
  /\ (forall st e,
      ticketAlreadyCreated st = false ->
      ticketAlreadyCreated (fst (step st e)) = true ->
      exists ticketId payload speakAfter result,
        e = PostResult ticketId payload speakAfter (PostResponse true (Some result)))
  /\ (forall st ticketId payload result,
      result <> VNull -> result <> VUndefined ->
      ticketAlreadyCreated
        (fst (createTicket_resume ticketId payload (PostResponse true (Some result)) st))
      = true
      /\ currentPhase
           (fst (createTicket_resume ticketId payload (PostResponse true (Some result)) st))
         = VStr "completed")
  /\ (forall st ticketId payload o,
      o = PostRejected \/ (exists body, o = PostResponse false body)
      \/ o = PostResponse true None ->
      fst (createTicket_resume ticketId payload o st) = st)
  /\ (forall st fullMessage s ticketId,
      parseLLMState fullMessage = Some s ->
      get s "phase" = VStr "done" ->
      ticketAlreadyCreated st = false ->
      posts (snd (getAIResponse_resume (LLMReply fullMessage) ticketId st)) = 1
      /\ ticketAlreadyCreated
           (fst (getAIResponse_resume (LLMReply fullMessage) ticketId st)) = false)
  /\ (forall st,
      ticketAlreadyCreated (fst (goToLanding st)) = false
      /\ currentPhase (fst (goToLanding st)) = VStr "greeting"
      /\ uploadedFiles (fst (goToLanding st)) = emptyUploadedFiles).
Proof.
  exact (conj run_after_creation (conj flag_set_only_by_success
          (conj post_success_sets_flag (conj post_failure_keeps_state
            (conj done_reply_posts goToLanding_resets))))).
Qed.


(** *** What moves the phase, and what is sent to the model *)

Lemma getAIResponse_start_state st : fst (getAIResponse_start st) = st.
Proof. unfold getAIResponse_start. now destruct config_valid. Qed.

Lemma createTicket_start_state ticketId st : fst (createTicket_start ticketId st) = st.
Proof. unfold createTicket_start. now destruct (ticketAlreadyCreated st). Qed.

(** The state after a reply of the model. *)
Lemma getAIResponse_resume_state o ticketId st :
  fst (getAIResponse_resume o ticketId st)
  = match o with
    | LLMFailed => st
    | LLMReply fullMessage =>
        let st1 := push_history {| role := "assistant"; content := fullMessage |} st in
        match parseLLMState fullMessage with
        | Some s =>
            if truthy (get s "phase") then
              set_ticketData (or_else (get s "ticket") (ticketData st))
                (set_phase (get s "phase") st1)
            else st1
        | None => st1
        end
    end.
Proof.
  unfold getAIResponse_resume. destruct o as [|fullMessage]; [reflexivity|].
  destruct (parseLLMState fullMessage) as [s|]; [|reflexivity].
  destruct (truthy (get s "phase")); [|reflexivity].
  destruct (strict_eq _ _ && _); [|reflexivity].
  unfold createTicket_start. cbn [ticketAlreadyCreated set_ticketData set_phase].
  destruct (ticketAlreadyCreated _); reflexivity.
Qed.

Lemma createTicket_resume_state ticketId payload o st :
  fst (createTicket_resume ticketId payload o st) = st
  \/ (currentPhase (fst (createTicket_resume ticketId payload o st)) = VStr "completed"
      /\ chatHistory (fst (createTicket_resume ticketId payload o st)) = chatHistory st).
Proof.
  unfold createTicket_resume.
  destruct o as [|[|] [result|]]; try (now left).
  destruct result; try (now left); right; split; reflexivity.
Qed.

Lemma upload_resume_state uploadType o st :
  currentPhase (fst (upload_resume uploadType o st)) = currentPhase st
  /\ exists more,
       chatHistory (fst (upload_resume uploadType o st)) = chatHistory st ++ more.
Proof.
  unfold upload_resume. destruct o as [|filename url].
  - split; [reflexivity|]. exists []. now rewrite app_nil_r.
  - match goal with |- context [match ?t with Some _ => _ | None => _ end] =>
      destruct t as [uf|] end.
    + match goal with |- context [getAIResponse_start ?x] =>
        pose proof (getAIResponse_start_state x) as Hs;
        destruct (getAIResponse_start x) as [st3 out] end.
      cbn [fst] in *. subst st3. split; [reflexivity|].
      eexists. reflexivity.
    + split; [reflexivity|]. exists []. now rewrite app_nil_r.
Qed.

(** What a handler can do to the phase: leave it, or set it to 'greeting'
    (going back to the landing page), to 'completed' (a ticket was
    created), or to the phase of the state block of a reply. *)
Lemma step_phase st e :
  currentPhase (fst (step st e)) = currentPhase st
  \/ currentPhase (fst (step st e)) = VStr "greeting"
  \/ currentPhase (fst (step st e)) = VStr "completed"
  \/ exists fullMessage ticketId s,
       e = LLMResult (LLMReply fullMessage) ticketId
       /\ parseLLMState fullMessage = Some s
       /\ truthy (get s "phase") = true
       /\ currentPhase (fst (step st e)) = get s "phase".
Proof.
  destruct e; cbn [step].
  - left. unfold startReport.
    match goal with |- context [getAIResponse_start ?x] =>
      pose proof (getAIResponse_start_state x) as Hs;
      destruct (getAIResponse_start x) as [st2 out] end.
    cbn [fst] in *. now subst st2.
  - right. left. reflexivity.
  - now left.
  - now left.
  - left. unfold sendMessage. destruct (message0 =? ""); [reflexivity|].
    match goal with |- context [getAIResponse_start ?x] =>
      pose proof (getAIResponse_start_state x) as Hs;
      destruct (getAIResponse_start x) as [st2 out] end.
    cbn [fst] in *. now subst st2.
  - rewrite getAIResponse_resume_state. destruct o as [|fullMessage]; [now left|].
    cbv zeta. destruct (parseLLMState fullMessage) as [s|] eqn:Ep; [|now left].
    destruct (truthy (get s "phase")) eqn:Et; [|now left].
    right. right. right. exists fullMessage, ticketId, s. auto.
  - destruct (createTicket_resume_state ticketId payload o st) as [H | [H _]];
      destruct (createTicket_resume ticketId payload o st) as [st1 out]; cbn [fst] in *.
    + left. now subst.
    + right. right. left. exact H.
  - left. unfold handleImageUpload. destruct f as [f|]; [|reflexivity].
    destruct (negb (String.prefix "image/" (file_type f))); [reflexivity|].
    destruct (negb (includes validUploadPhases (currentPhase st))); reflexivity.
  - now left.
  - left. apply upload_resume_state.
  - left. unfold manualCreateTicket. rewrite createTicket_start_state.
    destruct (truthy (currentTicket st)); reflexivity.
Qed.

(** X13.  Only the model opens the upload gate.  When the phase is not an
    upload phase before an event and is one after it, the event is a reply
    of the model whose state block parsed, and the phase is the phase of
    that block.  No action of the user (sending a message, picking an image,
    switching the language, going back) and no answer of a server opens
    it. *)
Theorem only_a_reply_opens_the_gate st e :
  includes validUploadPhases (currentPhase st) = false ->
  includes validUploadPhases (currentPhase (fst (step st e))) = true ->
  exists fullMessage ticketId s,
    e = LLMResult (LLMReply fullMessage) ticketId
    /\ parseLLMState fullMessage = Some s
    /\ currentPhase (fst (step st e)) = get s "phase"
    /\ upload_phase (get s "phase").
Proof.
  intros Hbefore Hafter.
  destruct (step_phase st e) as [H | [H | [H | (m & t & s & He & Hp & _ & Hs)]]].
  - rewrite H in Hafter. congruence.
  - rewrite H in Hafter. discriminate.
  - rewrite H in Hafter. discriminate.
  - exists m, t, s. rewrite Hs in Hafter. apply includes_upload_phase in Hafter. auto.
Qed.

Lemma not_fetch_when b x h :
  (forall h', x <> FetchChatCompletion h') -> ~ In (FetchChatCompletion h) (when b [x]).
Proof. intros Hx. destruct b; cbn; [|tauto]. intros [E|[]]. now apply (Hx h). Qed.

Lemma not_fetch_updateUI p st h : ~ In (FetchChatCompletion h) (updateUIForPhase p st).
Proof.
  unfold updateUIForPhase. destruct (includes uploadPhases p); intros H;
    repeat (apply in_app_or in H as [H|H]);
    apply not_fetch_when in H; auto; discriminate.
Qed.

Lemma not_fetch_speak st t h : ~ In (FetchChatCompletion h) (speak st t).
Proof. unfold speak. apply not_fetch_when. discriminate. Qed.

Lemma fetch_in_getAIResponse_start st h :
  In (FetchChatCompletion h) (snd (getAIResponse_start st)) ->
  config_valid = true /\ h = chatHistory st.
Proof.
  unfold getAIResponse_start. destruct config_valid; cbn.
  - intros [E|[E|[]]]; [discriminate|]. inversion E. auto.
  - intros [E|[]]. discriminate.
Qed.

(** A request to the model is made by [getAIResponse] only, past the check
    of the configuration, and carries the history as it then stands. *)
Lemma fetch_in_step st e h :
  In (FetchChatCompletion h) (snd (step st e)) ->
  config_valid = true /\ h = chatHistory (fst (step st e)).
Proof.
  destruct e; cbn [step].
  - unfold startReport.
    match goal with |- context [getAIResponse_start ?x] =>
      pose proof (getAIResponse_start_state x) as Hs;
      pose proof (fetch_in_getAIResponse_start x h) as Hf;
      destruct (getAIResponse_start x) as [st2 out] end.
    cbn [fst snd] in *. subst st2. intros [E|H]; [discriminate | auto].
  - cbn. intros [E|[E|[]]]; discriminate.
  - cbn. intros [E|[]]; discriminate.
  - intros [].
  - unfold sendMessage. destruct (message0 =? ""); [intros []|].
    match goal with |- context [getAIResponse_start ?x] =>
      pose proof (getAIResponse_start_state x) as Hs;
      pose proof (fetch_in_getAIResponse_start x h) as Hf;
      destruct (getAIResponse_start x) as [st2 out] end.
    cbn [fst snd app] in *. subst st2. intros [E|[E|H]]; [discriminate..| auto].
  - intros H. exfalso. unfold getAIResponse_resume, createTicket_start in H.
    destruct o as [|fullMessage]; [destruct H as [E|[E|[]]]; discriminate|].
    destruct (parseLLMState fullMessage) as [s|].
    + destruct (truthy (get s "phase")).
      * destruct (strict_eq _ _ && _).
        -- destruct (ticketAlreadyCreated _); cbn [snd] in H;
             repeat (apply in_app_or in H as [H|H]);
             try (now apply not_fetch_updateUI in H);
             cbn in H; intuition discriminate.
        -- cbn [snd] in H. repeat (apply in_app_or in H as [H|H]);
             try (now apply not_fetch_updateUI in H);
             try (now apply not_fetch_speak in H);
             cbn in H; intuition discriminate.
      * cbn [snd] in H. apply in_app_or in H as [H|H];
          [cbn in H; intuition discriminate | now apply not_fetch_speak in H].
    + cbn [snd] in H. apply in_app_or in H as [H|H];
        [cbn in H; intuition discriminate | now apply not_fetch_speak in H].
  - intros H. exfalso.
    assert (Hq : ~ In (FetchChatCompletion h)
                   (snd (createTicket_resume ticketId payload o st))).
    { unfold createTicket_resume. destruct o as [|[|] [[]|]]; cbn;
        intuition discriminate. }
    destruct (createTicket_resume ticketId payload o st) as [st1 out]; cbn [snd] in *.
    apply in_app_or in H as [H|H]; [contradiction|].
    destruct speakAfter; [now apply not_fetch_speak in H | destruct H].
  - intros H. exfalso. unfold handleImageUpload in H. destruct f as [f|]; [|destruct H].
    destruct (negb (String.prefix "image/" (file_type f)));
      [cbn in H; intuition discriminate|].
    destruct (negb (includes validUploadPhases (currentPhase st)));
      cbn in H; intuition discriminate.
  - cbn. intros [E|[E|[E|[]]]]; discriminate.
  - unfold upload_resume. destruct o as [|filename url];
      [cbn; intros [E|[E|[]]]; discriminate|].
    match goal with |- context [match ?t with Some _ => _ | None => _ end] =>
      destruct t as [uf|] end; [|cbn; intros [E|[E|[]]]; discriminate].
    match goal with |- context [getAIResponse_start ?x] =>
      pose proof (getAIResponse_start_state x) as Hs;
      pose proof (fetch_in_getAIResponse_start x h) as Hf;
      destruct (getAIResponse_start x) as [st3 out] end.
    cbn [fst snd app] in *. subst st3. intros [E|[E|H]]; [discriminate..| auto].
  - intros H. exfalso. unfold manualCreateTicket, createTicket_start in H.
    destruct (truthy (currentTicket st)); cbn in H;
      destruct (ticketAlreadyCreated st); cbn in H; intuition discriminate.
Qed.

(** The history after a handler: [startReport] starts it afresh with the
    system prompt, and every other handler but [goToLanding] adds to its
    end or leaves it. *)
Lemma step_history st e :
  is_landing e = false ->
  (e = StartReport
   /\ chatHistory (fst (step st e)) = [{| role := "system"; content := CHAT_SYSTEM |}])
  \/ (e <> StartReport
      /\ exists more, chatHistory (fst (step st e)) = chatHistory st ++ more).
Proof.
  intros Hland. destruct e; try discriminate; cbn [step].
  - left. split; [reflexivity|]. unfold startReport.
    match goal with |- context [getAIResponse_start ?x] =>
      pose proof (getAIResponse_start_state x) as Hs;
      destruct (getAIResponse_start x) as [st2 out] end.
    cbn [fst] in *. now subst st2.
  - right. split; [discriminate|]. exists []. now rewrite app_nil_r.
  - right. split; [discriminate|]. exists []. now rewrite app_nil_r.
  - right. split; [discriminate|]. unfold sendMessage.
    destruct (message0 =? ""); [exists []; now rewrite app_nil_r|].
    match goal with |- context [getAIResponse_start ?x] =>
      pose proof (getAIResponse_start_state x) as Hs;
      destruct (getAIResponse_start x) as [st2 out] end.
    cbn [fst] in *. subst st2. eexists. reflexivity.
  - right. split; [discriminate|]. rewrite getAIResponse_resume_state.
    destruct o as [|fullMessage]; [exists []; now rewrite app_nil_r|].
    cbv zeta. destruct (parseLLMState fullMessage) as [s|];
      [destruct (truthy (get s "phase"))|]; eexists; reflexivity.
  - right. split; [discriminate|].
    destruct (createTicket_resume_state ticketId payload o st) as [H | [_ H]];
      destruct (createTicket_resume ticketId payload o st) as [st1 out]; cbn [fst] in *;
      exists []; rewrite app_nil_r; [now subst | exact H].
  - right. split; [discriminate|]. exists []. rewrite app_nil_r.
    unfold handleImageUpload. destruct f as [f|]; [|reflexivity].
    destruct (negb (String.prefix "image/" (file_type f))); [reflexivity|].
    destruct (negb (includes validUploadPhases (currentPhase st))); reflexivity.
  - right. split; [discriminate|]. exists []. now rewrite app_nil_r.
  - right. split; [discriminate|]. apply upload_resume_state.
  - right. split; [discriminate|]. exists []. rewrite app_nil_r.
    unfold manualCreateTicket. rewrite createTicket_start_state.
    destruct (truthy (currentTicket st)); reflexivity.
Qed.

(** The history begins with the system prompt. *)
Definition prompted (h : list message) : Prop :=
  exists more, h = {| role := "system"; content := CHAT_SYSTEM |} :: more.

Definition is_start (e : event) : bool :=
  match e with StartReport => true | _ => false end.

Lemma run_app_out st e es :
  snd (run st (e :: es)) = snd (step st e) ++ snd (run (fst (step st e)) es)
  /\ fst (run st (e :: es)) = fst (run (fst (step st e)) es).
Proof.
  cbn [run]. destruct (step st e) as [st1 out1]. cbn [fst snd].
  destruct (run st1 es) as [st2 out2]. now split.
Qed.

(** X14.  What the model is sent.  [startReport] begins the history with
    the system prompt.  From then on, until the user goes back to the
    landing page, the history keeps that beginning, and every request sent
    to the model carries a history that begins with the system prompt.
    Between two starts nothing is taken out of the history or changed in
    it: it only grows at its end.  And with a configuration that
    [validateConfig] rejects, no request is sent to the model at all. *)
Theorem requests_carry_the_system_prompt :
  (forall st, prompted (chatHistory (fst (startReport st))))
  /\ (forall st es,
        prompted (chatHistory st) ->
        forallb (fun e => negb (is_landing e)) es = true ->
        prompted (chatHistory (fst (run st es)))
        /\ forall h, In (FetchChatCompletion h) (snd (run st es)) -> prompted h)
  /\ (forall st es,
        forallb (fun e => negb (is_landing e) && negb (is_start e)) es = true ->
        exists more, chatHistory (fst (run st es)) = chatHistory st ++ more)
  /\ (config_valid = false ->
      forall st es h, ~ In (FetchChatCompletion h) (snd (run st es))).
Proof.
  split; [|split; [|split]].
  - intros st. unfold startReport.
    match goal with |- context [getAIResponse_start ?x] =>
      pose proof (getAIResponse_start_state x) as Hs;
      destruct (getAIResponse_start x) as [st2 out] end.
    cbn [fst] in *. subst st2. now exists [].
  - intros st es; revert st. induction es as [|e es IH]; intros st Hst Hes.
    + cbn. split; [assumption | intros h []].
    + cbn [forallb] in Hes. apply andb_prop in Hes as [He Hes].
      apply negb_true_iff in He.
      destruct (run_app_out st e es) as [Hout Hfst]. rewrite Hout, Hfst.
      assert (Hst1 : prompted (chatHistory (fst (step st e)))).
      { destruct (step_history st e He) as [[_ H] | [_ [more H]]].
        - rewrite H. now exists [].
        - rewrite H. destruct Hst as [m ->]. now exists (m ++ more). }
      destruct (IH _ Hst1 Hes) as [Hend Hreq].
      split; [assumption|]. intros h Hh. apply in_app_or in Hh as [Hh|Hh].
      * apply fetch_in_step in Hh as [_ ->]. assumption.
      * now apply Hreq.
  - intros st es; revert st. induction es as [|e es IH]; intros st Hes.
    + exists []. cbn. now rewrite app_nil_r.
    + cbn [forallb] in Hes. apply andb_prop in Hes as [He Hes].
      apply andb_prop in He as [Hl Hs]. apply negb_true_iff in Hl, Hs.
      destruct (run_app_out st e es) as [_ Hfst]. rewrite Hfst.
      destruct (IH (fst (step st e)) Hes) as [more2 H2]. rewrite H2.
      destruct (step_history st e Hl) as [[-> _] | [_ [more1 H1]]]; [discriminate|].
      rewrite H1, <- app_assoc. now exists (more1 ++ more2).
  - intros Hc st es; revert st. induction es as [|e es IH]; intros st h Hh.
    + destruct Hh.
    + destruct (run_app_out st e es) as [Hout _]. rewrite Hout in Hh.
      apply in_app_or in Hh as [Hh|Hh].
      * apply fetch_in_step in Hh as [Hv _]. congruence.
      * exact (IH _ h Hh).
Qed.

(** *** What the assistant is shown to say *)

(** The texts put on the page in the name of the assistant. *)
Definition said (e : effect) : list string :=
  match e with
  | AddMessage sender text => if sender =? "assistant" then [text] else []
  | _ => []
  end.

Lemma said_in text out :
  In (AddMessage "assistant" text) out -> In text (flat_map said out).
Proof. intros H. apply in_flat_map. exists (AddMessage "assistant" text). split; [exact H | now left]. Qed.

Lemma said_when b x : said x = [] -> flat_map said (when b [x]) = [].
Proof. intros H. destruct b; cbn; [now rewrite H | reflexivity]. Qed.

Lemma said_updateUI p st : flat_map said (updateUIForPhase p st) = [].
Proof.
  unfold updateUIForPhase. destruct (includes uploadPhases p);
    rewrite ?flat_map_app, !said_when; reflexivity.
Qed.

Lemma said_speak st t : flat_map said (speak st t) = [].
Proof. unfold speak. now apply said_when. Qed.

Lemma said_getAIResponse_start st : flat_map said (snd (getAIResponse_start st)) = [].
Proof. unfold getAIResponse_start. now destruct config_valid. Qed.

Lemma said_createTicket_start ticketId st :
  flat_map said (snd (createTicket_start ticketId st)) = [].
Proof. unfold createTicket_start. now destruct (ticketAlreadyCreated st). Qed.

(** Only a reply of the model puts a text on the page in the name of the
    assistant, and the text is what [extractMessageText] makes of the
    reply. *)
Lemma said_step st e :
  flat_map said (snd (step st e))
  = match e with
    | LLMResult (LLMReply fullMessage) _ => [extractMessageText fullMessage]
    | _ => []
    end.
Proof.
  destruct e; cbn [step].
  - unfold startReport.
    match goal with |- context [getAIResponse_start ?x] =>
      pose proof (said_getAIResponse_start x) as Hs;
      destruct (getAIResponse_start x) as [st2 out] end.
    exact Hs.
  - reflexivity.
  - reflexivity.
  - reflexivity.
  - unfold sendMessage. destruct (message0 =? ""); [reflexivity|].
    match goal with |- context [getAIResponse_start ?x] =>
      pose proof (said_getAIResponse_start x) as Hs;
      destruct (getAIResponse_start x) as [st2 out] end.
    exact Hs.
  - unfold getAIResponse_resume. destruct o as [|fullMessage]; [reflexivity|].
    destruct (parseLLMState fullMessage) as [s|].
    + destruct (truthy (get s "phase")).
      * destruct (strict_eq _ _ && _).
        -- match goal with |- context [createTicket_start ?t ?x] =>
             pose proof (said_createTicket_start t x) as Hs;
             destruct (createTicket_start t x) as [st4 out] end.
           cbn [snd] in *. cbn [flat_map said app String.eqb Ascii.eqb Bool.eqb].
           now rewrite flat_map_app, said_updateUI, Hs.
        -- cbn [snd flat_map said app String.eqb Ascii.eqb Bool.eqb].
           now rewrite flat_map_app, said_updateUI, said_speak.
      * cbn [snd flat_map said app String.eqb Ascii.eqb Bool.eqb].
        now rewrite said_speak.
    + cbn [snd flat_map said app String.eqb Ascii.eqb Bool.eqb].
      now rewrite said_speak.
  - destruct (createTicket_resume ticketId payload o st) as [st1 out] eqn:E.
    cbn [snd]. rewrite flat_map_app.
    assert (Hout : flat_map said out = []).
    { unfold createTicket_resume in E.
      destruct o as [|[|] [result|]]; try (inversion E; reflexivity).
      destruct result; inversion E; reflexivity. }
    rewrite Hout. destruct speakAfter as [t|]; [apply said_speak | reflexivity].
  - unfold handleImageUpload. destruct f as [f|]; [|reflexivity].
    destruct (negb (String.prefix "image/" (file_type f))); [reflexivity|].
    destruct (negb (includes validUploadPhases (currentPhase st))); reflexivity.
  - reflexivity.
  - unfold upload_resume. destruct o as [|filename url]; [reflexivity|].
    match goal with |- context [match ?t with Some _ => _ | None => _ end] =>
      destruct t as [uf|] end; [|reflexivity].
    match goal with |- context [getAIResponse_start ?x] =>
      pose proof (said_getAIResponse_start x) as Hs;
      destruct (getAIResponse_start x) as [st3 out] end.
    exact Hs.
  - unfold manualCreateTicket. apply said_createTicket_start.
Qed.

End Handlers.

(** *** parseLLMState: what it returns *)

Lemma parseLLMState_null message :
  parseLLMState message = None
  <-> Regex.search state_block_re message = None
      \/ exists jsonStr,
           Regex.search state_block_re message = Some jsonStr
           /\ Json.parse jsonStr = None.
Proof.
  unfold parseLLMState.
  destruct (Regex.search state_block_re message) as [jsonStr|]; split.
  - intros H. right. now exists jsonStr.
  - intros [H | [j [Hj Hp]]]; [discriminate|]. now inversion Hj; subst.
  - now left.
  - reflexivity.
Qed.

Lemma parseLLMState_block (pre b1 b2 post : string) :
  Regex.free_of "{" pre = true ->
  Regex.free_of "}" post = true ->
  parseLLMState (pre ++ "{" ++ b1 ++ quoted "phase" ++ b2 ++ "}" ++ post)
  = Json.parse ("{" ++ b1 ++ quoted "phase" ++ b2 ++ "}").
Proof.
  intros Hpre Hpost. unfold parseLLMState, state_block_re.
  change (pre ++ "{" ++ b1 ++ quoted "phase" ++ b2 ++ "}" ++ post)%string
    with (pre ++ String "{" (b1 ++ quoted "phase" ++ b2 ++ String "}" post))%string.
  rewrite (Regex.search_block "{" "}" (quoted "phase") pre b1 b2 post Hpre Hpost).
  reflexivity.
Qed.

(** What [parseLLMState] does return (the behaviour behind C3).  The text it
    hands to [JSON.parse] is the match of the pattern, which runs from the
    first [{] of the response to its last [}] and has a quoted "phase" in
    between.  So when the state block is preceded by no other [{] and
    followed by no other [}], the function returns that block parsed ([null]
    if it is not valid JSON); and it returns [null] exactly when the pattern
    has no match or the matched text fails to parse. *)
Theorem parseLLMState_spec :
  (forall message,
      parseLLMState message = None
      <-> Regex.search state_block_re message = None
          \/ exists jsonStr,
               Regex.search state_block_re message = Some jsonStr
               /\ Json.parse jsonStr = None)
  /\ (forall message jsonStr,
      Regex.search state_block_re message = Some jsonStr ->
      exists pre b1 b2 post,
        Regex.free_of "{" pre = true /\ Regex.free_of "}" post = true
        /\ message = (pre ++ "{" ++ b1 ++ quoted "phase" ++ b2 ++ "}" ++ post)%string
        /\ jsonStr = ("{" ++ b1 ++ quoted "phase" ++ b2 ++ "}")%string)
  /\ (forall pre b1 b2 post,
      Regex.free_of "{" pre = true ->
      Regex.free_of "}" post = true ->
      parseLLMState (pre ++ "{" ++ b1 ++ quoted "phase" ++ b2 ++ "}" ++ post)
      = Json.parse ("{" ++ b1 ++ quoted "phase" ++ b2 ++ "}")).
Proof.
  split; [exact parseLLMState_null|]. split; [|exact parseLLMState_block].
  intros message jsonStr H.
  destruct (Regex.search_block_inv "{" "}" (quoted "phase") message jsonStr H)
    as (pre & b1 & b2 & post & Hpre & Hpost & -> & ->).
  now exists pre, b1, b2, post.
Qed.

(** The state block the system prompt asks for, at its shortest. *)
Definition done_block : string :=
  "{" ++ quoted "phase" ++ ":" ++ quoted "done" ++ "}".

Lemma parseLLMState_spec_witness :
  Regex.free_of "{" "Thanks. " = true
  /\ Regex.free_of "}" "" = true
  /\ parseLLMState ("Thanks. " ++ "{" ++ "" ++ quoted "phase"
                      ++ (":" ++ quoted "done") ++ "}" ++ "")
     = Some (VObj [("phase", VStr "done")]).
Proof.
  split; [reflexivity|]. split; [reflexivity|].
  exact (eq_trans
           (proj2 (proj2 parseLLMState_spec) "Thanks. " "" (":" ++ quoted "done")%string ""
              eq_refl eq_refl)
           eq_refl).
Defined.

(** C3 (the failing input).  A response that ends with the state block, a
    JSON object with a "phase" key, and has a brace pair of its own in the
    text before it: the pattern takes everything from the first [{],
    [JSON.parse] rejects that, and the function returns [null] where the
    claim (and the comment of the function, which says it extracts the JSON
    block at the end of the message) has the block parsed. *)
Lemma parseLLMState_misses_block :
  Json.parse done_block = Some (VObj [("phase", VStr "done")])
  /\ Regex.search state_block_re ("Noted {2 cars}. " ++ done_block)
     = Some ("{2 cars}. " ++ done_block)%string
  /\ parseLLMState ("Noted {2 cars}. " ++ done_block) = None.
Proof. repeat split; vm_compute; reflexivity. Qed.

(** The rejection is a syntax error, whatever the fuel. *)
Lemma misses_block_any_fuel fuel :
  Json.parse_with fuel ("{2 cars}. " ++ done_block) = None.
Proof.
  destruct fuel as [|[|fuel]]; [reflexivity | reflexivity |].
  reflexivity.
Qed.

(** *** A concrete page, for examples *)

Definition demo_run : state -> list event -> state * list effect :=
  run true false true true "You are Najm Assistant." (fun s => s) (fun _ => "").

Definition done_reply : string := "Your report is complete. " ++ done_block.

Definition first_payload : value :=
  ticketPayload_of "T-1" (fst (demo_run initial [LLMResult (LLMReply done_reply) "T-1"])).

(** The backend is unreachable for the first POST; the next reply in phase
    done arrives in the same session. *)
Definition retry_trace : list event :=
  [LLMResult (LLMReply done_reply) "T-1";
   PostResult "T-1" first_payload None PostRejected;
   LLMResult (LLMReply done_reply) "T-2"].

(** C10 (counterexample). One session, no [goToLanding], two POST /tickets
    requests: the first one failed, so the flag stayed false and the next
    reply in phase done sent another one. *)
Lemma two_posts_in_one_session :
  forallb (fun e => negb (is_landing e)) retry_trace = true
  /\ posts (snd (demo_run initial retry_trace)) = 2.
Proof. split; vm_compute; reflexivity. Qed.

(** The state after a first POST that succeeded. *)
Definition created_state : state :=
  fst (demo_run initial
         [LLMResult (LLMReply done_reply) "T-1";
          PostResult "T-1" first_payload None
            (PostResponse true (Some (VObj [("success", VBool true)])))]).

Lemma ticket_created_once_witness :
  ticketAlreadyCreated created_state = true
  /\ forallb (fun e => negb (is_landing e))
       [LLMResult (LLMReply done_reply) "T-2"; SendMessage "thanks";
        LLMResult (LLMReply done_reply) "T-3"] = true
  /\ ticketAlreadyCreated
       (fst (demo_run created_state
               [LLMResult (LLMReply done_reply) "T-2"; SendMessage "thanks";
                LLMResult (LLMReply done_reply) "T-3"])) = true
  /\ posts
       (snd (demo_run created_state
               [LLMResult (LLMReply done_reply) "T-2"; SendMessage "thanks";
                LLMResult (LLMReply done_reply) "T-3"])) = 0.
Proof.
  split; [reflexivity|]. split; [reflexivity|].
  exact (proj1 (ticket_created_once true false true true "You are Najm Assistant."
                  (fun s => s) (fun _ => ""))
           created_state
           [LLMResult (LLMReply done_reply) "T-2"; SendMessage "thanks";
            LLMResult (LLMReply done_reply) "T-3"]
           eq_refl eq_refl).
Defined.



(** A reply that asks for the photos of the accident. *)
Definition photos_reply : string :=
  "Please send photos of the accident. "
  ++ "{" ++ quoted "phase" ++ ":" ++ quoted "accident_photos" ++ "}".

Lemma only_a_reply_opens_the_gate_witness :
  includes validUploadPhases (currentPhase initial) = false
  /\ includes validUploadPhases
       (currentPhase (fst (demo_run initial [LLMResult (LLMReply photos_reply) "T-1"])))
     = true
  /\ exists s, parseLLMState photos_reply = Some s /\ upload_phase (get s "phase").
Proof.
  assert (Hafter : includes validUploadPhases
                     (currentPhase
                        (fst (step true false true true "You are Najm Assistant."
                                (fun s => s) (fun _ => "") initial
                                (LLMResult (LLMReply photos_reply) "T-1")))) = true).
  { vm_compute. reflexivity. }
  split; [reflexivity|]. split; [vm_compute; reflexivity|].
  destruct (only_a_reply_opens_the_gate true false true true "You are Najm Assistant."
              (fun s => s) (fun _ => "") initial
              (LLMResult (LLMReply photos_reply) "T-1") eq_refl Hafter)
    as (m & t & s & He & Hp & _ & Hu).
  inversion He; subst m t. exists s. now split.
Defined.

Lemma requests_carry_the_system_prompt_witness :
  prompted "You are Najm Assistant."
    (chatHistory (fst (startReport true "You are Najm Assistant." initial)))
  /\ forall h,
       In (FetchChatCompletion h)
          (snd (demo_run (fst (startReport true "You are Najm Assistant." initial))
                  [SendMessage "A car hit mine"; LLMResult (LLMReply photos_reply) "T-1"]))
       -> prompted "You are Najm Assistant." h.
Proof.
  pose proof (requests_carry_the_system_prompt true false true true
                "You are Najm Assistant." (fun s => s) (fun _ => "")) as (Hstart & Hrun & _).
  split; [apply Hstart|].
  exact (proj2 (Hrun (fst (startReport true "You are Najm Assistant." initial))
                  [SendMessage "A car hit mine"; LLMResult (LLMReply photos_reply) "T-1"]
                  (Hstart initial) eq_refl)).
Defined.

(** *** extractMessageText *)

(** The pattern of a fenced block marked as json, with the global flag. *)
Definition json_fence_re : Replace.regex :=
  [Replace.Lit "```json"; Replace.AnyLazy; Replace.Lit "```"].

(** The pattern of any fenced block. *)
Definition fence_re : Replace.regex :=
  [Replace.Lit "```"; Replace.AnyLazy; Replace.Lit "```"].

(** The pattern of a brace, a quoted "phase" after it and the next closing
    brace, all lazy. *)
Definition phase_object_re : Replace.regex :=
  [Replace.Lit "{"; Replace.AnyLazy; Replace.Lit (quoted "phase");
   Replace.AnyLazy; Replace.Lit "}"].

Definition extractMessageText (fullMessage : string) : string :=
  let cleanMessage := Replace.trim (Replace.remove_all json_fence_re fullMessage) in
  let cleanMessage := Replace.trim (Replace.remove_all fence_re cleanMessage) in
  let cleanMessage := Replace.trim (Replace.remove_all phase_object_re cleanMessage) in
  cleanMessage.

Lemma extractMessageText_clean fullMessage :
  ~ Replace.occurs phase_object_re (extractMessageText fullMessage).
Proof.
  unfold extractMessageText. cbv zeta. apply Replace.trim_clean.
  exact (Replace.remove_from_clean "{" _ _ 0).
Qed.

Lemma phase_object_occurs p x y q :
  Replace.occurs phase_object_re
    (p ++ "{" ++ x ++ quoted "phase" ++ y ++ "}" ++ q).
Proof.
  exists p, ("{" ++ x ++ quoted "phase" ++ y ++ "}" ++ q)%string.
  split; [reflexivity|].
  exists (x ++ quoted "phase" ++ y ++ "}" ++ q)%string. split; [reflexivity|].
  exists x, (quoted "phase" ++ y ++ "}" ++ q)%string. split; [reflexivity|].
  exists (y ++ "}" ++ q)%string. split; [reflexivity|].
  exists y, ("}" ++ q)%string. split; [reflexivity|].
  exists q. split; [reflexivity | exact I].
Qed.

(** X15.  No state object is shown.  Whatever the model answered, a text
    that the page shows in the name of the assistant holds no opening brace
    that is followed, anywhere later in the text, by a quoted "phase" and
    then by a closing brace. *)
Theorem shown_text_has_no_state_object
    (config_valid tts_defined attachBtn_present messageInput_present : bool)
    (CHAT_SYSTEM : string) (ToString : value -> string)
    (st : state) (e : event) (text p x y q : string) :
  In (AddMessage "assistant" text)
     (snd (step config_valid tts_defined attachBtn_present messageInput_present
             CHAT_SYSTEM extractMessageText ToString st e)) ->
  text <> (p ++ "{" ++ x ++ quoted "phase" ++ y ++ "}" ++ q)%string.
Proof.
  intros Hin E. apply said_in in Hin. rewrite said_step in Hin.
  destruct e as [| | | | |[|fullMessage] ticketId| | | | |]; try contradiction.
  destruct Hin as [<-|[]].
  apply (extractMessageText_clean fullMessage). rewrite E.
  apply phase_object_occurs.
Qed.

(** X16.  A fenced state block is cut out.  When the reply is a text with
    one block fenced as json in it, and neither the text around the block
    nor the inside of the block holds a backtick, and the text around it
    holds no opening brace, then what is shown is the text around the
    block, joined and trimmed. *)
Theorem fenced_block_is_cut_out (prose body post : string) :
  Regex.free_of "`" prose = true ->
  Regex.free_of "{" prose = true ->
  Regex.free_of "`" body = true ->
  Regex.free_of "`" post = true ->
  Regex.free_of "{" post = true ->
  extractMessageText (prose ++ "```json" ++ body ++ "```" ++ post)
  = Replace.trim (prose ++ post).
Proof.
  intros Hp1 Hp2 Hb Hq1 Hq2. unfold extractMessageText. cbv zeta.
  pose proof (Replace.remove_fence "`" "``json" "`" "``" prose body post Hp1 Hb Hq1)
    as H1.
  cbv zeta in H1. unfold json_fence_re.
  change ("```json" ++ body ++ "```" ++ post)%string
    with (String "`" "``json" ++ body ++ String "`" "``" ++ post)%string.
  rewrite H1.
  assert (Ht1 : Regex.free_of "`" (Replace.trim (prose ++ post)) = true).
  { apply Replace.free_of_trim. now rewrite Replace.free_of_app, Hp1, Hq1. }
  assert (Ht2 : Regex.free_of "{" (Replace.trim (prose ++ post)) = true).
  { apply Replace.free_of_trim. now rewrite Replace.free_of_app, Hp2, Hq2. }
  assert (H2 : Replace.remove_all fence_re (Replace.trim (prose ++ post))
               = Replace.trim (prose ++ post)).
  { apply Replace.remove_from_nothing. now apply Replace.free_not_occurs. }
  assert (H3 : Replace.remove_all phase_object_re (Replace.trim (prose ++ post))
               = Replace.trim (prose ++ post)).
  { apply Replace.remove_from_nothing. now apply Replace.free_not_occurs. }
  now rewrite H2, Replace.trim_idem, H3, Replace.trim_idem.
Qed.

(** A reply with its state in a fenced block. *)
Definition fenced_reply_text : string := "Please send photos of the accident. ".

Definition fenced_reply_state : string :=
  "{" ++ quoted "phase" ++ ":" ++ quoted "accident_photos" ++ "}".

Lemma shown_text_has_no_state_object_witness :
  In (AddMessage "assistant" "Please send photos of the accident.")
     (snd (step true false true true "You are Najm Assistant." extractMessageText
             (fun _ => "") initial (LLMResult (LLMReply photos_reply) "T-1")))
  /\ "Please send photos of the accident."
     <> ("Please send photos " ++ "{" ++ "" ++ quoted "phase" ++ "" ++ "}" ++ "")%string.
Proof.
  assert (Hin : In (AddMessage "assistant" "Please send photos of the accident.")
                  (snd (step true false true true "You are Najm Assistant."
                          extractMessageText (fun _ => "") initial
                          (LLMResult (LLMReply photos_reply) "T-1")))).
  { vm_compute. right. left. reflexivity. }
  split; [exact Hin|].
  exact (shown_text_has_no_state_object true false true true "You are Najm Assistant."
           (fun _ => "") initial (LLMResult (LLMReply photos_reply) "T-1")
           "Please send photos of the accident." "Please send photos " "" "" "" Hin).
Defined.

Lemma fenced_block_is_cut_out_witness :
  extractMessageText
    (fenced_reply_text ++ "```json" ++ fenced_reply_state ++ "```" ++ "")
  = "Please send photos of the accident.".
Proof.
  rewrite (fenced_block_is_cut_out fenced_reply_text fenced_reply_state ""
             eq_refl eq_refl eq_refl eq_refl eq_refl).
  vm_compute. reflexivity.
Defined.

End Chat.

(* ===================================================================== *)
(** ** The conversation server (JSON file store, /upload, /stt) *)
(* ===================================================================== *)

Module ConversationServer.
Import Js.

(** An HTTP answer: the status and the JSON body given to [res.json]. *)
Record response : Type := { status : nat; body : value }.

Definition json (b : list (string * value)) : response :=
  {| status := 200; body := VObj b |}.

Definition status_json (code : nat) (b : list (string * value)) : response :=
  {| status := code; body := VObj b |}.

Definition failure (code : nat) (message : string) : response :=
  status_json code [("success", VBool false); ("message", VStr message)].

(** What a request meets outside the program: the successive readings of the
    clock, and whether the data file can be read and written. *)
Record io : Type := { clock : nat -> string; read_ok : bool; write_ok : bool }.

(** *** The tickets file

    The state is the [tickets] array held by the data file, [[]] at first.
    [readTicketsData] swallows a failed read and answers with an empty
    store; [writeTicketsData] swallows a failed write, and its callers do not
    look at what it returns. *)
Definition store := list value.

Definition readTicketsData (e : io) (file : store) : store :=
  if read_ok e then file else [].

Definition writeTicketsData (e : io) (data file : store) : store :=
  if write_ok e then data else file.

(** [t => t.id === id] *)
Definition has_id (id : value) (t : value) : bool := strict_eq (get t "id") id.

Fixpoint find_index (p : value -> bool) (l : store) : option nat :=
  match l with
  | [] => None
  | t :: rest => if p t then Some 0 else option_map S (find_index p rest)
  end.

(** Mutating the object a variable points to changes the array entry it
    aliases. *)
Fixpoint modify_nth (n : nat) (f : value -> value) (l : store) : store :=
  match l, n with
  | [], _ => []
  | t :: rest, O => f t :: rest
  | t :: rest, S n' => t :: modify_nth n' f rest
  end.

Definition new_ticket (id : value) (createdAt : string) : value :=
  VObj [("id", id); ("createdAt", VStr createdAt); ("uploads", VArr [])].

(** [let ticket = tickets.find(...); if (!ticket) { ...; tickets.push(ticket) }]:
    the array afterwards and the position [ticket] points to. *)
Definition find_or_create (id : value) (createdAt : string) (data : store)
  : store * nat :=
  match find_index (has_id id) data with
  | Some i => (data, i)
  | None => (data ++ [new_ticket id createdAt], List.length data)
  end.

(** *** POST /tickets, GET /tickets, GET /tickets/:id *)

(** The fields read from [req.body]; [VUndefined] when absent. *)
Record ticket_body : Type := {
  ticket_id : value;
  transcript : value;
  extracted_data : value;
  description : value
}.

Definition assign_if_truthy (k : string) (v : value) (t : value) : value :=
  if truthy v then set_prop t k v else t.

Definition save_fields (b : ticket_body) (updatedAt : string) (t : value) : value :=
  set_prop
    (assign_if_truthy "description" (description b)
       (assign_if_truthy "extracted_data" (extracted_data b)
          (assign_if_truthy "transcript" (transcript b) t)))
    "updatedAt" (VStr updatedAt).

Definition post_tickets (e : io) (b : ticket_body) (file : store) : store * response :=
  if negb (truthy (ticket_id b)) then (file, failure 400 "Ticket ID is required")
  else
    let data := readTicketsData e file in
    let '(data1, i) := find_or_create (ticket_id b) (clock e 0) data in
    let data2 := modify_nth i (save_fields b (clock e 1)) data1 in
    (writeTicketsData e data2 file,
     json [("success", VBool true); ("message", VStr "Ticket saved successfully");
           ("ticket", nth i data2 VUndefined)]).

Definition get_tickets (e : io) (file : store) : response :=
  json [("success", VBool true); ("tickets", VArr (readTicketsData e file))].

(** [id] is [req.params.id], a string. *)
Definition get_ticket (e : io) (id : string) (file : store) : response :=
  match find (has_id (VStr id)) (readTicketsData e file) with
  | Some t => json [("success", VBool true); ("ticket", t)]
  | None => failure 404 "Ticket not found"
  end.

(** *** POST /upload

    multer comes first.  A part of the multipart body is described by what
    multer sees of it; [stored_name] is the name its storage draws for the
    file (a uuid and the time) and [type_seen] the [type] field as it stood
    in [req.body] when the part arrived. *)
Record part : Type := {
  fieldname : string;
  originalname : string;
  mimetype : string;
  size : Z;
  stored_name : string;
  type_seen : option string
}.

Definition allowedTypes : list string :=
  ["image/jpeg"; "image/jpg"; "image/png"; "image/webp"; "image/heic";
   "application/pdf"].

Definition fileFilter (f : part) : bool :=
  existsb (String.eqb (mimetype f)) allowedTypes.

(** [limits: { fileSize: 10 * 1024 * 1024 }] *)
Definition fileSize_limit : Z := 10 * 1024 * 1024.

(** The [subfolders] / [typeFolderMap] table with its default.  ([type] is a
    text field of the form; keys that an object literal inherits are not
    modelled.) *)
Definition folder_of (type : string) : string :=
  if type =? "accident_photos" then "accident_photos"
  else if (type =? "id_card") || (type =? "id_cards") then "id_cards"
  else if (type =? "driving_license") || (type =? "driving_licenses")
       then "driving_licenses"
  else if (type =? "vehicle_registration") || (type =? "vehicle_registrations")
       then "vehicle_registrations"
  else "accident_photos".

(** [req.body.type || 'accident_photos'] *)
Definition type_or_default (t : option string) : string :=
  match t with
  | Some s => if s =? "" then "accident_photos" else s
  | None => "accident_photos"
  end.

(** A file on disk: the folder under the upload directory and its name. *)
Definition path : Type := (string * string)%type.

Definition path_eqb (a b : path) : bool :=
  (fst a =? fst b) && (snd a =? snd b).

Definition destination (f : part) : path :=
  (folder_of (type_or_default (type_seen f)), stored_name f).

Inductive multer_result : Type :=
| Accepted (files : list part)
| MulterError (code message : string)
| OtherError (message : string).

(** [upload.array('files', 10)]: the parts are taken in the order of the
    body; each goes through the field check, the file filter and the size
    limit, and the first failure aborts the request. *)
Fixpoint multer_array (field : string) (left : nat) (parts : list part)
    (acc : list part) : multer_result :=
  match parts with
  | [] => Accepted acc
  | f :: rest =>
      if originalname f =? "" then multer_array field left rest acc
      else if negb (fieldname f =? field) || Nat.eqb left 0 then
        MulterError "LIMIT_UNEXPECTED_FILE" "Unexpected field"
      else if negb (fileFilter f) then
        OtherError "Invalid file type. Only images and PDF files are allowed."
      else if (fileSize_limit <? size f)%Z then
        MulterError "LIMIT_FILE_SIZE" "File too large"
      else multer_array field (left - 1) rest (acc ++ [f])
  end.

(** The error-handling middleware at the end of the file. *)
Definition error_handler (r : multer_result) : response :=
  match r with
  | MulterError code message =>
      if code =? "LIMIT_FILE_SIZE"
      then failure 400 "File too large. Maximum size is 10MB"
      else failure 400 message
  | OtherError message =>
      failure 500 (if message =? "" then "Internal server error" else message)
  | Accepted _ => failure 500 "Internal server error"
  end.

Record upload_request : Type := {
  parts : list part;
  body_type : option string;
  body_ticket_id : option string
}.

(** The server as a whole: the data file and the files under the upload
    directory. *)
Record server : Type := { tickets_file : store; disk : list path }.

Definition UPLOAD_DIR : string := "./uploads".

Definition file_entry (type folder : string) (uploadedAt : string) (f : part) : value :=
  VObj [("filename", VStr (stored_name f));
        ("originalName", VStr (originalname f));
        ("path", VStr (UPLOAD_DIR ++ "/" ++ folder ++ "/" ++ stored_name f));
        ("url", VStr ("/uploads/" ++ folder ++ "/" ++ stored_name f));
        ("type", VStr type);
        ("size", VNum (size f) 0);
        ("mimetype", VStr (mimetype f));
        ("uploadedAt", VStr uploadedAt)].

Fixpoint file_entries (type folder : string) (clock : nat -> string) (n : nat)
    (files : list part) : list value :=
  match files with
  | [] => []
  | f :: rest => file_entry type folder (clock n) f
                 :: file_entries type folder clock (S n) rest
  end.

(** [fs.renameSync(file.path, correctPath)] for the files multer put
    elsewhere; a failed move is caught and logged. *)
Definition move_file (rename_ok : bool) (folder : string) (d : list path) (f : part)
  : list path :=
  let correct : path := (folder, stored_name f) in
  if path_eqb (destination f) correct then d
  else if rename_ok then
    correct :: filter (fun q => negb (path_eqb q (destination f))) d
  else d.

(** [ticket.uploads = ticket.uploads || []; ticket.uploads.push(...files)];
    [None] when [push] is not there to call. *)
Definition push_uploads (files : list value) (t : value) : option value :=
  match or_else (get t "uploads") (VArr []) with
  | VArr l => Some (set_prop t "uploads" (VArr (l ++ files)))
  | _ => None
  end.

Definition upload_handler (e : io) (rename_ok : bool) (r : upload_request)
    (files : list part) (s : server) : server * response :=
  match files with
  | [] => (s, failure 400 "No files uploaded")
  | _ =>
      let type := type_or_default (body_type r) in
      let folder := folder_of type in
      let disk1 := fold_left (move_file rename_ok folder) files (disk s) in
      let uploadedFiles := file_entries type folder (clock e) 0 files in
      let n := List.length files in
      let ok :=
        json [("success", VBool true);
              ("message",
               VStr (NilEmpty.string_of_uint (Nat.to_uint n)
                       ++ " file(s) uploaded successfully"));
              ("files", VArr uploadedFiles)] in
      match body_ticket_id r with
      | Some ticketId =>
          if ticketId =? "" then ({| tickets_file := tickets_file s; disk := disk1 |}, ok)
          else
            let data := readTicketsData e (tickets_file s) in
            let '(data1, i) := find_or_create (VStr ticketId) (clock e n) data in
            match push_uploads uploadedFiles (nth i data1 VUndefined) with
            | Some t =>
                let t' := set_prop t "updatedAt" (VStr (clock e (S n))) in
                let data2 := modify_nth i (fun _ => t') data1 in
                ({| tickets_file := writeTicketsData e data2 (tickets_file s);
                    disk := disk1 |}, ok)
            | None =>
                ({| tickets_file := tickets_file s; disk := disk1 |},
                 status_json 500
                   [("success", VBool false); ("message", VStr "Error uploading files");
                    ("error", VStr "ticket.uploads.push is not a function")])
            end
      | None => ({| tickets_file := tickets_file s; disk := disk1 |}, ok)
      end
  end.

(** POST /upload: multer, then the handler or the error middleware.  When
    multer aborts it removes what it had written, so the disk is as
    before. *)
Definition post_upload (e : io) (rename_ok : bool) (r : upload_request)
    (s : server) : server * response :=
  match multer_array "files" 10 (parts r) [] with
  | Accepted files =>
      upload_handler e rename_ok r files
        {| tickets_file := tickets_file s;
           disk := map destination files ++ disk s |}
  | err => (s, error_handler err)
  end.

(** *** POST /stt *)

Definition allowedAudioTypes : list string :=
  ["audio/webm"; "audio/wav"; "audio/mp3"; "audio/mpeg"; "audio/ogg"; "audio/x-m4a"].

Definition audioFileFilter (f : part) : bool :=
  existsb (String.eqb (mimetype f)) allowedAudioTypes
  || String.prefix "audio/" (mimetype f).

(** How the call to the transcription service ended: an exception with its
    message, or a response whose [data] was read. *)
Inductive groq_outcome : Type :=
| GroqError (message : string)
| GroqData (data : value).

Record stt_env : Type := {
  GROQ_API_KEY : option string;
  groq : groq_outcome;
  unlink_ok : bool
}.

Record stt_request : Type := {
  audio : option part;
  language : option string
}.

Definition temp_audio : string := "temp_audio".

(** [fs.unlinkSync(req.file.path)] inside its own [try]. *)
Definition unlink (ok : bool) (f : part) (d : list path) : list path :=
  if ok then filter (fun q => negb (path_eqb q (temp_audio, stored_name f))) d else d.

Definition key_configured (k : option string) : bool :=
  match k with Some s => negb (s =? "") | None => false end.

(** The handler of POST /stt; [file] is [req.file], already on disk when
    present. *)
Definition stt_handler (e : stt_env) (file : option part) (lang : option string)
    (d : list path) : list path * response :=
  match file with
  | None => (d, failure 400 "Audio file is required")
  | Some f =>
      let language :=
        match lang with
        | Some l => if l =? "" then "ar" else l
        | None => "ar"
        end in
      if negb (key_configured (GROQ_API_KEY e)) then
        (d, failure 500 "Groq API key not configured")
      else
        let failed (message : string) :=
          (unlink (unlink_ok e) f d,
           status_json 500
             [("success", VBool false); ("message", VStr "Error transcribing audio");
              ("error", VStr message)]) in
        match groq e with
        | GroqError message => failed message
        | GroqData VNull | GroqData VUndefined =>
            failed "Cannot read properties of undefined (reading 'text')"
        | GroqData data =>
            (unlink (unlink_ok e) f d,
             json [("success", VBool true); ("transcription", get data "text");
                   ("language", VStr language)])
        end
  end.

(** POST /stt: [audioUpload.single('audio')], then the handler or the error
    middleware. *)
Definition post_stt (e : stt_env) (r : stt_request) (d : list path)
  : list path * response :=
  match audio r with
  | None => stt_handler e None (language r) d
  | Some f =>
      if originalname f =? "" then stt_handler e None (language r) d
      else if negb (fieldname f =? "audio") then
        (d, error_handler (MulterError "LIMIT_UNEXPECTED_FILE" "Unexpected field"))
      else if negb (audioFileFilter f) then
        (d, error_handler
              (OtherError "Invalid audio file type. Only audio files are allowed."))
      else if (fileSize_limit <? size f)%Z then
        (d, error_handler (MulterError "LIMIT_FILE_SIZE" "File too large"))
      else stt_handler e (Some f) (language r) ((temp_audio, stored_name f) :: d)
  end.

(** *** Facts about the tickets file *)

Lemma find_index_find p l : find_index p l = None <-> find p l = None.
Proof.
  induction l as [|t rest IH]; simpl; [tauto|].
  destruct (p t); [split; discriminate|].
  destruct (find_index p rest) as [n|]; simpl.
  - split; [discriminate|]. intros H. apply IH in H. discriminate.
  - split; [|reflexivity]. intros _. now apply IH.
Qed.

Lemma find_index_nth p l i :
  find_index p l = Some i ->
  exists t, nth_error l i = Some t /\ p t = true /\ find p l = Some t.
Proof.
  revert i; induction l as [|t rest IH]; intros i H; [discriminate|].
  simpl in *. destruct (p t) eqn:E.
  - inversion H; subst. exists t. auto.
  - destruct (find_index p rest) as [j|]; [|discriminate].
    inversion H; subst. destruct (IH j eq_refl) as (t' & Hn & Hp & Hf).
    exists t'. auto.
Qed.

Lemma modify_nth_length n f l : List.length (modify_nth n f l) = List.length l.
Proof.
  revert n; induction l as [|t rest IH]; intros [|n]; simpl; auto.
Qed.

Lemma modify_nth_same n f l t :
  nth_error l n = Some t -> nth_error (modify_nth n f l) n = Some (f t).
Proof.
  revert n; induction l as [|u rest IH]; intros [|n] H; simpl in *;
    try discriminate; [now inversion H | now apply IH].
Qed.

Lemma modify_nth_other n f l j :
  j <> n -> nth_error (modify_nth n f l) j = nth_error l j.
Proof.
  revert n j; induction l as [|u rest IH]; intros [|n] [|j] H; simpl;
    try reflexivity; [contradiction | apply IH; congruence].
Qed.

Lemma modify_nth_last f l t :
  modify_nth (List.length l) f (l ++ [t]) = l ++ [f t].
Proof. induction l as [|u rest IH]; simpl; [reflexivity | now rewrite IH]. Qed.

Lemma nth_last (l : store) t d : nth (List.length l) (l ++ [t]) d = t.
Proof. induction l as [|u rest IH]; simpl; auto. Qed.

Lemma find_app_last p (l : store) t :
  find p l = None -> p t = true -> find p (l ++ [t]) = Some t.
Proof.
  intros Hl Ht. induction l as [|u rest IH]; simpl in *; [now rewrite Ht|].
  destruct (p u); [discriminate | now apply IH].
Qed.

Lemma get_assign_same k v fields :
  get (assign_if_truthy k v (VObj fields)) k
  = if truthy v then v else get (VObj fields) k.
Proof.
  unfold assign_if_truthy. destruct (truthy v); [|reflexivity].
  apply get_set_prop_same.
Qed.

Lemma get_assign_other k k' v t :
  k' <> k -> get (assign_if_truthy k' v t) k = get t k.
Proof.
  intros H. unfold assign_if_truthy. destruct (truthy v); [|reflexivity].
  now apply get_set_prop_other.
Qed.

Lemma assign_keeps_object k v fields :
  exists fields', assign_if_truthy k v (VObj fields) = VObj fields'.
Proof. unfold assign_if_truthy. destruct (truthy v); simpl; eauto. Qed.

(** What [save_fields] leaves in an object: a posted field that is truthy
    replaces the old one, any other posted field changes nothing, and no
    other key but [updatedAt] is touched. *)
Lemma save_fields_spec b u fields :
  let t' := save_fields b u (VObj fields) in
  get t' "transcript"
  = (if truthy (transcript b) then transcript b else get (VObj fields) "transcript")
  /\ get t' "extracted_data"
     = (if truthy (extracted_data b) then extracted_data b
        else get (VObj fields) "extracted_data")
  /\ get t' "description"
     = (if truthy (description b) then description b
        else get (VObj fields) "description")
  /\ get t' "updatedAt" = VStr u
  /\ (forall k, k <> "transcript" -> k <> "extracted_data" -> k <> "description" ->
                k <> "updatedAt" -> get t' k = get (VObj fields) k).
Proof.
  cbv zeta. unfold save_fields.
  destruct (assign_keeps_object "transcript" (transcript b) fields) as [f1 E1].
  pose proof (get_assign_same "transcript" (transcript b) fields) as G1.
  rewrite E1 in *.
  destruct (assign_keeps_object "extracted_data" (extracted_data b) f1) as [f2 E2].
  pose proof (get_assign_same "extracted_data" (extracted_data b) f1) as G2.
  pose proof (fun k => get_assign_other k "extracted_data" (extracted_data b) (VObj f1))
    as O2.
  rewrite E2 in *.
  destruct (assign_keeps_object "description" (description b) f2) as [f3 E3].
  pose proof (get_assign_same "description" (description b) f2) as G3.
  pose proof (fun k => get_assign_other k "description" (description b) (VObj f2)) as O3.
  rewrite E3 in *.
  pose proof (fun k => get_assign_other k "transcript" (transcript b) (VObj fields)) as O1.
  rewrite E1 in O1.
  repeat split.
  - rewrite get_set_prop_other, O3, O2, G1 by discriminate. reflexivity.
  - rewrite get_set_prop_other, O3, G2 by discriminate.
    rewrite O1 by discriminate. reflexivity.
  - rewrite get_set_prop_other, G3 by discriminate.
    rewrite O2, O1 by discriminate. reflexivity.
  - apply get_set_prop_same.
  - intros k H1 H2 H3 H4.
    rewrite get_set_prop_other, O3, O2, O1 by congruence. reflexivity.
Qed.

Lemma has_id_object id t :
  has_id id t = true -> truthy id = true -> exists fields, t = VObj fields.
Proof.
  unfold has_id. intros H Hid. destruct t; simpl in H; eauto;
    destruct id; simpl in *; discriminate.
Qed.

(** C9, the part on the JSON-file server.  POST /tickets with the id of a
    stored ticket adds no entry: the file keeps its length and every other
    ticket, and the ticket found is updated where it stands.  Its id,
    createdAt and uploads are as before; transcript, extracted_data and
    description each take the posted value when that value is truthy and
    keep the old one otherwise (so nothing is overwritten by a field the
    request leaves out); the answer is 200 with the updated ticket. *)
Lemma post_tickets_upsert e b file i t :
  truthy (ticket_id b) = true ->
  read_ok e = true -> write_ok e = true ->
  find_index (has_id (ticket_id b)) file = Some i ->
  nth_error file i = Some t ->
  exists t',
    nth_error (fst (post_tickets e b file)) i = Some t'
    /\ List.length (fst (post_tickets e b file)) = List.length file
    /\ (forall j, j <> i ->
          nth_error (fst (post_tickets e b file)) j = nth_error file j)
    /\ get t' "id" = get t "id"
    /\ get t' "createdAt" = get t "createdAt"
    /\ get t' "uploads" = get t "uploads"
    /\ get t' "transcript"
       = (if truthy (transcript b) then transcript b else get t "transcript")
    /\ get t' "extracted_data"
       = (if truthy (extracted_data b) then extracted_data b
          else get t "extracted_data")
    /\ get t' "description"
       = (if truthy (description b) then description b else get t "description")
    /\ snd (post_tickets e b file)
       = json [("success", VBool true); ("message", VStr "Ticket saved successfully");
               ("ticket", t')].
Proof.
  intros Hid Hr Hw Hfind Hnth.
  destruct (find_index_nth _ _ _ Hfind) as (t0 & Hn0 & Hp & _).
  rewrite Hnth in Hn0. inversion Hn0; subst t0.
  destruct (has_id_object _ _ Hp Hid) as [fields ->].
  unfold post_tickets, find_or_create, readTicketsData, writeTicketsData.
  rewrite Hid, Hr, Hw, Hfind. cbn [negb fst snd].
  exists (save_fields b (clock e 1) (VObj fields)).
  destruct (save_fields_spec b (clock e 1) fields) as (G1 & G2 & G3 & _ & Go).
  cbv zeta in *.
  pose proof (modify_nth_same i (save_fields b (clock e 1)) file _ Hnth) as Hsame.
  split; [exact Hsame|].
  split; [apply modify_nth_length|].
  split; [intros j Hj; now apply modify_nth_other|].
  split; [apply Go; discriminate|].
  split; [apply Go; discriminate|].
  split; [apply Go; discriminate|].
  split; [exact G1|]. split; [exact G2|]. split; [exact G3|].
  rewrite (nth_error_nth _ _ VUndefined Hsame). reflexivity.
Qed.

Lemma get_ticket_found e T file t :
  read_ok e = true -> find (has_id (VStr T)) file = Some t ->
  get_ticket e T file = json [("success", VBool true); ("ticket", t)].
Proof. intros Hr Hf. unfold get_ticket, readTicketsData. now rewrite Hr, Hf. Qed.

(** C2 (amended).  Ticket round-trip on the JSON-file server.  For a
    non-empty string id [T] that is not stored yet, when the data file is
    written by the POST and read by the GET: POST /tickets answers 200 with
    success:true, and GET /tickets/T then answers 200 with success:true and a
    ticket whose id is [T] and whose transcript, extracted_data and
    description are the posted values wherever those are truthy; a field
    posted with a falsy value (absent, null, false, 0 or the empty string)
    is absent from the stored ticket. *)
Theorem ticket_roundtrip e e' T b file :
  ticket_id b = VStr T -> T <> "" ->
  find (has_id (VStr T)) file = None ->
  write_ok e = true -> read_ok e' = true ->
  status (snd (post_tickets e b file)) = 200
  /\ get (body (snd (post_tickets e b file))) "success" = VBool true
  /\ status (get_ticket e' T (fst (post_tickets e b file))) = 200
  /\ get (body (get_ticket e' T (fst (post_tickets e b file)))) "success" = VBool true
  /\ exists t,
       get (body (get_ticket e' T (fst (post_tickets e b file)))) "ticket" = t
       /\ get t "id" = VStr T
       /\ get t "transcript"
          = (if truthy (transcript b) then transcript b else VUndefined)
       /\ get t "extracted_data"
          = (if truthy (extracted_data b) then extracted_data b else VUndefined)
       /\ get t "description"
          = (if truthy (description b) then description b else VUndefined).
Proof.
  intros Hid HT Hnew Hw Hr.
  assert (Htruthy : truthy (ticket_id b) = true).
  { rewrite Hid. simpl. apply negb_true_iff. now apply String.eqb_neq. }
  assert (Hdata : find (has_id (VStr T)) (readTicketsData e file) = None).
  { unfold readTicketsData. destruct (read_ok e); [assumption | reflexivity]. }
  unfold post_tickets, find_or_create, writeTicketsData.
  rewrite Htruthy, Hw, Hid. cbn [negb].
  apply find_index_find in Hdata as Hidx. rewrite Hidx. cbn [fst snd].
  rewrite modify_nth_last, nth_last.
  set (t := save_fields b (clock e 1) (new_ticket (VStr T) (clock e 0))).
  destruct (save_fields_spec b (clock e 1)
              [("id", VStr T); ("createdAt", VStr (clock e 0)); ("uploads", VArr [])])
    as (G1 & G2 & G3 & _ & Go).
  cbv zeta in *. fold (new_ticket (VStr T) (clock e 0)) in *. fold t in G1, G2, G3, Go.
  assert (Hidt : get t "id" = VStr T) by (rewrite Go by discriminate; reflexivity).
  assert (Hfound : find (has_id (VStr T)) (readTicketsData e file ++ [t]) = Some t).
  { apply find_app_last; [assumption|]. unfold has_id. rewrite Hidt.
    simpl. apply String.eqb_refl. }
  rewrite (get_ticket_found e' T _ t Hr Hfound).
  repeat split. exists t. repeat split; assumption.
Qed.

(** A body whose description is the empty string, on an empty store. *)
Definition steady_io : io :=
  {| clock := fun _ => "2025-01-01T00:00:00.000Z"; read_ok := true; write_ok := true |}.

Definition empty_description_body : ticket_body :=
  {| ticket_id := VStr "T-1"; transcript := VArr []; extracted_data := VObj [];
     description := VStr "" |}.

(** C2 (counterexample).  The id is new, the POST succeeds, the GET finds
    the ticket; the description that was posted, the empty string, is not
    what the ticket holds: it has no description at all. *)
Lemma roundtrip_loses_empty_description :
  find (has_id (VStr "T-1")) [] = None
  /\ status (snd (post_tickets steady_io empty_description_body [])) = 200
  /\ get (body (snd (post_tickets steady_io empty_description_body []))) "success"
     = VBool true
  /\ get (body (get_ticket steady_io "T-1"
                  (fst (post_tickets steady_io empty_description_body []))))
         "success" = VBool true
  /\ get (get (body (get_ticket steady_io "T-1"
                       (fst (post_tickets steady_io empty_description_body []))))
              "ticket") "description" = VUndefined
  /\ description empty_description_body = VStr "".
Proof. repeat split. Qed.

Lemma ticket_roundtrip_witness :
  ticket_id {| ticket_id := VStr "T-7"; transcript := VArr [VStr "hello"];
               extracted_data := VObj [("location", VStr "Riyadh")];
               description := VStr "Rear collision" |} = VStr "T-7"
  /\ "T-7" <> ""
  /\ find (has_id (VStr "T-7")) [new_ticket (VStr "T-1") "yesterday"] = None
  /\ write_ok steady_io = true /\ read_ok steady_io = true
  /\ get (get (body (get_ticket steady_io "T-7"
                       (fst (post_tickets steady_io
                               {| ticket_id := VStr "T-7";
                                  transcript := VArr [VStr "hello"];
                                  extracted_data := VObj [("location", VStr "Riyadh")];
                                  description := VStr "Rear collision" |}
                               [new_ticket (VStr "T-1") "yesterday"]))))
              "ticket") "description" = VStr "Rear collision".
Proof.
  assert (Hne : "T-7" <> "") by discriminate.
  split; [reflexivity|]. split; [exact Hne|]. split; [reflexivity|].
  split; [reflexivity|]. split; [reflexivity|].
  destruct (ticket_roundtrip steady_io steady_io "T-7"
              {| ticket_id := VStr "T-7"; transcript := VArr [VStr "hello"];
                 extracted_data := VObj [("location", VStr "Riyadh")];
                 description := VStr "Rear collision" |}
              [new_ticket (VStr "T-1") "yesterday"]
              eq_refl Hne eq_refl eq_refl eq_refl)
    as (_ & _ & _ & _ & t & Ht & _ & _ & _ & Hd).
  rewrite Ht. exact Hd.
Defined.

(** *** Facts about POST /upload *)


(** A part that multer lets through. *)
Definition passes (f : part) : bool :=
  negb (originalname f =? "") && (fieldname f =? "files")
  && fileFilter f && (size f <=? fileSize_limit)%Z.

Lemma fileFilter_allowed f : fileFilter f = true <-> In (mimetype f) allowedTypes.
Proof.
  unfold fileFilter. rewrite existsb_exists. split.
  - intros (x & Hx & E). apply String.eqb_eq in E. now subst.
  - intros H. exists (mimetype f). split; [assumption | apply String.eqb_refl].
Qed.


Lemma multer_array_prefix left pre rest acc :
  forallb passes pre = true ->
  List.length pre <= left ->
  multer_array "files" left (pre ++ rest) acc
  = multer_array "files" (left - List.length pre) rest (acc ++ pre).
Proof.
  revert left acc; induction pre as [|f pre IH]; intros left acc Hp Hl.
  - simpl. now rewrite Nat.sub_0_r, app_nil_r.
  - cbn [forallb] in Hp. apply andb_prop in Hp as [Hf Hp].
    unfold passes in Hf. repeat (apply andb_prop in Hf as [Hf ?]).
    apply negb_true_iff in Hf.
    cbn [List.length] in Hl. cbn [app multer_array].
    rewrite Hf, H0, H1. cbn [negb orb].
    destruct left as [|left]; [lia|]. cbn [Nat.eqb].
    apply Z.leb_le in H. apply Z.ltb_ge in H. rewrite H.
    rewrite IH by (assumption || lia).
    cbn [List.length]. rewrite <- app_assoc.
    replace (S left - 1 - List.length pre) with (S left - S (List.length pre)) by lia.
    reflexivity.
Qed.















Definition fresh_server : server := {| tickets_file := []; disk := [] |}.


(** *** Facts about POST /stt *)

(** The audio part is one that [audioUpload.single('audio')] saves. *)
Definition audio_saved (f : part) : Prop :=
  originalname f <> "" /\ fieldname f = "audio" /\ audioFileFilter f = true
  /\ (size f <= fileSize_limit)%Z.

Lemma post_stt_saved e r f d :
  audio r = Some f -> audio_saved f ->
  post_stt e r d = stt_handler e (Some f) (language r) ((temp_audio, stored_name f) :: d).
Proof.
  intros Ha (Hname & Hfield & Hfilter & Hsize). unfold post_stt. rewrite Ha.
  apply String.eqb_neq in Hname. rewrite Hname, Hfield, Hfilter. cbn [String.eqb negb].
  apply Z.ltb_ge in Hsize. now rewrite Hsize.
Qed.

Lemma path_eqb_refl q : path_eqb q q = true.
Proof. unfold path_eqb. now rewrite !String.eqb_refl. Qed.

Lemma unlink_removes f d : ~ In (temp_audio, stored_name f) (unlink true f d).
Proof.
  unfold unlink. intros H. apply filter_In in H as [_ H].
  rewrite path_eqb_refl in H. discriminate.
Qed.

(** The [catch] of the handler does what the claim says: when the call to
    the transcription service fails, the answer is a 500 with a JSON body
    and the temporary file is gone (if the file system lets it go). *)
Lemma stt_failed_call_cleans_up e r f d :
  audio r = Some f -> audio_saved f ->
  key_configured (GROQ_API_KEY e) = true -> unlink_ok e = true ->
  get (body (snd (post_stt e r d))) "success" = VBool false ->
  status (snd (post_stt e r d)) = 500
  /\ ~ In (temp_audio, stored_name f) (fst (post_stt e r d)).
Proof.
  intros Ha Hs Hk Hu. rewrite (post_stt_saved e r f d Ha Hs).
  unfold stt_handler. rewrite Hk, Hu. cbn [negb].
  destruct (groq e) as [m|data]; cbn [fst snd].
  - intros _. split; [reflexivity | apply unlink_removes].
  - destruct data; cbn [fst snd]; intros H;
      try (split; [reflexivity | apply unlink_removes]);
      cbn in H; discriminate.
Qed.

(** The branch for a missing API key returns before any cleanup: the answer
    is an error and the file that multer saved stays in the temp
    directory. *)
Lemma stt_missing_key_keeps_file e r f d :
  audio r = Some f -> audio_saved f ->
  key_configured (GROQ_API_KEY e) = false ->
  snd (post_stt e r d) = failure 500 "Groq API key not configured"
  /\ In (temp_audio, stored_name f) (fst (post_stt e r d)).
Proof.
  intros Ha Hs Hk. rewrite (post_stt_saved e r f d Ha Hs).
  unfold stt_handler. rewrite Hk. cbn. auto.
Qed.

Definition voice_clip : part :=
  {| fieldname := "audio"; originalname := "voice.webm"; mimetype := "audio/webm";
     size := 48000; stored_name := "audio-0a1b-1700000000000.webm";
     type_seen := None |}.

(** The server was started without GROQ_API_KEY. *)
Definition no_key_env : stt_env :=
  {| GROQ_API_KEY := None; groq := GroqError "never called"; unlink_ok := true |}.

(** C8 (the failing input).  An accepted audio file, no API key configured:
    the handler answers 500 with success:false, and the saved temporary
    file is still on disk. *)
Lemma stt_without_key_leaves_audio :
  status (snd (post_stt no_key_env {| audio := Some voice_clip; language := Some "ar" |} []))
  = 500
  /\ get (body (snd (post_stt no_key_env
                       {| audio := Some voice_clip; language := Some "ar" |} [])))
         "success" = VBool false
  /\ fst (post_stt no_key_env {| audio := Some voice_clip; language := Some "ar" |} [])
     = [(temp_audio, stored_name voice_clip)].
Proof. repeat split. Qed.


(** *** Where an upload ends up *)

Lemma path_eqb_spec (a b : path) : reflect (a = b) (path_eqb a b).
Proof.
  unfold path_eqb. destruct a as [a1 a2], b as [b1 b2]. cbn [fst snd].
  destruct (String.eqb_spec a1 b1) as [->|H1]; cbn [andb].
  - destruct (String.eqb_spec a2 b2) as [->|H2]; constructor; congruence.
  - constructor. congruence.
Qed.



Lemma multer_array_all parts :
  forallb passes parts = true -> List.length parts <= 10 ->
  multer_array "files" 10 parts [] = Accepted parts.
Proof.
  intros Hp Hl.
  pose proof (multer_array_prefix 10 parts [] [] Hp Hl) as H.
  rewrite app_nil_r in H. rewrite H. reflexivity.
Qed.



(** *** Uploads kept on a ticket *)








(** *** When the data file cannot be read or written *)

(** X9.  Failures of the data file.  POST /tickets with a ticket id answers
    200 with success:true whether or not the file was written; when the
    write fails the file is as before.  When the file cannot be read (or
    parsed) the store is taken to be empty: GET /tickets answers with no
    ticket, GET /tickets/:id with 404, and a POST /tickets whose write
    succeeds leaves a file that holds the posted ticket and nothing else. *)
Theorem data_file_failures e b file :
  truthy (ticket_id b) = true ->
  status (snd (post_tickets e b file)) = 200
  /\ get (body (snd (post_tickets e b file))) "success" = VBool true
  /\ (write_ok e = false -> fst (post_tickets e b file) = file)
  /\ (read_ok e = false ->
      get_tickets e file = json [("success", VBool true); ("tickets", VArr [])]
      /\ (forall id, get_ticket e id file = failure 404 "Ticket not found")
      /\ (write_ok e = true ->
          fst (post_tickets e b file)
          = [get (body (snd (post_tickets e b file))) "ticket"]
          /\ get (get (body (snd (post_tickets e b file))) "ticket") "id"
             = ticket_id b)).
Proof.
  intros Hid. unfold post_tickets. rewrite Hid. cbn [negb].
  destruct (find_or_create (ticket_id b) (clock e 0) (readTicketsData e file))
    as [data1 i] eqn:Ef.
  cbn [fst snd status json body].
  split; [reflexivity|]. split; [reflexivity|].
  split; [intros Hw; unfold writeTicketsData; now rewrite Hw|].
  intros Hr. unfold get_tickets, get_ticket, readTicketsData in *. rewrite Hr in *.
  split; [reflexivity|]. split; [reflexivity|].
  intros Hw. unfold writeTicketsData. rewrite Hw.
  unfold find_or_create in Ef. cbn in Ef. inversion Ef; subst.
  cbn [modify_nth nth get lookup String.eqb Ascii.eqb Bool.eqb].
  split; [reflexivity|].
  destruct (save_fields_spec b (clock e 1)
              [("id", ticket_id b); ("createdAt", VStr (clock e 0));
               ("uploads", VArr [])]) as (_ & _ & _ & _ & Go).
  cbv zeta in Go. unfold new_ticket. rewrite Go by discriminate. reflexivity.
Qed.

(** *** POST /stt: what is let in, and the answer when all goes well *)

Lemma listed_audio_type f :
  existsb (String.eqb (mimetype f)) allowedAudioTypes = true ->
  String.prefix "audio/" (mimetype f) = true.
Proof.
  unfold allowedAudioTypes. cbn [existsb]. intros H.
  repeat (apply orb_prop in H as [H|H];
          [apply String.eqb_eq in H; rewrite H; reflexivity|]).
  discriminate.
Qed.

Lemma audioFileFilter_prefix f :
  audioFileFilter f = String.prefix "audio/" (mimetype f).
Proof.
  unfold audioFileFilter.
  destruct (existsb (String.eqb (mimetype f)) allowedAudioTypes) eqn:E; [|reflexivity].
  now rewrite (listed_audio_type f E).
Qed.

(** X10.  POST /stt, the filter and the good path.  For a named part in the
    field 'audio' within the size limit: the filter lets it in exactly when
    its MIME type starts with 'audio/' (the list of types in the filter adds
    nothing); a part of another type is answered 500 'Invalid audio file
    type. Only audio files are allowed.' and nothing is saved.  When the
    part is let in, the API key is configured and the transcription service
    answers with an object, the answer is 200 with success:true, the [text]
    of that object as the transcription and the language of the request
    ('ar' when none is given); the temporary file is then gone if it could
    be unlinked, and the answer is the same if it could not. *)
Theorem stt_takes_any_audio e r f d :
  audio r = Some f -> originalname f <> "" -> fieldname f = "audio" ->
  (size f <= fileSize_limit)%Z ->
  audioFileFilter f = String.prefix "audio/" (mimetype f)
  /\ (String.prefix "audio/" (mimetype f) = false ->
      post_stt e r d
      = (d, failure 500 "Invalid audio file type. Only audio files are allowed."))
  /\ (String.prefix "audio/" (mimetype f) = true ->
      key_configured (GROQ_API_KEY e) = true ->
      forall fields, groq e = GroqData (VObj fields) ->
      snd (post_stt e r d)
      = json [("success", VBool true);
              ("transcription", get (VObj fields) "text");
              ("language",
               VStr (match language r with
                     | Some l => if l =? "" then "ar" else l
                     | None => "ar"
                     end))]
      /\ (unlink_ok e = true ->
          forall q, In q (fst (post_stt e r d))
                    <-> In q d /\ q <> (temp_audio, stored_name f))
      /\ (unlink_ok e = false ->
          fst (post_stt e r d) = (temp_audio, stored_name f) :: d)).
Proof.
  intros Ha Hname Hfield Hsize.
  split; [apply audioFileFilter_prefix|]. split.
  - intros Hp. unfold post_stt. rewrite Ha.
    apply String.eqb_neq in Hname. rewrite Hname, Hfield, String.eqb_refl.
    cbn [negb]. rewrite audioFileFilter_prefix, Hp. reflexivity.
  - intros Hp Hk fields Hg.
    assert (Hsaved : audio_saved f).
    { repeat split; try assumption. now rewrite audioFileFilter_prefix. }
    rewrite (post_stt_saved e r f d Ha Hsaved).
    unfold stt_handler. rewrite Hk, Hg. cbn [negb fst snd].
    split; [reflexivity|]. split.
    + intros Hu q. rewrite Hu. unfold unlink. rewrite filter_In. cbn [In].
      destruct (path_eqb_spec q (temp_audio, stored_name f)) as [->|Hne]; cbn [negb].
      * split; [intros [_ H]; discriminate | intros [_ H]; now contradiction H].
      * split; [intros [[H|H] _]; [now contradiction Hne | now split]
               | intros [H _]; split; [now right | reflexivity]].
    + intros Hu. now rewrite Hu.
Qed.


(** *** The further properties, on concrete requests *)





(** The data file has become unreadable. *)
Definition unreadable_io : io :=
  {| clock := fun _ => "2025-01-02T00:00:00.000Z"; read_ok := false; write_ok := true |}.

Lemma data_file_failures_witness :
  truthy (ticket_id empty_description_body) = true
  /\ List.length
       (fst (post_tickets unreadable_io empty_description_body
               [new_ticket (VStr "T-0") "2025-01-01T00:00:00.000Z";
                new_ticket (VStr "T-00") "2025-01-01T00:00:00.000Z"])) = 1.
Proof.
  split; [reflexivity|].
  destruct (data_file_failures unreadable_io empty_description_body
              [new_ticket (VStr "T-0") "2025-01-01T00:00:00.000Z";
               new_ticket (VStr "T-00") "2025-01-01T00:00:00.000Z"] eq_refl)
    as (_ & _ & _ & Hread).
  destruct (Hread eq_refl) as (_ & _ & Hw). destruct (Hw eq_refl) as [-> _].
  reflexivity.
Defined.

(** The transcription service is configured and answers. *)
Definition answering_env : stt_env :=
  {| GROQ_API_KEY := Some "gsk-test";
     groq := GroqData (VObj [("text", VStr "two cars, no injuries")]);
     unlink_ok := true |}.

Lemma stt_takes_any_audio_witness :
  originalname voice_clip <> "" /\ fieldname voice_clip = "audio"
  /\ (size voice_clip <= fileSize_limit)%Z
  /\ String.prefix "audio/" (mimetype voice_clip) = true
  /\ post_stt answering_env {| audio := Some voice_clip; language := None |} []
     = ([], json [("success", VBool true);
                  ("transcription", VStr "two cars, no injuries");
                  ("language", VStr "ar")]).
Proof.
  assert (Hname : originalname voice_clip <> "") by discriminate.
  assert (Hsize : (size voice_clip <= fileSize_limit)%Z) by discriminate.
  destruct (stt_takes_any_audio answering_env
              {| audio := Some voice_clip; language := None |} voice_clip []
              eq_refl Hname eq_refl Hsize) as (_ & _ & Hgood).
  destruct (Hgood eq_refl eq_refl _ eq_refl) as (Hans & _ & _).
  split; [exact Hname|]. split; [reflexivity|]. split; [exact Hsize|].
  split; [reflexivity|].
  rewrite (surjective_pairing (post_stt _ _ _)). now rewrite Hans.
Defined.

End ConversationServer.

(* ===================================================================== *)
(** ** The client of the servers (backend-integration.js) *)
(* ===================================================================== *)

Module BackendApi.
Import Js.

(** How a [fetch] ends: the promise is rejected, or a response comes with
    its status and its body as [response.json()] reads it ([None] when the
    body is not JSON). *)
Inductive fetched : Type :=
| Rejected (reason : string)
| Answered (status : nat) (body : option value).

(** [response.ok] *)
Definition response_ok (status : nat) : bool :=
  (200 <=? status)%nat && (status <=? 299)%nat.

(** What is thrown: an [Error] made by the module (with the value given to
    its constructor, a string in every case that arises with the servers of
    this repository), the rejection of the fetch, a [TypeError] of the
    language (a property read on [null] or [undefined]; a call of something
    that is no function), or the [SyntaxError] of [response.json()]. *)
Inductive error : Type :=
| Error (message : value)
| FetchError (reason : string)
| TypeError
| SyntaxError.

Inductive outcome (A : Type) : Type :=
| Returned (a : A)
| Thrown (e : error).
Arguments Returned {A} a.
Arguments Thrown {A} e.

(** The module's variables. *)
Record state : Type := {
  uploadedImages : list value;
  extractedData : value
}.

Definition noExtractedData : value :=
  VObj [("plate", VNull); ("damage", VNull); ("confidence", VNull)].

Definition initial : state :=
  {| uploadedImages := []; extractedData := noExtractedData |}.

(** The [File] handed to [uploadImageToBackend]. *)
Record file : Type := { file_name : string; file_type : string; file_size : Z }.

Definition decimal (n : nat) : string := NilEmpty.string_of_uint (Nat.to_uint n).

(** [o.k] where [o] may be [null] or [undefined]: [None] is the
    [TypeError]. *)
Definition read (o : value) (k : string) : option value :=
  match o with
  | VNull | VUndefined => None
  | _ => Some (get o k)
  end.

(** [o[0]] *)
Definition first (o : value) : option value :=
  match o with
  | VNull | VUndefined => None
  | VArr (x :: _) => Some x
  | VArr [] => Some VUndefined
  | VStr (String c _) => Some (VStr (String c ""))
  | VStr EmptyString => Some VUndefined
  | VObj _ => Some (get o "0")
  | _ => Some VUndefined
  end.

(** The [type] field of the form: [type === 'accident_photo' ?
    'accident_photos' : type], with the default of the parameter for an
    [undefined] argument. *)
Definition sent_type (type : option string) : string :=
  match type with
  | None => "accident_photos"
  | Some t => if t =? "accident_photo" then "accident_photos" else t
  end.

Definition type_argument (type : option string) : string :=
  match type with None => "accident_photo" | Some t => t end.

(** The error thrown for a response that is not ok:
    [errorData.message || `<what> failed: <status>`], where [errorData] is
    the body, or [{}] when the body cannot be read. *)
Definition not_ok (what : string) (status : nat) (body : option value) : error :=
  match body with
  | None => Error (VStr (what ++ decimal status))
  | Some errorData =>
      match read errorData "message" with
      | None => TypeError
      | Some m => Error (or_else m (VStr (what ++ decimal status)))
      end
  end.

(** The update of [extractedData] from [result.data]. *)
Definition unclear : string := "غير واضح".

Definition take_extracted (data : value) (x : value) : value :=
  let x1 :=
    if negb (truthy (get x "plate")) && negb (strict_eq (get data "plate") (VStr unclear))
    then set_prop x "plate" (get data "plate") else x in
  let x2 :=
    if negb (truthy (get x1 "damage"))
       && negb (strict_eq (get data "damage") (VStr unclear))
    then set_prop x1 "damage" (get data "damage") else x1 in
  if truthy (get data "confidence")
  then set_prop x2 "confidence" (get data "confidence") else x2.

(** [uploadImageToBackend(file, type)], from the answer of the POST /upload
    on.  The state changes on the good path only. *)
Definition uploadImageToBackend (f : file) (type : option string) (o : fetched)
    (st : state) : state * outcome value :=
  match o with
  | Rejected reason => (st, Thrown (FetchError reason))
  | Answered status body =>
      if negb (response_ok status) then (st, Thrown (not_ok "Upload failed: " status body))
      else
        match body with
        | None => (st, Thrown SyntaxError)
        | Some result =>
            match read result "files" with
            | None => (st, Thrown TypeError)
            | Some files =>
                match first files with
                | None => (st, Thrown TypeError)
                | Some file0 =>
                    match read file0 "filename" with
                    | None => (st, Thrown TypeError)
                    | Some filename =>
                        let adapted :=
                          VObj [("filename", filename);
                                ("originalName", VStr (file_name f));
                                ("url", get file0 "url");
                                ("type", get file0 "type")] in
                        let ocr :=
                          VObj [("text",
                                 VStr "Image uploaded successfully (OCR not available)");
                                ("confidence", VNull)] in
                        let result1 :=
                          set_prop (set_prop (set_prop result "success" (VBool true))
                                      "file" adapted) "ocr" ocr in
                        let image :=
                          VObj [("filename", filename);
                                ("originalName", VStr (file_name f));
                                ("url", get file0 "url");
                                ("filePath", get file0 "url");
                                ("fileType", VStr (file_type f));
                                ("attachmentType", VStr (type_argument type));
                                ("type", VStr (type_argument type));
                                ("size", VUndefined)] in
                        let x :=
                          if truthy (get result1 "data")
                          then take_extracted (get result1 "data") (extractedData st)
                          else extractedData st in
                        ({| uploadedImages := uploadedImages st ++ [image];
                            extractedData := x |},
                         Returned result1)
                    end
                end
            end
        end
  end.

(** [getAllTickets(token)]: every failure gives the empty list. *)
Definition getAllTickets (o : fetched) : list value :=
  match o with
  | Rejected _ => []
  | Answered status body =>
      if negb (response_ok status) then []
      else
        match body with
        | Some result =>
            match read result "tickets" with
            | Some (VArr l) => l
            | _ => []
            end
        | None => []
        end
  end.

(** [tickets.find(t => t.id === ticketId)]; the outer [None] is the
    [TypeError] of reading [id] on an entry that is [null]. *)
Fixpoint find_ticket (ticketId : string) (l : list value) : option (option value) :=
  match l with
  | [] => Some None
  | t :: rest =>
      match read t "id" with
      | None => None
      | Some id => if strict_eq id (VStr ticketId) then Some (Some t)
                   else find_ticket ticketId rest
      end
  end.

(** [getTicketDetails(ticketId, token)], which asks for all the tickets and
    looks the one up itself. *)
Definition getTicketDetails (ticketId : string) (o : fetched) : outcome value :=
  match o with
  | Rejected reason => Thrown (FetchError reason)
  | Answered status body =>
      if negb (response_ok status)
      then Thrown (Error (VStr ("Failed to fetch tickets: " ++ decimal status)))
      else
        match body with
        | None => Thrown SyntaxError
        | Some result =>
            match read result "tickets" with
            | None => Thrown TypeError
            | Some tickets =>
                match or_else tickets (VArr []) with
                | VArr l =>
                    match find_ticket ticketId l with
                    | None => Thrown TypeError
                    | Some (Some t) =>
                        if truthy t then Returned t
                        else Thrown (Error (VStr ("Ticket " ++ ticketId ++ " not found")))
                    | Some None =>
                        Thrown (Error (VStr ("Ticket " ++ ticketId ++ " not found")))
                    end
                | _ => Thrown TypeError   (* [find] is not a function of it *)
                end
            end
        end
  end.

(** [getUploadedImagesCount()] and [clearUploadedImages()] *)
Definition getUploadedImagesCount (st : state) : nat := List.length (uploadedImages st).

Definition clearUploadedImages (st : state) : state := initial.

(** What a server of this repository sends, as the client receives it. *)
Definition served (r : ConversationServer.response) : fetched :=
  Answered (ConversationServer.status r) (Some (ConversationServer.body r)).


(** *** The client against the conversation server *)

(** The part multer sees for the file of [uploadImageToBackend]: the form
    holds the file first and the type after it, and the server draws the
    stored name. *)
Definition sent_part (f : file) (stored : string) : ConversationServer.part :=
  {| ConversationServer.fieldname := "files";
     ConversationServer.originalname := file_name f;
     ConversationServer.mimetype := file_type f;
     ConversationServer.size := file_size f;
     ConversationServer.stored_name := stored;
     ConversationServer.type_seen := None |}.

Definition upload_request (f : file) (type : option string) (stored : string)
  : ConversationServer.upload_request :=
  {| ConversationServer.parts := [sent_part f stored];
     ConversationServer.body_type := Some (sent_type type);
     ConversationServer.body_ticket_id := None |}.

(** What [reader.onload] of app.js makes of the result. *)
Definition upload_outcome_of (o : outcome value) : Chat.upload_outcome :=
  match o with
  | Returned result =>
      Chat.UploadOk (get (get result "file") "filename") (get (get result "file") "url")
  | Thrown _ => Chat.UploadFailed
  end.

Lemma find_ticket_find T l :
  Forall (fun t => exists fields, t = VObj fields) l ->
  find_ticket T l = Some (find (ConversationServer.has_id (VStr T)) l).
Proof.
  induction 1 as [|t l [fields ->] _ IH]; [reflexivity|].
  cbn [find_ticket find read]. unfold ConversationServer.has_id at 1.
  destruct (strict_eq (get (VObj fields) "id") (VStr T)); [reflexivity | exact IH].
Qed.

(** X11.  Looking a ticket up from the client.  [getTicketDetails] asks the
    conversation server for all the tickets and searches them itself; on a
    store of ticket objects it ends as GET /tickets/:id would: it returns
    the ticket that the server would send with 200, and throws 'Ticket <id>
    not found' where the server would answer 404.  [getAllTickets] returns
    the stored tickets, and no ticket when the request fails. *)
Theorem getTicketDetails_as_the_server e T file :
  Forall (fun t => exists fields, t = VObj fields) file ->
  match find (ConversationServer.has_id (VStr T)) (ConversationServer.readTicketsData e file)
  with
  | Some t =>
      getTicketDetails T (served (ConversationServer.get_tickets e file)) = Returned t
      /\ ConversationServer.get_ticket e T file
         = ConversationServer.json [("success", VBool true); ("ticket", t)]
  | None =>
      getTicketDetails T (served (ConversationServer.get_tickets e file))
      = Thrown (Error (VStr ("Ticket " ++ T ++ " not found")))
      /\ ConversationServer.get_ticket e T file
         = ConversationServer.failure 404 "Ticket not found"
  end
  /\ getAllTickets (served (ConversationServer.get_tickets e file))
     = ConversationServer.readTicketsData e file
  /\ (forall reason, getAllTickets (Rejected reason) = [])
  /\ (forall status body, response_ok status = false ->
        getAllTickets (Answered status body) = []).
Proof.
  intros Hobj.
  assert (Hdata : Forall (fun t => exists fields, t = VObj fields)
                    (ConversationServer.readTicketsData e file)).
  { unfold ConversationServer.readTicketsData.
    destruct (ConversationServer.read_ok e); [assumption | constructor]. }
  split; [|split; [reflexivity | split; [reflexivity|]]].
  - unfold getTicketDetails, served, ConversationServer.get_tickets,
      ConversationServer.get_ticket.
    cbn [ConversationServer.status ConversationServer.body ConversationServer.json
         response_ok Nat.leb andb negb read get lookup String.eqb Ascii.eqb Bool.eqb
         or_else truthy].
    rewrite (find_ticket_find T _ Hdata).
    destruct (find (ConversationServer.has_id (VStr T))
                (ConversationServer.readTicketsData e file)) as [t|] eqn:Ef.
    + apply find_some in Ef as [Hin _]. rewrite Forall_forall in Hdata.
      destruct (Hdata t Hin) as [fields ->]. split; reflexivity.
    + split; reflexivity.
  - intros status body Hs. unfold getAllTickets. now rewrite Hs.
Qed.

Section EndToEnd.

(** What the page provides to the chat: [validateConfig()] and [String(v)]. *)
Variable config_valid : bool.
Variable ToString : value -> string.

Lemma sent_part_passes f stored :
  file_name f <> "" -> In (file_type f) ConversationServer.allowedTypes ->
  (file_size f <= ConversationServer.fileSize_limit)%Z ->
  ConversationServer.passes (sent_part f stored) = true.
Proof.
  intros Hn Ht Hs. unfold ConversationServer.passes, sent_part.
  cbn [ConversationServer.originalname ConversationServer.fieldname
       ConversationServer.size].
  apply String.eqb_neq in Hn. rewrite Hn, String.eqb_refl.
  assert (Hf : ConversationServer.fileFilter (sent_part f stored) = true)
    by (apply ConversationServer.fileFilter_allowed; exact Ht).
  fold (sent_part f stored). rewrite Hf.
  apply Z.leb_le in Hs. now rewrite Hs.
Qed.

Lemma folder_of_upload_type phase uploadType :
  Chat.uploadType_of phase = Some uploadType ->
  ConversationServer.folder_of
    (ConversationServer.type_or_default (Some (sent_type (Some uploadType))))
  = uploadType
  /\ type_argument (Some uploadType) = uploadType.
Proof.
  unfold Chat.uploadType_of.
  destruct (strict_eq phase (VStr "accident_photos"));
    [intros H; inversion H; now split|].
  destruct (strict_eq phase (VStr "id_card")); [intros H; inversion H; now split|].
  destruct (strict_eq phase (VStr "driving_license"));
    [intros H; inversion H; now split|].
  destruct (strict_eq phase (VStr "vehicle_registration"));
    [intros H; inversion H; now split | discriminate].
Qed.

(** X12.  An image, from the chat to the disk of the server and back.  In
    one of the four upload phases, for a named file of a type and size that
    the server allows: the chat asks for the upload type of the phase; the
    client sends the file before the type, so multer stores it under
    accident_photos and the handler moves it; the file ends up in the
    folder that bears the name of the upload type; the client returns a
    result whose file has the stored name and the url
    /uploads/<upload type>/<stored name>, and counts one more pending
    image; and the chat then records that file under the key of the phase
    (at the end of the list, for accident photos), where the payload of the
    ticket takes it from. *)
Theorem image_upload_end_to_end e s f stored chat api fields :
  Chat.upload_phase (Chat.currentPhase chat) ->
  Chat.uploadedFiles chat = VObj fields ->
  file_name f <> "" -> In (file_type f) ConversationServer.allowedTypes ->
  (file_size f <= ConversationServer.fileSize_limit)%Z ->
  exists uploadType key result api',
    Chat.uploadType_of (Chat.currentPhase chat) = Some uploadType
    /\ Chat.currentPhase chat = VStr key
    /\ ConversationServer.destination (sent_part f stored) = ("accident_photos", stored)
    /\ In (uploadType, stored)
          (ConversationServer.disk
             (fst (ConversationServer.post_upload e true
                     (upload_request f (Some uploadType) stored) s)))
    /\ uploadImageToBackend f (Some uploadType)
         (served (snd (ConversationServer.post_upload e true
                         (upload_request f (Some uploadType) stored) s))) api
       = (api', Returned result)
    /\ get (get result "file") "filename" = VStr stored
    /\ get (get result "file") "url" = VStr ("/uploads/" ++ uploadType ++ "/" ++ stored)
    /\ getUploadedImagesCount api' = S (getUploadedImagesCount api)
    /\ let entry := VObj [("filename", VStr stored);
                          ("url", VStr ("/uploads/" ++ uploadType ++ "/" ++ stored));
                          ("type", VStr uploadType)] in
       let chat' := fst (Chat.upload_resume config_valid ToString (Some uploadType)
                           (upload_outcome_of (Returned result)) chat) in
       (key <> "accident_photos" ->
          get (Chat.uploadedFiles chat') key = entry
          /\ get (get (get (Chat.ticketPayload_of "T" chat') "extracted_data") "uploads")
                 key = entry)
       /\ (forall l, key = "accident_photos" ->
             get (Chat.uploadedFiles chat) "accident_photos" = VArr l ->
             get (Chat.uploadedFiles chat') "accident_photos" = VArr (l ++ [entry])
             /\ get (get (get (Chat.ticketPayload_of "T" chat') "extracted_data")
                       "uploads") "accident_photos" = VArr (l ++ [entry])).
Proof.
  intros Hphase Huf Hn Ht Hs.
  assert (Hcases : exists uploadType key,
             Chat.currentPhase chat = VStr key
             /\ Chat.uploadType_of (Chat.currentPhase chat) = Some uploadType
             /\ ((key = "accident_photos" /\ uploadType = "accident_photos")
                 \/ (key = "id_card" /\ uploadType = "id_cards")
                 \/ (key = "driving_license" /\ uploadType = "driving_licenses")
                 \/ (key = "vehicle_registration"
                     /\ uploadType = "vehicle_registrations"))).
  { destruct Hphase as [-> | [-> | [-> | ->]]]; eexists; eexists;
      (split; [reflexivity|]); (split; [reflexivity|]); auto 6. }
  destruct Hcases as (uploadType & key & Hkey & Hut & Hpair).
  destruct (folder_of_upload_type _ _ Hut) as [Hfolder Harg].
  pose proof (sent_part_passes f stored Hn Ht Hs) as Hpass.
  set (req := upload_request f (Some uploadType) stored).
  assert (Hmulter : ConversationServer.multer_array "files" 10
                      (ConversationServer.parts req) [] = ConversationServer.Accepted
                                                            [sent_part f stored]).
  { apply ConversationServer.multer_array_all; [|cbn; lia].
    cbn [ConversationServer.parts req upload_request forallb]. now rewrite Hpass. }
  assert (Hpost : ConversationServer.post_upload e true req s
            = ({| ConversationServer.tickets_file := ConversationServer.tickets_file s;
                  ConversationServer.disk :=
                    ConversationServer.move_file true uploadType
                      (ConversationServer.destination (sent_part f stored)
                         :: ConversationServer.disk s) (sent_part f stored) |},
               ConversationServer.json
                 [("success", VBool true);
                  ("message", VStr ("1" ++ " file(s) uploaded successfully"));
                  ("files",
                   VArr [ConversationServer.file_entry (sent_type (Some uploadType))
                           uploadType (ConversationServer.clock e 0)
                           (sent_part f stored)])])).
  { unfold ConversationServer.post_upload. rewrite Hmulter.
    unfold ConversationServer.upload_handler.
    cbn [ConversationServer.body_ticket_id ConversationServer.body_type req
         upload_request].
    rewrite Hfolder.
    assert (Htype : ConversationServer.type_or_default (Some (sent_type (Some uploadType)))
                    = sent_type (Some uploadType)).
    { destruct Hpair as [[_ ->] | [[_ ->] | [[_ ->] | [_ ->]]]]; reflexivity. }
    rewrite Htype. reflexivity. }
  subst req. exists uploadType, key.
  eexists. eexists.
  rewrite Hpost. cbn [fst snd ConversationServer.disk].
  split; [exact Hut|]. split; [exact Hkey|]. split; [reflexivity|].
  split.
  { unfold ConversationServer.move_file.
    destruct (ConversationServer.path_eqb _ _) eqn:E.
    - left. apply (Bool.reflect_iff _ _ (ConversationServer.path_eqb_spec _ _)) in E.
      exact E.
    - now left. }
  split.
  { unfold uploadImageToBackend, served.
    cbn [ConversationServer.status ConversationServer.body ConversationServer.json
         response_ok Nat.leb andb negb read first get lookup String.eqb Ascii.eqb
         Bool.eqb ConversationServer.file_entry set_prop set_field truthy].
    reflexivity. }
  split; [reflexivity|]. split; [reflexivity|].
  split.
  { unfold getUploadedImagesCount. cbn [uploadedImages].
    rewrite length_app. cbn. lia. }
  cbv zeta. unfold upload_outcome_of.
  cbn [get lookup String.eqb Ascii.eqb Bool.eqb ConversationServer.stored_name sent_part].
  split.
  - intros Hk.
    assert (Hres : Chat.uploadedFiles
                     (fst (Chat.upload_resume config_valid ToString (Some uploadType)
                             (Chat.UploadOk (VStr stored)
                                (VStr ("/uploads/" ++ uploadType ++ "/" ++ stored))) chat))
                   = set_prop (Chat.uploadedFiles chat) key
                       (VObj [("filename", VStr stored);
                              ("url", VStr ("/uploads/" ++ uploadType ++ "/" ++ stored));
                              ("type", VStr uploadType)])).
    { unfold Chat.upload_resume. rewrite Hkey.
      destruct Hpair as [[-> _] | [[-> ->] | [[-> ->] | [-> ->]]]];
        [now contradiction Hk| | |];
        cbn [Chat.property_key]; unfold Chat.getAIResponse_start;
        destruct config_valid; reflexivity. }
    rewrite Huf in Hres.
    split.
    + rewrite Hres. apply get_set_prop_same.
    + unfold Chat.ticketPayload_of, Chat.extracted_data_of. rewrite Hres.
      destruct Hpair as [[-> _] | [[-> ->] | [[-> ->] | [-> ->]]]];
        [now contradiction Hk| | |];
        cbn [get lookup String.eqb Ascii.eqb Bool.eqb];
        rewrite get_set_prop_same; reflexivity.
  - intros l Hk Hl. subst key.
    destruct Hpair as [[_ ->] | [[E _] | [[E _] | [E _]]]]; try discriminate.
    assert (Hres : Chat.uploadedFiles
                     (fst (Chat.upload_resume config_valid ToString
                             (Some "accident_photos")
                             (Chat.UploadOk (VStr stored)
                                (VStr ("/uploads/" ++ "accident_photos" ++ "/" ++ stored)))
                             chat))
                   = set_prop (Chat.uploadedFiles chat) "accident_photos"
                       (VArr (l ++ [VObj [("filename", VStr stored);
                                          ("url", VStr ("/uploads/" ++ "accident_photos"
                                                          ++ "/" ++ stored));
                                          ("type", VStr "accident_photos")]]))).
    { unfold Chat.upload_resume. rewrite Hl.
      unfold Chat.getAIResponse_start. destruct config_valid; reflexivity. }
    rewrite Huf in Hres.
    split.
    + rewrite Hres. apply get_set_prop_same.
    + unfold Chat.ticketPayload_of, Chat.extracted_data_of. rewrite Hres.
      cbn [get lookup String.eqb Ascii.eqb Bool.eqb].
      rewrite get_set_prop_same. reflexivity.
Qed.

End EndToEnd.


(** *** On a concrete server *)

Lemma getTicketDetails_as_the_server_witness :
  Forall (fun t => exists fields, t = VObj fields)
    [ConversationServer.new_ticket (VStr "T-1") "2025-01-01T00:00:00.000Z"]
  /\ getTicketDetails "T-1"
       (served (ConversationServer.get_tickets ConversationServer.steady_io
                  [ConversationServer.new_ticket (VStr "T-1")
                     "2025-01-01T00:00:00.000Z"]))
     = Returned (ConversationServer.new_ticket (VStr "T-1") "2025-01-01T00:00:00.000Z")
  /\ getTicketDetails "T-2"
       (served (ConversationServer.get_tickets ConversationServer.steady_io
                  [ConversationServer.new_ticket (VStr "T-1")
                     "2025-01-01T00:00:00.000Z"]))
     = Thrown (Error (VStr "Ticket T-2 not found")).
Proof.
  assert (Hobj : Forall (fun t => exists fields, t = VObj fields)
                   [ConversationServer.new_ticket (VStr "T-1")
                      "2025-01-01T00:00:00.000Z"]).
  { constructor; [eexists; reflexivity | constructor]. }
  split; [exact Hobj|]. split.
  - exact (proj1 (proj1 (getTicketDetails_as_the_server ConversationServer.steady_io
                           "T-1" _ Hobj))).
  - exact (proj1 (proj1 (getTicketDetails_as_the_server ConversationServer.steady_io
                           "T-2" _ Hobj))).
Defined.

Definition id_photo : file :=
  {| file_name := "id.png"; file_type := "image/png"; file_size := 350000 |}.

Lemma image_upload_end_to_end_witness :
  Chat.upload_phase (Chat.currentPhase (Chat.set_phase (VStr "id_card") Chat.initial))
  /\ In (file_type id_photo) ConversationServer.allowedTypes
  /\ In ("id_cards", "9f3c-1700000000002.png")
        (ConversationServer.disk
           (fst (ConversationServer.post_upload ConversationServer.steady_io true
                   (upload_request id_photo (Some "id_cards") "9f3c-1700000000002.png")
                   ConversationServer.fresh_server))).
Proof.
  assert (Hphase : Chat.upload_phase
                     (Chat.currentPhase (Chat.set_phase (VStr "id_card") Chat.initial))).
  { right. left. reflexivity. }
  assert (Htype : In (file_type id_photo) ConversationServer.allowedTypes).
  { cbn. tauto. }
  assert (Hname : file_name id_photo <> "") by discriminate.
  assert (Hsize : (file_size id_photo <= ConversationServer.fileSize_limit)%Z)
    by discriminate.
  split; [exact Hphase|]. split; [exact Htype|].
  destruct (image_upload_end_to_end true (fun _ => "") ConversationServer.steady_io
              ConversationServer.fresh_server id_photo "9f3c-1700000000002.png"
              (Chat.set_phase (VStr "id_card") Chat.initial) initial _
              Hphase eq_refl Hname Htype Hsize)
    as (uploadType & key & result & api' & Hut & _ & _ & Hin & _).
  cbn in Hut. inversion Hut; subst uploadType. exact Hin.
Defined.

End BackendApi.

(* ===================================================================== *)
(** ** The SQLite backend *)
(* ===================================================================== *)

Module Backend.

Local Open Scope Z_scope.

(** *** The schema of database/db.js

    A column holds a value of the type the schema declares for it; a
    nullable column is an [option].  REAL values are kept as exact decimals
    [m * 10^e]. *)
Definition real : Type := (Z * Z)%type.

Record user_row : Type := {
  u_id : Z;
  u_username : string;
  u_password_hash : string;
  u_role : option string;
  u_created_at : string;
  u_last_login : option string
}.

Record ticket_row : Type := {
  t_id : Z;
  t_ticket_id : string;
  t_user_id : option Z;
  t_plate : option string;
  t_vehicles : option Z;
  t_damage : option string;
  t_status : option string;
  t_created_at : string;
  t_updated_at : string
}.

Record conversation_row : Type := {
  c_id : Z;
  c_ticket_id : string;
  c_role : string;
  c_content : string;
  c_audio_path : option string;
  c_transcription : option string;
  c_created_at : string
}.

Record finding_row : Type := {
  f_id : Z;
  f_ticket_id : string;
  f_field_name : string;
  f_field_value : option string;
  f_confidence : option real;
  f_source : option string;
  f_created_at : string
}.

Record audio_row : Type := {
  a_id : Z;
  a_ticket_id : string;
  a_file_path : string;
  a_file_type : option string;
  a_duration : option real;
  a_created_at : string
}.

Record attachment_row : Type := {
  x_id : Z;
  x_ticket_id : string;
  x_filename : string;
  x_original_name : string;
  x_file_path : string;
  x_file_type : string;
  x_attachment_type : option string;
  x_size : option Z;
  x_created_at : string
}.

(** The database: the six tables in insertion order, and for each the
    largest rowid ever handed out (what AUTOINCREMENT keeps in
    sqlite_sequence). *)
Record db : Type := {
  users : list user_row;
  tickets : list ticket_row;
  conversations : list conversation_row;
  findings : list finding_row;
  audio_files : list audio_row;
  attachments : list attachment_row;
  seq_users : Z;
  seq_tickets : Z;
  seq_conversations : Z;
  seq_findings : Z;
  seq_audio_files : Z;
  seq_attachments : Z
}.

Definition empty_db : db :=
  {| users := []; tickets := []; conversations := []; findings := [];
     audio_files := []; attachments := [];
     seq_users := 0; seq_tickets := 0; seq_conversations := 0; seq_findings := 0;
     seq_audio_files := 0; seq_attachments := 0 |}.

(** *** The driver

    A statement either runs, giving the new database and
    [lastInsertRowid] / [changes], or throws.  The error carries the [code]
    the driver puts on it: better-sqlite3 reports SQLite's extended result
    code there (SQLITE_CONSTRAINT_UNIQUE, SQLITE_CONSTRAINT_FOREIGNKEY,
    SQLITE_CONSTRAINT_NOTNULL), not the primary code SQLITE_CONSTRAINT.  A
    statement that throws changes nothing.  Foreign keys are enforced
    ([db.pragma('foreign_keys = ON')]). *)
Inductive error : Type :=
| SqliteError (code message : string).

Definition error_code (e : error) : string :=
  match e with SqliteError code _ => code end.

Definition error_message (e : error) : string :=
  match e with SqliteError _ message => message end.

Inductive result (A : Type) : Type :=
| Done (d : db) (info : A)
| Raised (e : error).
Arguments Done {A} d info.
Arguments Raised {A} e.

Definition unique_violation (what : string) : error :=
  SqliteError "SQLITE_CONSTRAINT_UNIQUE" ("UNIQUE constraint failed: " ++ what).

Definition foreign_key_violation : error :=
  SqliteError "SQLITE_CONSTRAINT_FOREIGNKEY" "FOREIGN KEY constraint failed".

Definition not_null_violation (what : string) : error :=
  SqliteError "SQLITE_CONSTRAINT_NOTNULL" ("NOT NULL constraint failed: " ++ what).

Definition ticket_exists (ticket_id : string) (d : db) : bool :=
  existsb (fun t => t_ticket_id t =? ticket_id)%string (tickets d).

Definition user_exists (id : Z) (d : db) : bool :=
  existsb (fun u => u_id u =? id) (users d).

Definition username_taken (name : string) (d : db) : bool :=
  existsb (fun u => u_username u =? name)%string (users d).

Definition with_users (l : list user_row) (s : Z) (d : db) : db :=
  {| users := l; tickets := tickets d; conversations := conversations d;
     findings := findings d; audio_files := audio_files d;
     attachments := attachments d;
     seq_users := s; seq_tickets := seq_tickets d;
     seq_conversations := seq_conversations d; seq_findings := seq_findings d;
     seq_audio_files := seq_audio_files d; seq_attachments := seq_attachments d |}.

Definition with_tickets (l : list ticket_row) (s : Z) (d : db) : db :=
  {| users := users d; tickets := l; conversations := conversations d;
     findings := findings d; audio_files := audio_files d;
     attachments := attachments d;
     seq_users := seq_users d; seq_tickets := s;
     seq_conversations := seq_conversations d; seq_findings := seq_findings d;
     seq_audio_files := seq_audio_files d; seq_attachments := seq_attachments d |}.

Definition with_conversations (l : list conversation_row) (s : Z) (d : db) : db :=
  {| users := users d; tickets := tickets d; conversations := l;
     findings := findings d; audio_files := audio_files d;
     attachments := attachments d;
     seq_users := seq_users d; seq_tickets := seq_tickets d;
     seq_conversations := s; seq_findings := seq_findings d;
     seq_audio_files := seq_audio_files d; seq_attachments := seq_attachments d |}.

Definition with_findings (l : list finding_row) (s : Z) (d : db) : db :=
  {| users := users d; tickets := tickets d; conversations := conversations d;
     findings := l; audio_files := audio_files d;
     attachments := attachments d;
     seq_users := seq_users d; seq_tickets := seq_tickets d;
     seq_conversations := seq_conversations d; seq_findings := s;
     seq_audio_files := seq_audio_files d; seq_attachments := seq_attachments d |}.

Definition with_audio_files (l : list audio_row) (s : Z) (d : db) : db :=
  {| users := users d; tickets := tickets d; conversations := conversations d;
     findings := findings d; audio_files := l;
     attachments := attachments d;
     seq_users := seq_users d; seq_tickets := seq_tickets d;
     seq_conversations := seq_conversations d; seq_findings := seq_findings d;
     seq_audio_files := s; seq_attachments := seq_attachments d |}.

Definition with_attachments (l : list attachment_row) (s : Z) (d : db) : db :=
  {| users := users d; tickets := tickets d; conversations := conversations d;
     findings := findings d; audio_files := audio_files d;
     attachments := l;
     seq_users := seq_users d; seq_tickets := seq_tickets d;
     seq_conversations := seq_conversations d; seq_findings := seq_findings d;
     seq_audio_files := seq_audio_files d; seq_attachments := s |}.

(** INSERT INTO users (username, password_hash, role).  A parameter bound to
    [null] is [None]. *)
Definition insert_user (now : string) (username password_hash : option string)
    (role : option string) (d : db) : result Z :=
  match username, password_hash with
  | None, _ => Raised (not_null_violation "users.username")
  | _, None => Raised (not_null_violation "users.password_hash")
  | Some name, Some hash =>
      if username_taken name d then Raised (unique_violation "users.username")
      else
        let id := seq_users d + 1 in
        Done (with_users
                (users d ++ [{| u_id := id; u_username := name;
                                u_password_hash := hash; u_role := role;
                                u_created_at := now; u_last_login := None |}])
                id d) id
  end.

(** INSERT INTO tickets (ticket_id, user_id, plate, vehicles, damage), with
    the default of [status]; with [or_ignore], INSERT OR IGNORE INTO tickets
    (ticket_id, plate, vehicles, damage, status), which skips the row on a
    uniqueness conflict instead of throwing. *)
Definition insert_ticket (or_ignore : bool) (now : string) (ticket_id : option string)
    (user_id : option Z) (plate : option string) (vehicles : option Z)
    (damage : option string) (status : option string) (d : db) : result Z :=
  match ticket_id with
  | None =>
      if or_ignore then Done d 0
      else Raised (not_null_violation "tickets.ticket_id")
  | Some tid =>
      if ticket_exists tid d then
        if or_ignore then Done d 0
        else Raised (unique_violation "tickets.ticket_id")
      else if match user_id with Some u => negb (user_exists u d) | None => false end
      then Raised foreign_key_violation
      else
        let id := seq_tickets d + 1 in
        Done (with_tickets
                (tickets d ++ [{| t_id := id; t_ticket_id := tid; t_user_id := user_id;
                                  t_plate := plate; t_vehicles := vehicles;
                                  t_damage := damage; t_status := status;
                                  t_created_at := now; t_updated_at := now |}])
                id d) id
  end.

Definition insert_conversation (now : string) (ticket_id role content : option string)
    (audio_path transcription : option string) (d : db) : result Z :=
  match ticket_id, role, content with
  | None, _, _ => Raised (not_null_violation "conversations.ticket_id")
  | _, None, _ => Raised (not_null_violation "conversations.role")
  | _, _, None => Raised (not_null_violation "conversations.content")
  | Some tid, Some r, Some c =>
      if negb (ticket_exists tid d) then Raised foreign_key_violation
      else
        let id := seq_conversations d + 1 in
        Done (with_conversations
                (conversations d ++ [{| c_id := id; c_ticket_id := tid; c_role := r;
                                        c_content := c; c_audio_path := audio_path;
                                        c_transcription := transcription;
                                        c_created_at := now |}])
                id d) id
  end.

Definition insert_finding (now : string) (ticket_id field_name : option string)
    (field_value : option string) (confidence : option real) (source : option string)
    (d : db) : result Z :=
  match ticket_id, field_name with
  | None, _ => Raised (not_null_violation "findings.ticket_id")
  | _, None => Raised (not_null_violation "findings.field_name")
  | Some tid, Some name =>
      if negb (ticket_exists tid d) then Raised foreign_key_violation
      else
        let id := seq_findings d + 1 in
        Done (with_findings
                (findings d ++ [{| f_id := id; f_ticket_id := tid; f_field_name := name;
                                   f_field_value := field_value;
                                   f_confidence := confidence; f_source := source;
                                   f_created_at := now |}])
                id d) id
  end.

Definition insert_audio_file (now : string) (ticket_id file_path : option string)
    (file_type : option string) (duration : option real) (d : db) : result Z :=
  match ticket_id, file_path with
  | None, _ => Raised (not_null_violation "audio_files.ticket_id")
  | _, None => Raised (not_null_violation "audio_files.file_path")
  | Some tid, Some p =>
      if negb (ticket_exists tid d) then Raised foreign_key_violation
      else
        let id := seq_audio_files d + 1 in
        Done (with_audio_files
                (audio_files d ++ [{| a_id := id; a_ticket_id := tid; a_file_path := p;
                                      a_file_type := file_type; a_duration := duration;
                                      a_created_at := now |}])
                id d) id
  end.

Definition insert_attachment (now : string)
    (ticket_id filename original_name file_path file_type : option string)
    (attachment_type : option string) (size : option Z) (d : db) : result Z :=
  match ticket_id, filename, original_name, file_path, file_type with
  | None, _, _, _, _ => Raised (not_null_violation "attachments.ticket_id")
  | _, None, _, _, _ => Raised (not_null_violation "attachments.filename")
  | _, _, None, _, _ => Raised (not_null_violation "attachments.original_name")
  | _, _, _, None, _ => Raised (not_null_violation "attachments.file_path")
  | _, _, _, _, None => Raised (not_null_violation "attachments.file_type")
  | Some tid, Some name, Some orig, Some p, Some ty =>
      if negb (ticket_exists tid d) then Raised foreign_key_violation
      else
        let id := seq_attachments d + 1 in
        Done (with_attachments
                (attachments d ++ [{| x_id := id; x_ticket_id := tid; x_filename := name;
                                      x_original_name := orig; x_file_path := p;
                                      x_file_type := ty;
                                      x_attachment_type := attachment_type;
                                      x_size := size; x_created_at := now |}])
                id d) id
  end.

(** DELETE FROM tickets WHERE ticket_id = ?, with the ON DELETE CASCADE of
    the four tables that reference it; the info is [changes], the number of
    tickets rows deleted. *)
Definition delete_ticket (ticket_id : string) (d : db) : db * Z :=
  let keep_t := filter (fun t => negb (t_ticket_id t =? ticket_id)%string) (tickets d) in
  let changes := Z.of_nat (List.length (tickets d)) - Z.of_nat (List.length keep_t) in
  if changes =? 0 then (d, 0)
  else
    ({| users := users d; tickets := keep_t;
        conversations :=
          filter (fun c => negb (c_ticket_id c =? ticket_id)%string) (conversations d);
        findings := filter (fun f => negb (f_ticket_id f =? ticket_id)%string) (findings d);
        audio_files :=
          filter (fun a => negb (a_ticket_id a =? ticket_id)%string) (audio_files d);
        attachments :=
          filter (fun x => negb (x_ticket_id x =? ticket_id)%string) (attachments d);
        seq_users := seq_users d; seq_tickets := seq_tickets d;
        seq_conversations := seq_conversations d; seq_findings := seq_findings d;
        seq_audio_files := seq_audio_files d; seq_attachments := seq_attachments d |},
     changes).

(** COALESCE(?, column) *)
Definition coalesce {A : Type} (new old : option A) : option A :=
  match new with Some v => Some v | None => old end.

(** UPDATE tickets SET plate = COALESCE(?, plate), ..., updated_at =
    CURRENT_TIMESTAMP WHERE ticket_id = ? *)
Definition update_ticket (now : string) (plate : option string) (vehicles : option Z)
    (damage status : option string) (ticket_id : string) (d : db) : db :=
  with_tickets
    (map (fun t =>
            if (t_ticket_id t =? ticket_id)%string then
              {| t_id := t_id t; t_ticket_id := t_ticket_id t; t_user_id := t_user_id t;
                 t_plate := coalesce plate (t_plate t);
                 t_vehicles := coalesce vehicles (t_vehicles t);
                 t_damage := coalesce damage (t_damage t);
                 t_status := coalesce status (t_status t);
                 t_created_at := t_created_at t; t_updated_at := now |}
            else t)
         (tickets d))
    (seq_tickets d) d.

(** UPDATE users SET last_login = CURRENT_TIMESTAMP WHERE id = ? *)
Definition update_last_login (now : string) (id : Z) (d : db) : db :=
  with_users
    (map (fun u =>
            if u_id u =? id then
              {| u_id := u_id u; u_username := u_username u;
                 u_password_hash := u_password_hash u; u_role := u_role u;
                 u_created_at := u_created_at u; u_last_login := Some now |}
            else u)
         (users d))
    (seq_users d) d.

(** DELETE FROM audio_files WHERE file_path = ? *)
Definition delete_audio_file (file_path : string) (d : db) : db :=
  with_audio_files
    (filter (fun a => negb (a_file_path a =? file_path)%string) (audio_files d))
    (seq_audio_files d) d.

(** SELECT * FROM tickets WHERE ticket_id = ? / WHERE id = ? *)
Definition select_ticket (ticket_id : string) (d : db) : option ticket_row :=
  find (fun t => t_ticket_id t =? ticket_id)%string (tickets d).

Definition select_ticket_by_rowid (id : Z) (d : db) : option ticket_row :=
  find (fun t => t_id t =? id) (tickets d).

Definition select_attachments (ticket_id : string) (d : db) : list attachment_row :=
  filter (fun x => x_ticket_id x =? ticket_id)%string (attachments d).

Definition select_user (username : string) (d : db) : option user_row :=
  find (fun u => u_username u =? username)%string (users d).

(** *** The routes

    A request body field is taken at the type of the column it feeds;
    [None] is an absent (or [null]) field. *)

(** The payload of a token. *)
Record claims : Type := {
  k_id : Z;
  k_username : string;
  k_role : option string
}.

Inductive payload : Type :=
| NoData
| ErrorDetail (error : string)
| TicketCreated (ticket : option ticket_row) (attached : list attachment_row)
| TicketData (ticket : option ticket_row)
| TicketDetail (ticket : ticket_row) (cs : list conversation_row)
    (fs : list finding_row) (audio : list audio_row) (attached : list attachment_row)
| TicketList (all : list (ticket_row * list attachment_row))
| ConversationData (c : option conversation_row)
| FindingData (f : option finding_row)
| LoginData (token : string) (user : claims) (loginTime : string)
| UserData (user : claims)
| FileData (filename : string).

Record response : Type := {
  status : nat;
  success : bool;
  message : option string;
  data : payload
}.

Definition ok (code : nat) (message : option string) (p : payload) : response :=
  {| status := code; success := true; message := message; data := p |}.

Definition failure (code : nat) (message : string) : response :=
  {| status := code; success := false; message := Some message; data := NoData |}.

Definition failure_with (code : nat) (message error : string) : response :=
  {| status := code; success := false; message := Some message;
     data := ErrorDetail error |}.

(** [x || y] on strings and numbers. *)
Definition truthy_string (x : option string) : bool :=
  match x with Some s => negb (s =? "")%string | None => false end.

Definition truthy_Z (x : option Z) : bool :=
  match x with Some n => negb (n =? 0) | None => false end.

Definition truthy_real (x : option real) : bool :=
  match x with Some (m, _) => negb (m =? 0) | None => false end.

Definition or_string (x y : option string) : option string :=
  if truthy_string x then x else y.

Definition or_Z (x y : option Z) : option Z := if truthy_Z x then x else y.

Definition or_real (x y : option real) : option real := if truthy_real x then x else y.

Section Routes.

(** The libraries the routes call. *)
Variable JWT_SECRET : string.
Variable jwt_sign : claims -> string -> string -> string.
Variable jwt_verify : string -> string -> option claims.
Variable bcrypt_compare : string -> string -> bool.

(** [header.split(' ')[1]] *)
Fixpoint until_space (s : string) : string * option string :=
  match s with
  | EmptyString => (EmptyString, None)
  | String c rest =>
      if (c =? " ")%char then (EmptyString, Some rest)
      else let '(w, r) := until_space rest in (String c w, r)
  end.

Definition second_word (header : string) : option string :=
  match snd (until_space header) with
  | Some rest => Some (fst (until_space rest))
  | None => None
  end.

(** The [verifyToken] middleware: the claims to put in [req.user], or the
    answer that ends the request. *)
Definition verifyToken (authorization : option string) : claims + response :=
  match authorization with
  | None => inr (failure 401 "No token provided")
  | Some header =>
      match second_word header with
      | None => inr (failure 401 "No token provided")
      | Some token =>
          if (token =? "")%string then inr (failure 401 "No token provided")
          else
            match jwt_verify token JWT_SECRET with
            | Some decoded => inl decoded
            | None => inr (failure 401 "Invalid token")
            end
      end
  end.

(** GET /api/tickets and GET /api/tickets/:ticketId; rows come in insertion
    order (the ORDER BY on creation time is not modelled). *)
Definition list_tickets (authorization : option string) (d : db) : response :=
  match verifyToken authorization with
  | inr r => r
  | inl _ =>
      ok 200 None
        (TicketList (map (fun t => (t, select_attachments (t_ticket_id t) d)) (tickets d)))
  end.

Definition get_ticket (authorization : option string) (ticketId : string) (d : db)
  : response :=
  match verifyToken authorization with
  | inr r => r
  | inl _ =>
      match select_ticket ticketId d with
      | None => failure 404 "Ticket not found"
      | Some t =>
          ok 200 None
            (TicketDetail t
               (filter (fun c => c_ticket_id c =? ticketId)%string (conversations d))
               (filter (fun f => f_ticket_id f =? ticketId)%string (findings d))
               (filter (fun a => a_ticket_id a =? ticketId)%string (audio_files d))
               (select_attachments ticketId d))
      end
  end.

(** POST /api/tickets *)
Record attachment_body : Type := {
  b_filename : option string;
  b_originalName : option string;
  b_filePath : option string;
  b_url : option string;
  b_fileType : option string;
  b_attachmentType : option string;
  b_type : option string;
  b_size : option Z
}.

Record create_body : Type := {
  b_ticket_id : option string;
  b_plate : option string;
  b_vehicles : option Z;
  b_damage : option string;
  b_user_id : option Z;
  b_attachments : option (list (option attachment_body))
}.

(** One turn of the loop over the attachments: a failed insert is caught
    and the loop goes on.  A [null] entry throws before the insert. *)
Definition attach_one (now ticket_id : string) (d : db) (a : option attachment_body)
  : db :=
  match a with
  | None => d
  | Some a =>
      match insert_attachment now (Some ticket_id) (b_filename a)
              (or_string (b_originalName a) (b_filename a))
              (or_string (b_filePath a) (b_url a))
              (or_string (b_fileType a) (Some "image/jpeg"))
              (or_string (or_string (b_attachmentType a) (b_type a)) (Some "unknown"))
              (or_Z (b_size a) (Some 0)) d with
      | Done d' _ => d'
      | Raised _ => d
      end
  end.

(** The [catch] of POST /api/tickets. *)
Definition create_catch (e : error) : response :=
  if (error_code e =? "SQLITE_CONSTRAINT")%string
  then failure 409 "Ticket ID already exists"
  else failure_with 500 "Error creating ticket" (error_message e).

Definition create_ticket (now : string) (b : create_body) (d : db) : db * response :=
  match b_ticket_id b with
  | None => (d, failure 400 "Ticket ID is required")
  | Some ticket_id =>
      if (ticket_id =? "")%string then (d, failure 400 "Ticket ID is required")
      else
        match insert_ticket false now (Some ticket_id)
                (or_Z (b_user_id b) None) (or_string (b_plate b) None)
                (or_Z (b_vehicles b) (Some 1)) (or_string (b_damage b) None)
                (Some "open") d with
        | Done d1 rowid =>
            let d2 :=
              match b_attachments b with
              | Some l => fold_left (attach_one now ticket_id) l d1
              | None => d1
              end in
            (d2, ok 201 (Some "Ticket created successfully")
                   (TicketCreated (select_ticket_by_rowid rowid d2)
                      (select_attachments ticket_id d2)))
        | Raised e => (d, create_catch e)
        end
  end.

(** PUT /api/tickets/:ticketId *)
Record update_body : Type := {
  p_plate : option string;
  p_vehicles : option Z;
  p_damage : option string;
  p_status : option string
}.

Definition put_ticket (now : string) (authorization : option string)
    (ticketId : string) (b : update_body) (d : db) : db * response :=
  match verifyToken authorization with
  | inr r => (d, r)
  | inl _ =>
      match select_ticket ticketId d with
      | None => (d, failure 404 "Ticket not found")
      | Some _ =>
          let d' := update_ticket now (p_plate b) (p_vehicles b) (p_damage b)
                      (p_status b) ticketId d in
          (d', ok 200 (Some "Ticket updated successfully")
                 (TicketData (select_ticket ticketId d')))
      end
  end.

(** DELETE /api/tickets/:ticketId *)
Definition is_admin (user : claims) : bool :=
  match k_role user with Some r => (r =? "admin")%string | None => false end.

Definition delete_ticket_route (authorization : option string) (ticketId : string)
    (d : db) : db * response :=
  match verifyToken authorization with
  | inr r => (d, r)
  | inl user =>
      if negb (is_admin user) then (d, failure 403 "Admin access required")
      else
        let '(d', changes) := delete_ticket ticketId d in
        if changes =? 0 then (d', failure 404 "Ticket not found")
        else (d', ok 200 (Some "Ticket deleted successfully") NoData)
  end.

(** POST /api/tickets/:ticketId/conversations and .../findings *)
Record conversation_body : Type := {
  v_role : option string;
  v_content : option string;
  v_audio_path : option string;
  v_transcription : option string
}.

Definition add_conversation (now ticketId : string) (b : conversation_body) (d : db)
  : db * response :=
  if negb (truthy_string (v_role b)) || negb (truthy_string (v_content b)) then
    (d, failure 400 "Role and content are required")
  else
    match insert_conversation now (Some ticketId) (v_role b) (v_content b)
            (or_string (v_audio_path b) None) (or_string (v_transcription b) None) d with
    | Done d' rowid =>
        (d', ok 201 (Some "Conversation added successfully")
               (ConversationData (find (fun c => c_id c =? rowid) (conversations d'))))
    | Raised _ => (d, failure 500 "Error adding conversation")
    end.

Record finding_body : Type := {
  g_field_name : option string;
  g_field_value : option string;
  g_confidence : option real;
  g_source : option string
}.

Definition add_finding (now ticketId : string) (b : finding_body) (d : db)
  : db * response :=
  if negb (truthy_string (g_field_name b)) then
    (d, failure 400 "Field name is required")
  else
    match insert_finding now (Some ticketId) (g_field_name b)
            (or_string (g_field_value b) None) (or_real (g_confidence b) None)
            (or_string (g_source b) (Some "manual")) d with
    | Done d' rowid =>
        (d', ok 201 (Some "Finding added successfully")
               (FindingData (find (fun f => f_id f =? rowid) (findings d'))))
    | Raised _ => (d, failure 500 "Error adding finding")
    end.

(** POST /api/auth/login.  [username] and [password] are JSON strings when
    present. *)
Definition login (now : string) (username password : option string) (d : db)
  : db * response :=
  match username, password with
  | Some name, Some pass =>
      if (name =? "")%string || (pass =? "")%string then
        (d, failure 400 "Username and password are required")
      else
        match select_user name d with
        | None => (d, failure 401 "Invalid username or password")
        | Some user =>
            if negb (bcrypt_compare pass (u_password_hash user)) then
              (d, failure 401 "Invalid username or password")
            else
              let who := {| k_id := u_id user; k_username := u_username user;
                            k_role := u_role user |} in
              (update_last_login now (u_id user) d,
               ok 200 (Some "Login successful")
                 (LoginData (jwt_sign who JWT_SECRET "24h") who now))
        end
  | _, _ => (d, failure 400 "Username and password are required")
  end.

(** The routes of routes/upload.js, as far as the database goes; the audio
    file itself is not modelled here.  [file] is [req.file]: the stored name
    and the MIME type. *)
Definition upload_audio (now : string) (file : option (string * string))
    (ticket_id : option string) (duration : option real) (d : db) : db * response :=
  match file with
  | None => (d, failure 400 "No audio file provided")
  | Some (filename, mimetype) =>
      if truthy_string ticket_id then
        match insert_audio_file now ticket_id (Some filename) (Some mimetype)
                (or_real duration None) d with
        | Done d' _ => (d', ok 200 (Some "Audio uploaded successfully") (FileData filename))
        | Raised e => (d, failure 500 (error_message e))
        end
      else (d, ok 200 (Some "Audio uploaded successfully") (FileData filename))
  end.

(** [groq] is how the transcription call ended: [None] for a failure, else
    [data.text] ([None] when the field is missing). *)
Definition transcribe (now : string) (file : option (string * string))
    (ticket_id : option string) (groq : option (option string)) (d : db)
  : db * response :=
  match file with
  | None => (d, failure 400 "No audio file provided")
  | Some (filename, mimetype) =>
      match groq with
      | None => (d, failure 500 "Groq API error")
      | Some transcription =>
          if truthy_string ticket_id then
            match insert_audio_file now ticket_id (Some filename) (Some mimetype) None d with
            | Raised e => (d, failure 500 (error_message e))
            | Done d1 _ =>
                match insert_conversation now ticket_id (Some "user") transcription
                        (Some filename) transcription d1 with
                | Raised e => (d1, failure 500 (error_message e))
                | Done d2 _ =>
                    (d2, ok 200 (Some "Audio transcribed successfully") (FileData filename))
                end
            end
          else (d, ok 200 (Some "Audio transcribed successfully") (FileData filename))
      end
  end.

Definition delete_audio (on_disk : bool) (filename : string) (d : db) : db * response :=
  if negb on_disk then (d, failure 404 "Audio file not found")
  else (delete_audio_file filename d,
        ok 200 (Some "Audio file deleted successfully") NoData).

(** database/init-db.js *)
Definition initializeAdminUser (now adminUsername passwordHash : string) (d : db) : db :=
  match select_user adminUsername d with
  | Some _ => d
  | None =>
      match insert_user now (Some adminUsername) (Some passwordHash) (Some "admin") d with
      | Done d' _ => d'
      | Raised _ => d
      end
  end.

Definition createSampleData (now : string) (d : db) : db :=
  let run (ticket_id plate : string) (vehicles : Z) (damage status : string) (d : db) :=
    match insert_ticket true now (Some ticket_id) None (Some plate) (Some vehicles)
            (Some damage) (Some status) d with
    | Done d' _ => d'
    | Raised _ => d
    end in
  run "A-1002" "XYZ5678" 1 "Side mirror broken" "pending"
    (run "A-1001" "ABC1234" 2 "Front bumper damage" "open" d).

(** *** The backend as a transition system *)
Inductive request : Type :=
| InitDb (adminUsername passwordHash : string)
| Login (username password : option string)
| ListTickets (authorization : option string)
| GetTicket (authorization : option string) (ticketId : string)
| CreateTicket (b : create_body)
| PutTicket (authorization : option string) (ticketId : string) (b : update_body)
| DeleteTicket (authorization : option string) (ticketId : string)
| AddConversation (ticketId : string) (b : conversation_body)
| AddFinding (ticketId : string) (b : finding_body)
| UploadAudio (file : option (string * string)) (ticket_id : option string)
    (duration : option real)
| Transcribe (file : option (string * string)) (ticket_id : option string)
    (groq : option (option string))
| DeleteAudio (on_disk : bool) (filename : string).

(** The database after a request made at time [now]. *)
Definition handle (now : string) (q : request) (d : db) : db :=
  match q with
  | InitDb name hash => createSampleData now (initializeAdminUser now name hash d)
  | Login u p => fst (login now u p d)
  | ListTickets _ => d
  | GetTicket _ _ => d
  | CreateTicket b => fst (create_ticket now b d)
  | PutTicket a t b => fst (put_ticket now a t b d)
  | DeleteTicket a t => fst (delete_ticket_route a t d)
  | AddConversation t b => fst (add_conversation now t b d)
  | AddFinding t b => fst (add_finding now t b d)
  | UploadAudio f t dur => fst (upload_audio now f t dur d)
  | Transcribe f t g => fst (transcribe now f t g d)
  | DeleteAudio k f => fst (delete_audio k f d)
  end.

(** The states the database can be in: the empty schema, then any requests. *)
Inductive reachable : db -> Prop :=
| reachable_empty : reachable empty_db
| reachable_step d now q : reachable d -> reachable (handle now q d).

(** *** The invariants of the schema *)

(** The ticket ids in the tickets table. *)
Definition ids (d : db) : list string := map t_ticket_id (tickets d).

(** No two rows of tickets have the same ticket_id. *)
Definition unique_ticket_ids (d : db) : Prop := NoDup (ids d).

(** Every row of the four referencing tables points to a tickets row. *)
Definition foreign_keys (d : db) : Prop :=
  (forall c, In c (conversations d) -> In (c_ticket_id c) (ids d))
  /\ (forall f, In f (findings d) -> In (f_ticket_id f) (ids d))
  /\ (forall a, In a (audio_files d) -> In (a_ticket_id a) (ids d))
  /\ (forall x, In x (attachments d) -> In (x_ticket_id x) (ids d)).

Definition consistent (d : db) : Prop := unique_ticket_ids d /\ foreign_keys d.

Lemma ticket_exists_ids tid d : ticket_exists tid d = true <-> In tid (ids d).
Proof.
  unfold ticket_exists, ids. rewrite existsb_exists, in_map_iff. split.
  - intros (t & Ht & E). apply String.eqb_eq in E. now exists t.
  - intros (t & E & Ht). exists t. split; [assumption|]. now apply String.eqb_eq.
Qed.

Lemma ticket_exists_false tid d : ticket_exists tid d = false <-> ~ In tid (ids d).
Proof.
  rewrite <- ticket_exists_ids. destruct (ticket_exists tid d); split; congruence.
Qed.

Lemma consistent_empty : consistent empty_db.
Proof.
  split; [constructor|]. repeat split; intros ? [].
Qed.

Lemma NoDup_snoc (l : list string) x : NoDup l -> ~ In x l -> NoDup (l ++ [x]).
Proof.
  intros Hl Hx. induction Hl as [|y l Hy Hl IH]; simpl.
  - constructor; [intros []|constructor].
  - constructor.
    + intros H. apply in_app_or in H as [H|[H|[]]]; [contradiction|].
      subst. apply Hx. now left.
    + apply IH. intros H. apply Hx. now right.
Qed.

Lemma insert_ticket_consistent or_ignore now tid uid plate vehicles damage st d d' info :
  insert_ticket or_ignore now tid uid plate vehicles damage st d = Done d' info ->
  consistent d -> consistent d'.
Proof.
  unfold insert_ticket. intros H [Hu (Hc & Hf & Ha & Hx)].
  destruct tid as [tid|]; [|destruct or_ignore; inversion H; subst; now split].
  destruct (ticket_exists tid d) eqn:E;
    [destruct or_ignore; inversion H; subst; now split|].
  destruct (match uid with Some u => negb (user_exists u d) | None => false end);
    [discriminate|].
  inversion H; subst. apply ticket_exists_false in E.
  split.
  - unfold unique_ticket_ids, ids. cbn [tickets with_tickets].
    rewrite map_app. now apply NoDup_snoc.
  - unfold foreign_keys, ids. cbn [tickets with_tickets conversations findings
                                   audio_files attachments].
    rewrite map_app.
    repeat split; intros r Hr; apply in_or_app; left; auto.
Qed.

Lemma insert_user_consistent now name hash role d d' info :
  insert_user now name hash role d = Done d' info -> consistent d -> consistent d'.
Proof.
  unfold insert_user. intros H Hd.
  destruct name as [name|]; [|discriminate].
  destruct hash as [hash|]; [|discriminate].
  destruct (username_taken name d); [discriminate|].
  inversion H; subst. exact Hd.
Qed.

Lemma insert_conversation_consistent now tid role content ap tr d d' info :
  insert_conversation now tid role content ap tr d = Done d' info ->
  consistent d -> consistent d'.
Proof.
  unfold insert_conversation. intros H [Hu (Hc & Hf & Ha & Hx)].
  destruct tid as [tid|]; [|discriminate].
  destruct role as [role|]; [|discriminate].
  destruct content as [content|]; [|discriminate].
  destruct (ticket_exists tid d) eqn:E; cbn [negb] in H; [|discriminate].
  inversion H; subst. apply ticket_exists_ids in E.
  split; [exact Hu|]. repeat split; try assumption.
  cbn [conversations with_conversations]. intros c Hin.
  apply in_app_or in Hin as [Hin|[<-|[]]]; [now apply Hc | exact E].
Qed.

Lemma insert_finding_consistent now tid name value conf src d d' info :
  insert_finding now tid name value conf src d = Done d' info ->
  consistent d -> consistent d'.
Proof.
  unfold insert_finding. intros H [Hu (Hc & Hf & Ha & Hx)].
  destruct tid as [tid|]; [|discriminate].
  destruct name as [name|]; [|discriminate].
  destruct (ticket_exists tid d) eqn:E; cbn [negb] in H; [|discriminate].
  inversion H; subst. apply ticket_exists_ids in E.
  split; [exact Hu|]. repeat split; try assumption.
  cbn [findings with_findings]. intros c Hin.
  apply in_app_or in Hin as [Hin|[<-|[]]]; [now apply Hf | exact E].
Qed.

Lemma insert_audio_file_consistent now tid path ty dur d d' info :
  insert_audio_file now tid path ty dur d = Done d' info ->
  consistent d -> consistent d'.
Proof.
  unfold insert_audio_file. intros H [Hu (Hc & Hf & Ha & Hx)].
  destruct tid as [tid|]; [|discriminate].
  destruct path as [path|]; [|discriminate].
  destruct (ticket_exists tid d) eqn:E; cbn [negb] in H; [|discriminate].
  inversion H; subst. apply ticket_exists_ids in E.
  split; [exact Hu|]. repeat split; try assumption.
  cbn [audio_files with_audio_files]. intros c Hin.
  apply in_app_or in Hin as [Hin|[<-|[]]]; [now apply Ha | exact E].
Qed.

Lemma insert_attachment_consistent now tid name orig path ty aty size d d' info :
  insert_attachment now tid name orig path ty aty size d = Done d' info ->
  consistent d -> consistent d'.
Proof.
  unfold insert_attachment. intros H [Hu (Hc & Hf & Ha & Hx)].
  destruct tid as [tid|]; [|discriminate].
  destruct name as [name|]; [|discriminate].
  destruct orig as [orig|]; [|discriminate].
  destruct path as [path|]; [|discriminate].
  destruct ty as [ty|]; [|discriminate].
  destruct (ticket_exists tid d) eqn:E; cbn [negb] in H; [|discriminate].
  inversion H; subst. apply ticket_exists_ids in E.
  split; [exact Hu|]. repeat split; try assumption.
  cbn [attachments with_attachments]. intros c Hin.
  apply in_app_or in Hin as [Hin|[<-|[]]]; [now apply Hx | exact E].
Qed.

Lemma ids_filter tid d :
  map t_ticket_id (filter (fun t => negb (t_ticket_id t =? tid)%string) (tickets d))
  = filter (fun i => negb (i =? tid)%string) (ids d).
Proof.
  unfold ids. induction (tickets d) as [|t rest IH]; simpl; [reflexivity|].
  destruct (t_ticket_id t =? tid)%string; simpl; now rewrite IH.
Qed.

Lemma NoDup_filter_str (p : string -> bool) l : NoDup l -> NoDup (filter p l).
Proof.
  intros H. induction H as [|x l Hx Hl IH]; simpl; [constructor|].
  destruct (p x); [|assumption]. constructor; [|assumption].
  intros Hin. apply filter_In in Hin as [Hin _]. contradiction.
Qed.

Lemma delete_ticket_consistent tid d :
  consistent d -> consistent (fst (delete_ticket tid d)).
Proof.
  intros [Hu (Hc & Hf & Ha & Hx)]. unfold delete_ticket.
  destruct (_ =? 0); [now split|]. cbn [fst].
  assert (Hkeep : forall i, In i (ids d) -> negb (i =? tid)%string = true ->
            In i (filter (fun i => negb (i =? tid)%string) (ids d))).
  { intros i Hi Hn. apply filter_In. now split. }
  split.
  - unfold unique_ticket_ids, ids. cbn [tickets]. fold (ids d).
    rewrite ids_filter. now apply NoDup_filter_str.
  - unfold foreign_keys, ids.
    cbn [tickets conversations findings audio_files attachments].
    rewrite ids_filter.
    repeat split; intros r Hr; apply filter_In in Hr as [Hr Hn]; apply Hkeep; auto.
Qed.

Lemma ids_update now plate vehicles damage st tid d :
  ids (update_ticket now plate vehicles damage st tid d) = ids d.
Proof.
  unfold ids, update_ticket. cbn [tickets with_tickets]. rewrite map_map.
  apply map_ext. intros t. now destruct (t_ticket_id t =? tid)%string.
Qed.

Lemma update_ticket_consistent now plate vehicles damage st tid d :
  consistent d -> consistent (update_ticket now plate vehicles damage st tid d).
Proof.
  intros [Hu Hfk]. split.
  - unfold unique_ticket_ids. now rewrite ids_update.
  - unfold foreign_keys. rewrite ids_update. exact Hfk.
Qed.

Lemma delete_audio_file_consistent path d :
  consistent d -> consistent (delete_audio_file path d).
Proof.
  intros [Hu (Hc & Hf & Ha & Hx)]. split; [exact Hu|].
  repeat split; try assumption.
  cbn [audio_files delete_audio_file with_audio_files]. intros a Hin.
  apply filter_In in Hin as [Hin _]. now apply Ha.
Qed.

Lemma attach_one_consistent now tid d a :
  consistent d -> consistent (attach_one now tid d a).
Proof.
  intros Hd. unfold attach_one. destruct a as [a|]; [|exact Hd].
  destruct (insert_attachment _ _ _ _ _ _ _ _ _) eqn:E; [|exact Hd].
  eapply insert_attachment_consistent; eassumption.
Qed.

Lemma attach_all_consistent now tid l d :
  consistent d -> consistent (fold_left (attach_one now tid) l d).
Proof.
  revert d; induction l as [|a l IH]; intros d Hd; [exact Hd|].
  cbn [fold_left]. apply IH. now apply attach_one_consistent.
Qed.

(** Every request keeps both invariants. *)
Lemma handle_consistent now q d : consistent d -> consistent (handle now q d).
Proof.
  intros Hd. destruct q; cbn [handle]; try exact Hd.
  - (* init-db *)
    assert (H1 : consistent (initializeAdminUser now adminUsername passwordHash d)).
    { unfold initializeAdminUser.
      destruct (select_user adminUsername d); [exact Hd|].
      destruct (insert_user _ _ _ _ _) eqn:E; [|exact Hd].
      eapply insert_user_consistent; eassumption. }
    unfold createSampleData.
    destruct (insert_ticket true now (Some "A-1001"%string) _ _ _ _ _ _) as [d1 i1|e1] eqn:E1.
    + apply (insert_ticket_consistent _ _ _ _ _ _ _ _ _ _ _ E1) in H1.
      destruct (insert_ticket true now (Some "A-1002"%string) _ _ _ _ _ _) eqn:E2;
        [|exact H1].
      eapply insert_ticket_consistent; eassumption.
    + destruct (insert_ticket true now (Some "A-1002"%string) _ _ _ _ _ _) eqn:E2;
        [|exact H1].
      eapply insert_ticket_consistent; eassumption.
  - (* login *)
    unfold login. destruct username as [name|]; [|exact Hd].
    destruct password as [pass|]; [|exact Hd].
    destruct ((name =? "")%string || (pass =? "")%string); [exact Hd|].
    destruct (select_user name d) as [user|]; [|exact Hd].
    destruct (negb (bcrypt_compare pass (u_password_hash user))); exact Hd.
  - (* create *)
    unfold create_ticket. destruct (b_ticket_id b) as [tid|]; [|exact Hd].
    destruct (tid =? "")%string; [exact Hd|].
    destruct (insert_ticket false now _ _ _ _ _ _ d) as [d1 rowid|e] eqn:E.
    + cbn [fst]. apply (insert_ticket_consistent _ _ _ _ _ _ _ _ _ _ _ E) in Hd.
      destruct (b_attachments b); [now apply attach_all_consistent | exact Hd].
    + exact Hd.
  - (* put *)
    unfold put_ticket. destruct (verifyToken authorization); [|exact Hd].
    destruct (select_ticket ticketId d); [|exact Hd].
    cbn [fst]. now apply update_ticket_consistent.
  - (* delete *)
    unfold delete_ticket_route. destruct (verifyToken authorization) as [user|]; [|exact Hd].
    destruct (negb (is_admin user)); [exact Hd|].
    pose proof (delete_ticket_consistent ticketId d Hd) as H.
    destruct (delete_ticket ticketId d) as [d' changes]. cbn [fst] in H.
    destruct (changes =? 0); exact H.
  - (* conversations *)
    unfold add_conversation.
    destruct (negb (truthy_string (v_role b)) || negb (truthy_string (v_content b)));
      [exact Hd|].
    destruct (insert_conversation _ _ _ _ _ _ _) eqn:E; [|exact Hd].
    eapply insert_conversation_consistent; eassumption.
  - (* findings *)
    unfold add_finding. destruct (negb (truthy_string (g_field_name b))); [exact Hd|].
    destruct (insert_finding _ _ _ _ _ _ _) eqn:E; [|exact Hd].
    eapply insert_finding_consistent; eassumption.
  - (* upload audio *)
    unfold upload_audio. destruct file as [[filename mimetype]|]; [|exact Hd].
    destruct (truthy_string ticket_id); [|exact Hd].
    destruct (insert_audio_file _ _ _ _ _ _) eqn:E; [|exact Hd].
    eapply insert_audio_file_consistent; eassumption.
  - (* transcribe *)
    unfold transcribe. destruct file as [[filename mimetype]|]; [|exact Hd].
    destruct groq as [transcription|]; [|exact Hd].
    destruct (truthy_string ticket_id); [|exact Hd].
    destruct (insert_audio_file _ _ _ _ _ _) as [d1 i1|e1] eqn:E1; [|exact Hd].
    apply (insert_audio_file_consistent _ _ _ _ _ _ _ _ E1) in Hd.
    destruct (insert_conversation _ _ _ _ _ _ _) eqn:E2; [|exact Hd].
    eapply insert_conversation_consistent; eassumption.
  - (* delete audio *)
    unfold delete_audio. destruct (negb on_disk); [exact Hd|].
    now apply delete_audio_file_consistent.
Qed.

Lemma reachable_consistent d : reachable d -> consistent d.
Proof.
  intros H. induction H as [|d now q H IH];
    [apply consistent_empty | now apply handle_consistent].
Qed.

(** The part of the uniqueness claim that holds on the code: no reachable
    database has two tickets rows with the same ticket_id. *)
Lemma reachable_unique_ticket_ids d :
  reachable d -> NoDup (map t_ticket_id (tickets d)).
Proof. intros H. exact (proj1 (reachable_consistent d H)). Qed.

(** POST /api/tickets with the ticket_id of an existing row inserts nothing;
    the statement throws with the driver's code for a uniqueness violation,
    which is not the code the handler compares with, so the answer is the
    generic 500 and not the 409. *)
Lemma create_duplicate now b tid d :
  b_ticket_id b = Some tid -> tid <> ""%string -> ticket_exists tid d = true ->
  create_ticket now b d
  = (d, failure_with 500 "Error creating ticket"
          "UNIQUE constraint failed: tickets.ticket_id").
Proof.
  intros Hb Hne Hex. unfold create_ticket, insert_ticket. rewrite Hb.
  apply String.eqb_neq in Hne. rewrite Hne, Hex. reflexivity.
Qed.

(** The 409 branch waits for the primary result code, which the driver
    never puts on an error of this statement. *)
Lemma create_catch_expects_primary_code message :
  create_catch (SqliteError "SQLITE_CONSTRAINT" message)
  = failure 409 "Ticket ID already exists".
Proof. reflexivity. Qed.

Lemma insert_ticket_error_code now tid uid plate vehicles damage st d e :
  insert_ticket false now tid uid plate vehicles damage st d = Raised e ->
  error_code e = "SQLITE_CONSTRAINT_NOTNULL"%string
  \/ error_code e = "SQLITE_CONSTRAINT_UNIQUE"%string
  \/ error_code e = "SQLITE_CONSTRAINT_FOREIGNKEY"%string.
Proof.
  unfold insert_ticket. destruct tid as [tid|].
  - destruct (ticket_exists tid d).
    + intros H. inversion H. auto.
    + destruct (match uid with Some u => negb (user_exists u d) | None => false end);
        [|discriminate].
      intros H. inversion H. auto.
  - intros H. inversion H. auto.
Qed.

(** So POST /api/tickets never answers 409. *)
Lemma create_ticket_never_409 now b d : status (snd (create_ticket now b d)) <> 409%nat.
Proof.
  unfold create_ticket. destruct (b_ticket_id b) as [tid|]; [|discriminate].
  destruct (tid =? "")%string; [discriminate|].
  destruct (insert_ticket false now _ _ _ _ _ _ d) as [d1 rowid|e] eqn:E; [discriminate|].
  cbn [snd]. unfold create_catch.
  destruct (insert_ticket_error_code _ _ _ _ _ _ _ _ _ E) as [-> | [-> | ->]];
    discriminate.
Qed.

(** *** Deleting a ticket *)

Lemma filter_length_le {A} (p : A -> bool) l :
  (List.length (filter p l) <= List.length l)%nat.
Proof.
  induction l as [|x l IH]; simpl; [lia|]. destruct (p x); simpl; lia.
Qed.

Lemma filter_length_all {A} (p : A -> bool) l :
  List.length (filter p l) = List.length l <-> forallb p l = true.
Proof.
  induction l as [|x l IH]; simpl; [tauto|].
  pose proof (filter_length_le p l). destruct (p x); simpl.
  - rewrite <- IH. split; intros; lia.
  - split; [lia | discriminate].
Qed.

Lemma no_change_iff_absent tid d :
  (Z.of_nat (List.length (tickets d))
   - Z.of_nat (List.length
                 (filter (fun t => negb (t_ticket_id t =? tid)%string) (tickets d)))
   =? 0) = negb (ticket_exists tid d).
Proof.
  unfold ticket_exists.
  set (p := fun t => negb (t_ticket_id t =? tid)%string).
  assert (Hall : forallb p (tickets d)
                 = negb (existsb (fun t => (t_ticket_id t =? tid)%string) (tickets d))).
  { induction (tickets d) as [|t l IH]; simpl; [reflexivity|].
    rewrite IH, negb_orb. reflexivity. }
  rewrite <- Hall.
  pose proof (filter_length_all p (tickets d)) as Hl.
  pose proof (filter_length_le p (tickets d)) as Hle.
  destruct (forallb p (tickets d)).
  - apply Z.eqb_eq. destruct Hl as [_ Hl]. rewrite (Hl eq_refl). lia.
  - apply Z.eqb_neq. intros H. destruct Hl as [Hl _].
    assert (He : List.length (filter p (tickets d)) = List.length (tickets d)) by lia.
    specialize (Hl He). discriminate.
Qed.

Lemma delete_existing authorization user ticketId d :
  verifyToken authorization = inl user -> is_admin user = true ->
  ticket_exists ticketId d = true ->
  snd (delete_ticket_route authorization ticketId d)
  = ok 200 (Some "Ticket deleted successfully"%string) NoData
  /\ tickets (fst (delete_ticket_route authorization ticketId d))
     = filter (fun t => negb (t_ticket_id t =? ticketId)%string) (tickets d)
  /\ attachments (fst (delete_ticket_route authorization ticketId d))
     = filter (fun x => negb (x_ticket_id x =? ticketId)%string) (attachments d)
  /\ conversations (fst (delete_ticket_route authorization ticketId d))
     = filter (fun c => negb (c_ticket_id c =? ticketId)%string) (conversations d)
  /\ findings (fst (delete_ticket_route authorization ticketId d))
     = filter (fun f => negb (f_ticket_id f =? ticketId)%string) (findings d)
  /\ audio_files (fst (delete_ticket_route authorization ticketId d))
     = filter (fun a => negb (a_ticket_id a =? ticketId)%string) (audio_files d)
  /\ users (fst (delete_ticket_route authorization ticketId d)) = users d.
Proof.
  intros Hv Ha He. unfold delete_ticket_route, delete_ticket.
  rewrite Hv, Ha. cbn [negb]. rewrite no_change_iff_absent, He. cbn [negb].
  rewrite no_change_iff_absent, He. cbn. repeat split.
Qed.

Lemma delete_missing authorization user ticketId d :
  verifyToken authorization = inl user -> is_admin user = true ->
  ticket_exists ticketId d = false ->
  delete_ticket_route authorization ticketId d = (d, failure 404 "Ticket not found").
Proof.
  intros Hv Ha He. unfold delete_ticket_route, delete_ticket.
  rewrite Hv, Ha. cbn [negb]. rewrite no_change_iff_absent, He. reflexivity.
Qed.

Lemma reachable_attachments d :
  reachable d ->
  forall x, In x (attachments d) ->
  exists t, In t (tickets d) /\ t_ticket_id t = x_ticket_id x.
Proof.
  intros H x Hx. destruct (reachable_consistent d H) as [_ (_ & _ & _ & Hfk)].
  specialize (Hfk x Hx). unfold ids in Hfk. apply in_map_iff in Hfk as (t & E & Ht).
  now exists t.
Qed.

(** C5.  Attachments belong to tickets.  In every reachable database each
    attachments row has the ticket_id of a tickets row.  DELETE
    /api/tickets/:ticketId with the token of an admin answers 200 and leaves
    the tickets, attachments, conversations, findings and audio_files tables
    without the rows of that ticket_id and with all their other rows; when
    no ticket has that id it answers 404 and the database is unchanged. *)
Theorem attachments_follow_tickets :
  (forall d,
      reachable d ->
      forall x, In x (attachments d) ->
      exists t, In t (tickets d) /\ t_ticket_id t = x_ticket_id x)
  /\ (forall authorization user ticketId d,
      verifyToken authorization = inl user -> is_admin user = true ->
      ticket_exists ticketId d = true ->
      snd (delete_ticket_route authorization ticketId d)
      = ok 200 (Some "Ticket deleted successfully"%string) NoData
      /\ tickets (fst (delete_ticket_route authorization ticketId d))
         = filter (fun t => negb (t_ticket_id t =? ticketId)%string) (tickets d)
      /\ attachments (fst (delete_ticket_route authorization ticketId d))
         = filter (fun x => negb (x_ticket_id x =? ticketId)%string) (attachments d)
      /\ conversations (fst (delete_ticket_route authorization ticketId d))
         = filter (fun c => negb (c_ticket_id c =? ticketId)%string) (conversations d)
      /\ findings (fst (delete_ticket_route authorization ticketId d))
         = filter (fun f => negb (f_ticket_id f =? ticketId)%string) (findings d)
      /\ audio_files (fst (delete_ticket_route authorization ticketId d))
         = filter (fun a => negb (a_ticket_id a =? ticketId)%string) (audio_files d)
      /\ users (fst (delete_ticket_route authorization ticketId d)) = users d)
  /\ (forall authorization user ticketId d,
      verifyToken authorization = inl user -> is_admin user = true ->
      ticket_exists ticketId d = false ->
      delete_ticket_route authorization ticketId d
      = (d, failure 404 "Ticket not found")).
Proof.
  exact (conj reachable_attachments (conj delete_existing delete_missing)).
Qed.

(** *** Logging in *)

Lemma select_user_exists name d :
  select_user name d <> None <-> exists u, In u (users d) /\ u_username u = name.
Proof.
  unfold select_user. split.
  - destruct (find _ (users d)) as [u|] eqn:E; [|congruence]. intros _.
    apply find_some in E as [Hin E]. apply String.eqb_eq in E. now exists u.
  - intros (u & Hin & E) H.
    apply (find_none _ _ H) in Hin. apply String.eqb_neq in Hin. contradiction.
Qed.

(** The credentials are both there and not empty. *)
Definition supplied (x : option string) : Prop :=
  exists s, x = Some s /\ s <> ""%string.

Lemma not_supplied x : ~ supplied x <-> x = None \/ x = Some ""%string.
Proof.
  unfold supplied. split.
  - intros H. destruct x as [s|]; [|now left].
    destruct (String.eqb_spec s "") as [->|Hne]; [now right|].
    exfalso. apply H. now exists s.
  - intros [-> | ->] (s & E & Hne); [discriminate|]. inversion E; subst. now apply Hne.
Qed.

Lemma login_missing now username password d :
  ~ supplied username \/ ~ supplied password ->
  login now username password d = (d, failure 400 "Username and password are required").
Proof.
  rewrite !not_supplied. unfold login.
  intros [[-> | ->] | [-> | ->]]; try reflexivity.
  - now destruct password.
  - destruct username as [name|]; [|reflexivity].
    destruct (name =? "")%string; reflexivity.
  - destruct username as [name|]; [|reflexivity].
    destruct (name =? "")%string; reflexivity.
Qed.

Lemma login_rejected now name pass d :
  name <> ""%string -> pass <> ""%string ->
  select_user name d = None
  \/ (exists user, select_user name d = Some user
                   /\ bcrypt_compare pass (u_password_hash user) = false) ->
  login now (Some name) (Some pass) d = (d, failure 401 "Invalid username or password").
Proof.
  intros Hn Hp H. unfold login.
  apply String.eqb_neq in Hn, Hp. rewrite Hn, Hp. cbn [orb].
  destruct H as [-> | (user & -> & Hc)]; [reflexivity|]. now rewrite Hc.
Qed.

Lemma login_accepted now name pass user d :
  name <> ""%string -> pass <> ""%string ->
  select_user name d = Some user ->
  bcrypt_compare pass (u_password_hash user) = true ->
  login now (Some name) (Some pass) d
  = (update_last_login now (u_id user) d,
     ok 200 (Some "Login successful"%string)
       (LoginData
          (jwt_sign {| k_id := u_id user; k_username := u_username user;
                       k_role := u_role user |} JWT_SECRET "24h")
          {| k_id := u_id user; k_username := u_username user; k_role := u_role user |}
          now)).
Proof.
  intros Hn Hp Hu Hc. unfold login.
  apply String.eqb_neq in Hn, Hp. rewrite Hn, Hp, Hu, Hc. reflexivity.
Qed.

Lemma login_success_iff now username password d :
  success (snd (login now username password d)) = true
  <-> exists name pass user,
        username = Some name /\ password = Some pass
        /\ name <> ""%string /\ pass <> ""%string
        /\ select_user name d = Some user
        /\ bcrypt_compare pass (u_password_hash user) = true.
Proof.
  split.
  - unfold login. destruct username as [name|]; [|discriminate].
    destruct password as [pass|]; [|discriminate].
    destruct (String.eqb_spec name "") as [->|Hn]; [discriminate|].
    destruct (String.eqb_spec pass "") as [->|Hp]; [discriminate|]. cbn [orb].
    destruct (select_user name d) as [user|] eqn:Eu; [|discriminate].
    destruct (bcrypt_compare pass (u_password_hash user)) eqn:Ec; [|discriminate].
    intros _. exists name, pass, user. auto 10.
  - intros (name & pass & user & -> & -> & Hn & Hp & Hu & Hc).
    now rewrite (login_accepted now name pass user d Hn Hp Hu Hc).
Qed.

(** C7.  Token issuance.  POST /api/auth/login answers success:true exactly
    when username and password are supplied, a user of that name exists and
    the password matches its stored hash for bcrypt; the answer then carries
    the token signed over the id, the name and the role of that user with an
    expiry of 24h.  A request with the username or the password missing (or
    empty) gets 400.  With both supplied, an unknown name or a password that
    does not match gets 401 with 'Invalid username or password', no token,
    and the database untouched. *)
Theorem login_issues_token :
  (forall now username password d,
      success (snd (login now username password d)) = true
      <-> exists name pass user,
            username = Some name /\ password = Some pass
            /\ name <> ""%string /\ pass <> ""%string
            /\ select_user name d = Some user
            /\ bcrypt_compare pass (u_password_hash user) = true)
  /\ (forall now name pass user d,
      name <> ""%string -> pass <> ""%string ->
      select_user name d = Some user ->
      bcrypt_compare pass (u_password_hash user) = true ->
      snd (login now (Some name) (Some pass) d)
      = ok 200 (Some "Login successful"%string)
          (LoginData
             (jwt_sign {| k_id := u_id user; k_username := u_username user;
                          k_role := u_role user |} JWT_SECRET "24h")
             {| k_id := u_id user; k_username := u_username user;
                k_role := u_role user |}
             now))
  /\ (forall now username password d,
      ~ supplied username \/ ~ supplied password ->
      login now username password d
      = (d, failure 400 "Username and password are required"))
  /\ (forall now name pass d,
      name <> ""%string -> pass <> ""%string ->
      select_user name d = None
      \/ (exists user, select_user name d = Some user
                       /\ bcrypt_compare pass (u_password_hash user) = false) ->
      login now (Some name) (Some pass) d
      = (d, failure 401 "Invalid username or password")).
Proof.
  split; [exact login_success_iff|].
  split; [|exact (conj login_missing login_rejected)].
  intros now name pass user d Hn Hp Hu Hc.
  now rewrite (login_accepted now name pass user d Hn Hp Hu Hc).
Qed.

(** *** Row ids

    AUTOINCREMENT hands out one more than the largest id ever used, which
    the sequence of the table records; so no row has an id above the
    sequence of its table, and the row that [lastInsertRowid] names is the
    row just inserted. *)
Definition rowids_bounded (d : db) : Prop :=
  Forall (fun t => t_id t <= seq_tickets d) (tickets d)
  /\ Forall (fun c => c_id c <= seq_conversations d) (conversations d)
  /\ Forall (fun f => f_id f <= seq_findings d) (findings d).

Ltac db_fields :=
  cbn [users tickets conversations findings audio_files attachments
       seq_users seq_tickets seq_conversations seq_findings seq_audio_files
       seq_attachments with_users with_tickets with_conversations with_findings
       with_audio_files with_attachments] in *.

Lemma Forall_le_snoc {A} (g : A -> Z) s l y :
  Forall (fun x => g x <= s) l -> g y = s + 1 ->
  Forall (fun x => g x <= s + 1) (l ++ [y]).
Proof.
  intros H E. apply Forall_app. split.
  - eapply Forall_impl; [|exact H]. cbn. intros; lia.
  - constructor; [lia|constructor].
Qed.

Lemma Forall_filter_keep {A} (P : A -> Prop) (p : A -> bool) l :
  Forall P l -> Forall P (filter p l).
Proof.
  rewrite !Forall_forall. intros H x Hx. apply filter_In in Hx as [Hx _]. auto.
Qed.

Lemma rowids_empty : rowids_bounded empty_db.
Proof. repeat split; constructor. Qed.

Lemma insert_ticket_rowids or_ignore now tid uid plate vehicles damage st d d' info :
  insert_ticket or_ignore now tid uid plate vehicles damage st d = Done d' info ->
  rowids_bounded d -> rowids_bounded d'.
Proof.
  unfold insert_ticket. intros H (Ht & Hc & Hf).
  destruct tid as [tid|]; [|destruct or_ignore; inversion H; subst; now repeat split].
  destruct (ticket_exists tid d);
    [destruct or_ignore; inversion H; subst; now repeat split|].
  destruct (match uid with Some u => negb (user_exists u d) | None => false end);
    [discriminate|].
  inversion H; subst. unfold rowids_bounded. db_fields.
  repeat split; try assumption. now apply Forall_le_snoc.
Qed.

Lemma insert_conversation_rowids now tid role content ap tr d d' info :
  insert_conversation now tid role content ap tr d = Done d' info ->
  rowids_bounded d -> rowids_bounded d'.
Proof.
  unfold insert_conversation. intros H (Ht & Hc & Hf).
  destruct tid as [tid|]; [|discriminate].
  destruct role as [role|]; [|discriminate].
  destruct content as [content|]; [|discriminate].
  destruct (negb (ticket_exists tid d)); [discriminate|].
  inversion H; subst. unfold rowids_bounded. db_fields.
  repeat split; try assumption. now apply Forall_le_snoc.
Qed.

Lemma insert_finding_rowids now tid name value conf src d d' info :
  insert_finding now tid name value conf src d = Done d' info ->
  rowids_bounded d -> rowids_bounded d'.
Proof.
  unfold insert_finding. intros H (Ht & Hc & Hf).
  destruct tid as [tid|]; [|discriminate].
  destruct name as [name|]; [|discriminate].
  destruct (negb (ticket_exists tid d)); [discriminate|].
  inversion H; subst. unfold rowids_bounded. db_fields.
  repeat split; try assumption. now apply Forall_le_snoc.
Qed.

Lemma insert_user_rowids now name hash role d d' info :
  insert_user now name hash role d = Done d' info ->
  rowids_bounded d -> rowids_bounded d'.
Proof.
  unfold insert_user. intros H Hd.
  destruct name as [name|]; [|discriminate].
  destruct hash as [hash|]; [|discriminate].
  destruct (username_taken name d); [discriminate|].
  inversion H; subst. exact Hd.
Qed.

Lemma insert_audio_file_rowids now tid path ty dur d d' info :
  insert_audio_file now tid path ty dur d = Done d' info ->
  rowids_bounded d -> rowids_bounded d'.
Proof.
  unfold insert_audio_file. intros H Hd.
  destruct tid as [tid|]; [|discriminate].
  destruct path as [path|]; [|discriminate].
  destruct (negb (ticket_exists tid d)); [discriminate|].
  inversion H; subst. exact Hd.
Qed.

Lemma insert_attachment_rowids now tid name orig path ty aty size d d' info :
  insert_attachment now tid name orig path ty aty size d = Done d' info ->
  rowids_bounded d -> rowids_bounded d'.
Proof.
  unfold insert_attachment. intros H Hd.
  destruct tid as [tid|]; [|discriminate].
  destruct name as [name|]; [|discriminate].
  destruct orig as [orig|]; [|discriminate].
  destruct path as [path|]; [|discriminate].
  destruct ty as [ty|]; [|discriminate].
  destruct (negb (ticket_exists tid d)); [discriminate|].
  inversion H; subst. exact Hd.
Qed.

Lemma delete_ticket_rowids tid d :
  rowids_bounded d -> rowids_bounded (fst (delete_ticket tid d)).
Proof.
  intros (Ht & Hc & Hf). unfold delete_ticket.
  destruct (_ =? 0); [now repeat split|]. cbn [fst].
  repeat split; db_fields; now apply Forall_filter_keep.
Qed.

Lemma update_ticket_rowids now plate vehicles damage st tid d :
  rowids_bounded d -> rowids_bounded (update_ticket now plate vehicles damage st tid d).
Proof.
  intros (Ht & Hc & Hf). unfold update_ticket, rowids_bounded. db_fields.
  repeat split; try assumption.
  apply Forall_map. eapply Forall_impl; [|exact Ht].
  intros t Hle. now destruct (t_ticket_id t =? tid)%string.
Qed.

Lemma attach_one_rowids now tid d a :
  rowids_bounded d -> rowids_bounded (attach_one now tid d a).
Proof.
  intros Hd. unfold attach_one. destruct a as [a|]; [|exact Hd].
  destruct (insert_attachment _ _ _ _ _ _ _ _ _) eqn:E; [|exact Hd].
  eapply insert_attachment_rowids; eassumption.
Qed.

Lemma attach_all_rowids now tid l d :
  rowids_bounded d -> rowids_bounded (fold_left (attach_one now tid) l d).
Proof.
  revert d; induction l as [|a l IH]; intros d Hd; [exact Hd|].
  cbn [fold_left]. apply IH. now apply attach_one_rowids.
Qed.

Lemma handle_rowids now q d : rowids_bounded d -> rowids_bounded (handle now q d).
Proof.
  intros Hd. destruct q; cbn [handle]; try exact Hd.
  - assert (H1 : rowids_bounded (initializeAdminUser now adminUsername passwordHash d)).
    { unfold initializeAdminUser.
      destruct (select_user adminUsername d); [exact Hd|].
      destruct (insert_user _ _ _ _ _) eqn:E; [|exact Hd].
      eapply insert_user_rowids; eassumption. }
    unfold createSampleData.
    destruct (insert_ticket true now (Some "A-1001"%string) _ _ _ _ _ _) as [d1 i1|e1] eqn:E1.
    + apply (insert_ticket_rowids _ _ _ _ _ _ _ _ _ _ _ E1) in H1.
      destruct (insert_ticket true now (Some "A-1002"%string) _ _ _ _ _ _) eqn:E2;
        [|exact H1].
      eapply insert_ticket_rowids; eassumption.
    + destruct (insert_ticket true now (Some "A-1002"%string) _ _ _ _ _ _) eqn:E2;
        [|exact H1].
      eapply insert_ticket_rowids; eassumption.
  - unfold login. destruct username as [name|]; [|exact Hd].
    destruct password as [pass|]; [|exact Hd].
    destruct ((name =? "")%string || (pass =? "")%string); [exact Hd|].
    destruct (select_user name d) as [user|]; [|exact Hd].
    destruct (negb (bcrypt_compare pass (u_password_hash user))); exact Hd.
  - unfold create_ticket. destruct (b_ticket_id b) as [tid|]; [|exact Hd].
    destruct (tid =? "")%string; [exact Hd|].
    destruct (insert_ticket false now _ _ _ _ _ _ d) as [d1 rowid|e] eqn:E.
    + cbn [fst]. apply (insert_ticket_rowids _ _ _ _ _ _ _ _ _ _ _ E) in Hd.
      destruct (b_attachments b); [now apply attach_all_rowids | exact Hd].
    + exact Hd.
  - unfold put_ticket. destruct (verifyToken authorization); [|exact Hd].
    destruct (select_ticket ticketId d); [|exact Hd].
    cbn [fst]. now apply update_ticket_rowids.
  - unfold delete_ticket_route. destruct (verifyToken authorization) as [user|]; [|exact Hd].
    destruct (negb (is_admin user)); [exact Hd|].
    pose proof (delete_ticket_rowids ticketId d Hd) as H.
    destruct (delete_ticket ticketId d) as [d' changes]. cbn [fst] in H.
    destruct (changes =? 0); exact H.
  - unfold add_conversation.
    destruct (negb (truthy_string (v_role b)) || negb (truthy_string (v_content b)));
      [exact Hd|].
    destruct (insert_conversation _ _ _ _ _ _ _) eqn:E; [|exact Hd].
    eapply insert_conversation_rowids; eassumption.
  - unfold add_finding. destruct (negb (truthy_string (g_field_name b))); [exact Hd|].
    destruct (insert_finding _ _ _ _ _ _ _) eqn:E; [|exact Hd].
    eapply insert_finding_rowids; eassumption.
  - unfold upload_audio. destruct file as [[filename mimetype]|]; [|exact Hd].
    destruct (truthy_string ticket_id); [|exact Hd].
    destruct (insert_audio_file _ _ _ _ _ _) eqn:E; [|exact Hd].
    eapply insert_audio_file_rowids; eassumption.
  - unfold transcribe. destruct file as [[filename mimetype]|]; [|exact Hd].
    destruct groq as [transcription|]; [|exact Hd].
    destruct (truthy_string ticket_id); [|exact Hd].
    destruct (insert_audio_file _ _ _ _ _ _) as [d1 i1|e1] eqn:E1; [|exact Hd].
    apply (insert_audio_file_rowids _ _ _ _ _ _ _ _ E1) in Hd.
    destruct (insert_conversation _ _ _ _ _ _ _) eqn:E2; [|exact Hd].
    eapply insert_conversation_rowids; eassumption.
  - unfold delete_audio. destruct (negb on_disk); exact Hd.
Qed.

Lemma reachable_rowids d : reachable d -> rowids_bounded d.
Proof.
  intros H. induction H as [|d now q H IH];
    [apply rowids_empty | now apply handle_rowids].
Qed.


(** *** Creating a ticket and reading it back *)

(** What a row of attachments holds besides its id, its ticket and its
    time. *)
Definition content (x : attachment_row)
  : string * string * string * string * option string * option Z :=
  (x_filename x, x_original_name x, x_file_path x, x_file_type x,
   x_attachment_type x, x_size x).

(** What one entry of the [attachments] array of the request leaves in the
    table: nothing when the entry is [null] or when, after the defaults of
    the handler, a NOT NULL column would stay without a value (the insert
    throws and the loop goes on). *)
Definition expected_attachment (a : option attachment_body)
  : option (string * string * string * string * option string * option Z) :=
  match a with
  | None => None
  | Some a =>
      match b_filename a, or_string (b_originalName a) (b_filename a),
            or_string (b_filePath a) (b_url a),
            or_string (b_fileType a) (Some "image/jpeg"%string) with
      | Some name, Some orig, Some p, Some ty =>
          Some (name, orig, p, ty,
                or_string (or_string (b_attachmentType a) (b_type a))
                  (Some "unknown"%string),
                or_Z (b_size a) (Some 0))
      | _, _, _, _ => None
      end
  end.

Fixpoint somes {A : Type} (l : list (option A)) : list A :=
  match l with
  | [] => []
  | Some x :: rest => x :: somes rest
  | None :: rest => somes rest
  end.

Lemma somes_app {A} (l1 l2 : list (option A)) : somes (l1 ++ l2) = somes l1 ++ somes l2.
Proof.
  induction l1 as [|[x|] l1 IH]; simpl; [reflexivity | now rewrite IH | exact IH].
Qed.

Lemma find_snoc_fresh {A} (p : A -> bool) l x :
  (forall y, In y l -> p y = false) -> p x = true -> find p (l ++ [x]) = Some x.
Proof.
  intros Hl Hx. induction l as [|y l IH]; simpl; [now rewrite Hx|].
  rewrite (Hl y (or_introl eq_refl)). apply IH. intros z Hz. apply Hl. now right.
Qed.

Lemma filter_nothing {A} (p : A -> bool) l :
  (forall y, In y l -> p y = false) -> filter p l = [].
Proof.
  intros Hl. induction l as [|y l IH]; simpl; [reflexivity|].
  rewrite (Hl y (or_introl eq_refl)). apply IH. intros z Hz. apply Hl. now right.
Qed.

Lemma filter_everything {A} (p : A -> bool) l :
  (forall y, In y l -> p y = true) -> filter p l = l.
Proof.
  intros Hl. induction l as [|y l IH]; simpl; [reflexivity|].
  rewrite (Hl y (or_introl eq_refl)). f_equal. apply IH. intros z Hz. apply Hl. now right.
Qed.

(** The loop over the attachments touches the attachments table only. *)
Lemma attach_one_frame now tid d a :
  tickets (attach_one now tid d a) = tickets d
  /\ conversations (attach_one now tid d a) = conversations d
  /\ findings (attach_one now tid d a) = findings d
  /\ audio_files (attach_one now tid d a) = audio_files d
  /\ users (attach_one now tid d a) = users d.
Proof.
  unfold attach_one. destruct a as [a|]; [|now repeat split].
  destruct (insert_attachment _ _ _ _ _ _ _ _ _) as [d' i|e] eqn:E; [|now repeat split].
  unfold insert_attachment in E.
  destruct (b_filename a); [|discriminate].
  destruct (or_string (b_originalName a) _); [|discriminate].
  destruct (or_string (b_filePath a) _); [|discriminate].
  destruct (or_string (b_fileType a) _); [|discriminate].
  destruct (negb (ticket_exists tid d)); [discriminate|].
  inversion E; subst. now repeat split.
Qed.

Lemma attach_all_frame now tid l d :
  tickets (fold_left (attach_one now tid) l d) = tickets d
  /\ conversations (fold_left (attach_one now tid) l d) = conversations d
  /\ findings (fold_left (attach_one now tid) l d) = findings d
  /\ audio_files (fold_left (attach_one now tid) l d) = audio_files d
  /\ users (fold_left (attach_one now tid) l d) = users d.
Proof.
  revert d; induction l as [|a l IH]; intros d; [now repeat split|].
  cbn [fold_left].
  destruct (IH (attach_one now tid d a)) as (H1 & H2 & H3 & H4 & H5).
  destruct (attach_one_frame now tid d a) as (G1 & G2 & G3 & G4 & G5).
  repeat split; congruence.
Qed.

Lemma attach_one_rows now tid d a :
  ticket_exists tid d = true ->
  exists news,
    attachments (attach_one now tid d a) = attachments d ++ news
    /\ map content news = somes [expected_attachment a]
    /\ Forall (fun x => x_ticket_id x = tid) news.
Proof.
  intros Hex. unfold attach_one, expected_attachment.
  destruct a as [a|]; [|exists []; rewrite app_nil_r; now repeat split].
  unfold insert_attachment.
  destruct (b_filename a) as [name|];
    [|exists []; rewrite app_nil_r; now repeat split].
  destruct (or_string (b_originalName a) _) as [orig|];
    [|exists []; rewrite app_nil_r; now repeat split].
  destruct (or_string (b_filePath a) _) as [p|];
    [|exists []; rewrite app_nil_r; now repeat split].
  destruct (or_string (b_fileType a) _) as [ty|];
    [|exists []; rewrite app_nil_r; now repeat split].
  rewrite Hex. cbn [negb]. eexists [_]. db_fields.
  split; [reflexivity|]. split; [reflexivity|]. now repeat constructor.
Qed.

Lemma attach_all_rows now tid l d :
  ticket_exists tid d = true ->
  exists news,
    attachments (fold_left (attach_one now tid) l d) = attachments d ++ news
    /\ map content news = somes (map expected_attachment l)
    /\ Forall (fun x => x_ticket_id x = tid) news.
Proof.
  revert d; induction l as [|a l IH]; intros d Hex.
  - exists []. rewrite app_nil_r. now repeat split.
  - cbn [fold_left map].
    destruct (attach_one_rows now tid d a Hex) as (n1 & E1 & C1 & F1).
    assert (Hex' : ticket_exists tid (attach_one now tid d a) = true).
    { unfold ticket_exists. destruct (attach_one_frame now tid d a) as (-> & _).
      exact Hex. }
    destruct (IH _ Hex') as (n2 & E2 & C2 & F2).
    exists (n1 ++ n2). rewrite E2, E1, app_assoc. split; [reflexivity|].
    split.
    + rewrite map_app, C1, C2.
      change (expected_attachment a :: map expected_attachment l)
        with ([expected_attachment a] ++ map expected_attachment l).
      now rewrite somes_app.
    + apply Forall_app. now split.
Qed.

(** A row of a referencing table cannot bear the id of a ticket that does
    not exist. *)
Lemma no_rows_of_missing_ticket tid d :
  foreign_keys d -> ticket_exists tid d = false ->
  filter (fun c => c_ticket_id c =? tid)%string (conversations d) = []
  /\ filter (fun f => f_ticket_id f =? tid)%string (findings d) = []
  /\ filter (fun a => a_ticket_id a =? tid)%string (audio_files d) = []
  /\ filter (fun x => x_ticket_id x =? tid)%string (attachments d) = [].
Proof.
  intros (Hc & Hf & Ha & Hx) Hno. apply ticket_exists_false in Hno.
  repeat split; apply filter_nothing; intros r Hr; apply String.eqb_neq;
    intros E; apply Hno; rewrite <- E; auto.
Qed.

(** X1.  Creating a ticket and reading it back.  On a database the backend
    can be in, POST /api/tickets with a ticket_id that is not empty and not
    yet taken (and a user_id that is absent or names a user) answers 201
    with the new row: the posted ticket_id, plate and damage as posted (NULL
    when absent or empty), vehicles as posted or 1, status 'open'.  The row
    is added at the end of the table.  The attachments of the answer are the
    entries of the request that fill every NOT NULL column after the
    defaults of the handler, and nothing else; a GET /api/tickets/:ticketId
    with a valid token then answers 200 with the same ticket, the same
    attachments, and no conversations, findings or audio files. *)
Theorem created_ticket_is_served now b tid d authorization user :
  reachable d ->
  b_ticket_id b = Some tid -> tid <> ""%string ->
  ticket_exists tid d = false ->
  match or_Z (b_user_id b) None with
  | Some u => user_exists u d = true
  | None => True
  end ->
  verifyToken authorization = inl user ->
  exists t atts atts',
    snd (create_ticket now b d)
    = ok 201 (Some "Ticket created successfully"%string) (TicketCreated (Some t) atts)
    /\ t_ticket_id t = tid
    /\ t_user_id t = or_Z (b_user_id b) None
    /\ t_plate t = or_string (b_plate b) None
    /\ t_vehicles t = or_Z (b_vehicles b) (Some 1)
    /\ t_damage t = or_string (b_damage b) None
    /\ t_status t = Some "open"%string
    /\ tickets (fst (create_ticket now b d)) = tickets d ++ [t]
    /\ Permutation (map content atts)
         (somes (map expected_attachment
                   (match b_attachments b with Some l => l | None => [] end)))
    /\ Forall (fun x => x_ticket_id x = tid) atts
    /\ get_ticket authorization tid (fst (create_ticket now b d))
       = ok 200 None (TicketDetail t [] [] [] atts')
    /\ Permutation atts' atts.
Proof.
  intros Hreach Hb Hne Hno Huser Hv.
  destruct (reachable_consistent d Hreach) as [_ Hfk].
  destruct (reachable_rowids d Hreach) as (Hrow & _ & _).
  destruct (no_rows_of_missing_ticket tid d Hfk Hno) as (Nc & Nf & Na & Nx).
  set (t := {| t_id := seq_tickets d + 1; t_ticket_id := tid;
               t_user_id := or_Z (b_user_id b) None;
               t_plate := or_string (b_plate b) None;
               t_vehicles := or_Z (b_vehicles b) (Some 1);
               t_damage := or_string (b_damage b) None;
               t_status := Some "open"%string;
               t_created_at := now; t_updated_at := now |}).
  set (d1 := with_tickets (tickets d ++ [t]) (seq_tickets d + 1) d).
  assert (Hins : insert_ticket false now (Some tid) (or_Z (b_user_id b) None)
                   (or_string (b_plate b) None) (or_Z (b_vehicles b) (Some 1))
                   (or_string (b_damage b) None) (Some "open"%string) d
                 = Done d1 (seq_tickets d + 1)).
  { unfold insert_ticket. rewrite Hno.
    destruct (or_Z (b_user_id b) None) as [u|]; [now rewrite Huser|reflexivity]. }
  assert (Hex1 : ticket_exists tid d1 = true).
  { apply ticket_exists_ids. unfold ids, d1. db_fields. rewrite map_app.
    apply in_or_app. right. now left. }
  set (l := match b_attachments b with Some l => l | None => [] end).
  set (d2 := fold_left (attach_one now tid) l d1).
  assert (Hd2 : fst (create_ticket now b d) = d2
                /\ snd (create_ticket now b d)
                   = ok 201 (Some "Ticket created successfully"%string)
                       (TicketCreated (select_ticket_by_rowid (seq_tickets d + 1) d2)
                          (select_attachments tid d2))).
  { unfold create_ticket. rewrite Hb. apply String.eqb_neq in Hne. rewrite Hne, Hins.
    unfold d2, l. destruct (b_attachments b); split; reflexivity. }
  destruct Hd2 as [Hfst Hsnd].
  destruct (attach_all_frame now tid l d1) as (Ft & Fc & Ff & Fa & _).
  fold d2 in Ft, Fc, Ff, Fa.
  destruct (attach_all_rows now tid l d1 Hex1) as (news & En & Cn & Fn).
  fold d2 in En.
  assert (Htickets : tickets d2 = tickets d ++ [t]) by (rewrite Ft; reflexivity).
  assert (Hsel : select_attachments tid d2 = news).
  { unfold select_attachments. rewrite En. unfold d1. db_fields.
    rewrite filter_app, Nx. cbn [app]. apply filter_everything.
    intros x Hx. rewrite Forall_forall in Fn. rewrite (Fn x Hx). apply String.eqb_refl. }
  assert (Hrowid : select_ticket_by_rowid (seq_tickets d + 1) d2 = Some t).
  { unfold select_ticket_by_rowid. rewrite Htickets. apply find_snoc_fresh.
    - intros y Hy. rewrite Forall_forall in Hrow. specialize (Hrow y Hy). cbn in Hrow.
      apply Z.eqb_neq. lia.
    - apply Z.eqb_refl. }
  assert (Hget : select_ticket tid d2 = Some t).
  { unfold select_ticket. rewrite Htickets. apply find_snoc_fresh.
    - intros y Hy. apply String.eqb_neq. intros E.
      apply ticket_exists_false in Hno. apply Hno. unfold ids. rewrite <- E.
      now apply in_map.
    - apply String.eqb_refl. }
  exists t, news, news.
  rewrite Hsnd, Hfst, Hrowid, Hsel.
  split; [reflexivity|]. do 6 (split; [reflexivity|]).
  split; [exact Htickets|].
  split; [rewrite Cn; apply Permutation_refl|].
  split; [exact Fn|].
  split; [|apply Permutation_refl].
  unfold get_ticket. rewrite Hv, Hget, Hsel, Fc, Ff, Fa.
  unfold d1. db_fields. now rewrite Nc, Nf, Na.
Qed.


(** *** The token guard *)

(** X2.  The routes behind [verifyToken].  When the middleware turns a
    request down (no Authorization header, no second word in it, or a token
    that [jwt.verify] rejects) the answer is a 401, and it is the answer of
    GET /api/tickets, GET /api/tickets/:ticketId, PUT /api/tickets/:ticketId
    and DELETE /api/tickets/:ticketId alike; PUT and DELETE leave the
    database as it was.  DELETE with a valid token whose role is not 'admin'
    answers 403 and deletes nothing. *)
Theorem protected_routes_need_token :
  (forall authorization r,
      verifyToken authorization = inr r ->
      status r = 401%nat /\ success r = false
      /\ (authorization = None
          \/ (exists header, authorization = Some header
                /\ (second_word header = None \/ second_word header = Some ""%string))
          \/ (exists header token, authorization = Some header
                /\ second_word header = Some token
                /\ jwt_verify token JWT_SECRET = None)))
  /\ (forall now authorization r d ticketId b,
      verifyToken authorization = inr r ->
      list_tickets authorization d = r
      /\ get_ticket authorization ticketId d = r
      /\ put_ticket now authorization ticketId b d = (d, r)
      /\ delete_ticket_route authorization ticketId d = (d, r))
  /\ (forall authorization user d ticketId,
      verifyToken authorization = inl user -> is_admin user = false ->
      delete_ticket_route authorization ticketId d
      = (d, failure 403 "Admin access required")).
Proof.
  split; [|split].
  - intros authorization r. unfold verifyToken.
    destruct authorization as [header|].
    + destruct (second_word header) as [token|] eqn:Ew.
      * destruct (String.eqb_spec token "") as [->|Hne].
        -- intros H. inversion H; subst. repeat split. right. left.
           exists header. auto.
        -- destruct (jwt_verify token JWT_SECRET) eqn:Ev; [discriminate|].
           intros H. inversion H; subst. repeat split. right. right.
           exists header, token. auto.
      * intros H. inversion H; subst. repeat split. right. left. exists header. auto.
    + intros H. inversion H; subst. repeat split. now left.
  - intros now authorization r d ticketId b Hv.
    unfold list_tickets, get_ticket, put_ticket, delete_ticket_route.
    rewrite Hv. now repeat split.
  - intros authorization user d ticketId Hv Ha. unfold delete_ticket_route.
    now rewrite Hv, Ha.
Qed.

(** *** Conversations and findings *)

(** X3.  Rows added to a ticket.  POST /api/tickets/:ticketId/conversations
    answers 400 unless role and content are both given and not empty; with
    both given it answers 500 and stores nothing when no ticket has that id
    (the foreign key refuses the row), and otherwise 201 with the new row,
    which is added at the end of the conversations table and holds the
    posted role and content.  POST .../findings does the same with
    field_name required and 'manual' as the source when none is given. *)
Theorem ticket_rows_need_ticket :
  (forall now ticketId b d,
      truthy_string (v_role b) = false \/ truthy_string (v_content b) = false ->
      add_conversation now ticketId b d = (d, failure 400 "Role and content are required"))
  /\ (forall now ticketId b d,
      truthy_string (v_role b) = true -> truthy_string (v_content b) = true ->
      ticket_exists ticketId d = false ->
      add_conversation now ticketId b d = (d, failure 500 "Error adding conversation"))
  /\ (forall now ticketId b d,
      reachable d ->
      truthy_string (v_role b) = true -> truthy_string (v_content b) = true ->
      ticket_exists ticketId d = true ->
      exists c,
        snd (add_conversation now ticketId b d)
        = ok 201 (Some "Conversation added successfully"%string)
            (ConversationData (Some c))
        /\ conversations (fst (add_conversation now ticketId b d))
           = conversations d ++ [c]
        /\ tickets (fst (add_conversation now ticketId b d)) = tickets d
        /\ c_ticket_id c = ticketId
        /\ Some (c_role c) = v_role b /\ Some (c_content c) = v_content b
        /\ c_audio_path c = or_string (v_audio_path b) None
        /\ c_transcription c = or_string (v_transcription b) None)
  /\ (forall now ticketId b d,
      truthy_string (g_field_name b) = false ->
      add_finding now ticketId b d = (d, failure 400 "Field name is required"))
  /\ (forall now ticketId b d,
      truthy_string (g_field_name b) = true ->
      ticket_exists ticketId d = false ->
      add_finding now ticketId b d = (d, failure 500 "Error adding finding"))
  /\ (forall now ticketId b d,
      reachable d ->
      truthy_string (g_field_name b) = true ->
      ticket_exists ticketId d = true ->
      exists f,
        snd (add_finding now ticketId b d)
        = ok 201 (Some "Finding added successfully"%string) (FindingData (Some f))
        /\ findings (fst (add_finding now ticketId b d)) = findings d ++ [f]
        /\ tickets (fst (add_finding now ticketId b d)) = tickets d
        /\ f_ticket_id f = ticketId
        /\ Some (f_field_name f) = g_field_name b
        /\ f_field_value f = or_string (g_field_value b) None
        /\ f_confidence f = or_real (g_confidence b) None
        /\ f_source f = or_string (g_source b) (Some "manual"%string)).
Proof.
  split; [|split; [|split; [|split; [|split]]]].
  - intros now ticketId b d H. unfold add_conversation.
    destruct H as [-> | ->]; cbn [negb orb]; [reflexivity|].
    now rewrite orb_true_r.
  - intros now ticketId b d Hr Hc Hno. unfold add_conversation, insert_conversation.
    rewrite Hr, Hc. cbn [negb orb].
    destruct (v_role b) as [role|]; [|discriminate].
    destruct (v_content b) as [content|]; [|discriminate].
    now rewrite Hno.
  - intros now ticketId b d Hreach Hr Hc Hex.
    destruct (reachable_rowids d Hreach) as (_ & Hrow & _).
    unfold add_conversation, insert_conversation. rewrite Hr, Hc. cbn [negb orb].
    destruct (v_role b) as [role|]; [|discriminate].
    destruct (v_content b) as [content|]; [|discriminate].
    rewrite Hex. cbn [negb fst snd]. db_fields.
    eexists. split.
    + rewrite find_snoc_fresh; [reflexivity| |apply Z.eqb_refl].
      intros y Hy. rewrite Forall_forall in Hrow. specialize (Hrow y Hy). cbn in Hrow.
      apply Z.eqb_neq. cbn [c_id]. lia.
    + now repeat split.
  - intros now ticketId b d H. unfold add_finding. now rewrite H.
  - intros now ticketId b d Hn Hno. unfold add_finding, insert_finding.
    rewrite Hn. cbn [negb].
    destruct (g_field_name b) as [name|]; [|discriminate].
    now rewrite Hno.
  - intros now ticketId b d Hreach Hn Hex.
    destruct (reachable_rowids d Hreach) as (_ & _ & Hrow).
    unfold add_finding, insert_finding. rewrite Hn. cbn [negb].
    destruct (g_field_name b) as [name|]; [|discriminate].
    rewrite Hex. cbn [negb fst snd]. db_fields.
    eexists. split.
    + rewrite find_snoc_fresh; [reflexivity| |apply Z.eqb_refl].
      intros y Hy. rewrite Forall_forall in Hrow. specialize (Hrow y Hy). cbn in Hrow.
      apply Z.eqb_neq. cbn [f_id]. lia.
    + now repeat split.
Qed.


(** *** Setting the database up *)







(** *** From login to the token guard *)

Lemma until_space_word w rest :
  Regex.free_of " " w = true -> until_space (w ++ String " " rest) = (w, Some rest).
Proof.
  induction w as [|c w IH]; cbn [String.append until_space Regex.free_of];
    [reflexivity|].
  intros H. apply andb_prop in H as [Hc Hw]. apply negb_true_iff in Hc.
  now rewrite Hc, (IH Hw).
Qed.

Lemma until_space_last w :
  Regex.free_of " " w = true -> until_space w = (w, None).
Proof.
  induction w as [|c w IH]; cbn [until_space Regex.free_of]; [reflexivity|].
  intros H. apply andb_prop in H as [Hc Hw]. apply negb_true_iff in Hc.
  now rewrite Hc, (IH Hw).
Qed.

Lemma second_word_of scheme token :
  Regex.free_of " " scheme = true -> Regex.free_of " " token = true ->
  second_word (scheme ++ String " " token) = Some token.
Proof.
  intros Hs Ht. unfold second_word.
  rewrite (until_space_word _ _ Hs). cbn [snd]. now rewrite (until_space_last _ Ht).
Qed.

Lemma select_user_stamped now name user d :
  select_user name d = Some user ->
  select_user name (update_last_login now (u_id user) d)
  = Some {| u_id := u_id user; u_username := u_username user;
            u_password_hash := u_password_hash user; u_role := u_role user;
            u_created_at := u_created_at user; u_last_login := Some now |}.
Proof.
  unfold select_user, update_last_login. db_fields.
  induction (users d) as [|u l IH]; cbn [find map]; [discriminate|].
  destruct (u_username u =? name)%string eqn:E.
  - intros H. inversion H; subst u. rewrite Z.eqb_refl. cbn [u_username]. now rewrite E.
  - intros H. destruct (u_id u =? u_id user); cbn [u_username]; rewrite E; auto.
Qed.

(** X5.  From login to the guarded routes.  [verifyToken] takes the second
    word of the Authorization header as the token, whatever the first word
    is, and lets the request through with the payload that [jwt.verify]
    gives for it.  A successful login stamps last_login on the user it
    found, changes no ticket, and hands out a token which, sent back as
    'Bearer <token>', is accepted as that user (given that the token library
    verifies what it signed and that a token has no space in it). *)
Theorem login_token_is_accepted :
  (forall scheme token,
      Regex.free_of " " scheme = true -> Regex.free_of " " token = true ->
      token <> ""%string ->
      verifyToken (Some (scheme ++ String " " token)%string)
      = match jwt_verify token JWT_SECRET with
        | Some decoded => inl decoded
        | None => inr (failure 401 "Invalid token")
        end)
  /\ (forall now name pass user d,
      name <> ""%string -> pass <> ""%string ->
      select_user name d = Some user ->
      bcrypt_compare pass (u_password_hash user) = true ->
      Regex.free_of " "
        (jwt_sign {| k_id := u_id user; k_username := u_username user;
                     k_role := u_role user |} JWT_SECRET "24h") = true ->
      jwt_verify
        (jwt_sign {| k_id := u_id user; k_username := u_username user;
                     k_role := u_role user |} JWT_SECRET "24h") JWT_SECRET
      = Some {| k_id := u_id user; k_username := u_username user;
                k_role := u_role user |} ->
      jwt_sign {| k_id := u_id user; k_username := u_username user;
                  k_role := u_role user |} JWT_SECRET "24h" <> ""%string ->
      exists token,
        data (snd (login now (Some name) (Some pass) d))
        = LoginData token
            {| k_id := u_id user; k_username := u_username user; k_role := u_role user |}
            now
        /\ verifyToken (Some ("Bearer " ++ token)%string)
           = inl {| k_id := u_id user; k_username := u_username user;
                    k_role := u_role user |}
        /\ select_user name (fst (login now (Some name) (Some pass) d))
           = Some {| u_id := u_id user; u_username := u_username user;
                     u_password_hash := u_password_hash user; u_role := u_role user;
                     u_created_at := u_created_at user; u_last_login := Some now |}
        /\ tickets (fst (login now (Some name) (Some pass) d)) = tickets d).
Proof.
  assert (Hfirst : forall scheme token,
      Regex.free_of " " scheme = true -> Regex.free_of " " token = true ->
      token <> ""%string ->
      verifyToken (Some (scheme ++ String " " token)%string)
      = match jwt_verify token JWT_SECRET with
        | Some decoded => inl decoded
        | None => inr (failure 401 "Invalid token")
        end).
  { intros scheme token Hs Ht Hne. unfold verifyToken.
    rewrite (second_word_of _ _ Hs Ht). apply String.eqb_neq in Hne. now rewrite Hne. }
  split; [exact Hfirst|].
  intros now name pass user d Hn Hp Hu Hc Hfree Hver Hne.
  rewrite (login_accepted now name pass user d Hn Hp Hu Hc). cbn [fst snd data ok].
  eexists. split; [reflexivity|].
  split; [|split; [now apply select_user_stamped | reflexivity]].
  change ("Bearer " ++ ?t)%string with ("Bearer" ++ String " " t)%string.
  rewrite (Hfirst "Bearer"%string _ eq_refl Hfree Hne). now rewrite Hver.
Qed.


(** X6.  The schema holds.  In every database the backend can be in, no two
    tickets rows have the same ticket_id, and every row of conversations,
    findings and audio_files bears the ticket_id of a tickets row. *)
Theorem tables_reference_tickets d :
  reachable d ->
  NoDup (map t_ticket_id (tickets d))
  /\ (forall c, In c (conversations d) -> ticket_exists (c_ticket_id c) d = true)
  /\ (forall f, In f (findings d) -> ticket_exists (f_ticket_id f) d = true)
  /\ (forall a, In a (audio_files d) -> ticket_exists (a_ticket_id a) d = true).
Proof.
  intros H. destruct (reachable_consistent d H) as [Hu (Hc & Hf & Ha & _)].
  split; [exact Hu|].
  repeat split; intros r Hr; apply ticket_exists_ids; auto.
Qed.

End Routes.

(** *** A concrete deployment, for examples *)

Definition admin_claims : claims :=
  {| k_id := 1; k_username := "admin"; k_role := Some "admin"%string |}.

Definition demo_sign (c : claims) (secret expiresIn : string) : string :=
  (k_username c ++ "." ++ secret ++ "." ++ expiresIn)%string.

Definition demo_verify (token secret : string) : option claims :=
  if (token =? "admin.supersecret.24h")%string then Some admin_claims else None.

Definition demo_compare (password hash : string) : bool :=
  (hash =? "bcrypt:" ++ password)%string.

Definition photo_body : attachment_body :=
  {| b_filename := Some "0a1b.png"%string; b_originalName := Some "crash.png"%string;
     b_filePath := None; b_url := Some "/uploads/accident_photos/0a1b.png"%string;
     b_fileType := Some "image/png"%string; b_attachmentType := None;
     b_type := Some "accident_photos"%string; b_size := Some 2048 |}.

Definition first_body : create_body :=
  {| b_ticket_id := Some "A-1"%string; b_plate := Some "ABC1234"%string;
     b_vehicles := Some 2; b_damage := Some "Front bumper damage"%string;
     b_user_id := None; b_attachments := Some [Some photo_body] |}.

(** The database after one POST /api/tickets. *)
Definition one_ticket_db : db := fst (create_ticket "2025-01-01 10:00:00" first_body empty_db).

Definition same_id_body : create_body :=
  {| b_ticket_id := Some "A-1"%string; b_plate := Some "XYZ5678"%string;
     b_vehicles := Some 1; b_damage := None; b_user_id := None;
     b_attachments := None |}.

(** C1 (the failing input).  A second POST /api/tickets with the ticket_id
    of the stored ticket: nothing is inserted, and the answer is 500 'Error
    creating ticket', not 409 'Ticket ID already exists'. *)
Lemma duplicate_ticket_id_answer :
  map t_ticket_id (tickets one_ticket_db) = ["A-1"%string]
  /\ fst (create_ticket "2025-01-01 10:05:00" same_id_body one_ticket_db) = one_ticket_db
  /\ status (snd (create_ticket "2025-01-01 10:05:00" same_id_body one_ticket_db))
     = 500%nat
  /\ message (snd (create_ticket "2025-01-01 10:05:00" same_id_body one_ticket_db))
     = Some "Error creating ticket"%string.
Proof. repeat split. Qed.

(** C9 (the failing input).  The same ticket id posted twice to each server.
    The JSON-file server saves it both times and keeps one ticket; the
    SQLite backend turns the second one down without inserting, but with
    status 500 where the claim has 409. *)
Lemma same_id_twice_on_both_servers :
  List.length
    (fst (ConversationServer.post_tickets ConversationServer.steady_io
            ConversationServer.empty_description_body
            (fst (ConversationServer.post_tickets ConversationServer.steady_io
                    ConversationServer.empty_description_body [])))) = 1%nat
  /\ ConversationServer.status
       (snd (ConversationServer.post_tickets ConversationServer.steady_io
               ConversationServer.empty_description_body
               (fst (ConversationServer.post_tickets ConversationServer.steady_io
                       ConversationServer.empty_description_body [])))) = 200%nat
  /\ List.length (tickets (fst (create_ticket "2025-01-01 10:05:00" same_id_body
                                  one_ticket_db))) = 1%nat
  /\ success (snd (create_ticket "2025-01-01 10:05:00" same_id_body one_ticket_db))
     = false
  /\ status (snd (create_ticket "2025-01-01 10:05:00" same_id_body one_ticket_db))
     = 500%nat.
Proof. repeat split. Qed.

Lemma attachments_follow_tickets_witness :
  verifyToken "supersecret" demo_verify (Some "Bearer admin.supersecret.24h"%string)
  = inl admin_claims
  /\ is_admin admin_claims = true
  /\ ticket_exists "A-1" one_ticket_db = true
  /\ List.length (attachments one_ticket_db) = 1%nat
  /\ attachments
       (fst (delete_ticket_route "supersecret" demo_verify
               (Some "Bearer admin.supersecret.24h"%string) "A-1" one_ticket_db)) = []
  /\ tickets
       (fst (delete_ticket_route "supersecret" demo_verify
               (Some "Bearer admin.supersecret.24h"%string) "A-1" one_ticket_db)) = [].
Proof.
  split; [reflexivity|]. split; [reflexivity|]. split; [reflexivity|].
  split; [reflexivity|].
  destruct (proj1 (proj2 (attachments_follow_tickets "supersecret" demo_sign demo_verify
                            demo_compare))
              (Some "Bearer admin.supersecret.24h"%string) admin_claims "A-1"%string
              one_ticket_db eq_refl eq_refl eq_refl)
    as (_ & Ht & Hx & _).
  split; [exact Hx | exact Ht].
Defined.

(** The database of a fresh deployment: the admin of init-db.js. *)
Definition admin_db : db :=
  initializeAdminUser "2025-01-01 09:00:00" "admin" "bcrypt:1234" empty_db.

Lemma login_issues_token_witness :
  "admin"%string <> ""%string /\ "letmein"%string <> ""%string
  /\ (exists user, select_user "admin" admin_db = Some user
                   /\ demo_compare "letmein" (u_password_hash user) = false)
  /\ login "supersecret" demo_sign demo_compare "2025-01-01 10:00:00"
       (Some "admin"%string) (Some "letmein"%string) admin_db
     = (admin_db, failure 401 "Invalid username or password").
Proof.
  assert (Hn : "admin"%string <> ""%string) by discriminate.
  assert (Hp : "letmein"%string <> ""%string) by discriminate.
  assert (Hu : exists user, select_user "admin" admin_db = Some user
                            /\ demo_compare "letmein" (u_password_hash user) = false).
  { eexists. split; reflexivity. }
  split; [exact Hn|]. split; [exact Hp|]. split; [exact Hu|].
  exact (proj2 (proj2 (proj2 (login_issues_token "supersecret" demo_sign demo_compare)))
           "2025-01-01 10:00:00"%string "admin"%string "letmein"%string admin_db
           Hn Hp (or_intror Hu)).
Defined.


(** *** The further properties, on the concrete deployment *)

Lemma created_ticket_is_served_witness :
  ticket_exists "A-1" empty_db = false
  /\ verifyToken "supersecret" demo_verify (Some "Bearer admin.supersecret.24h"%string)
     = inl admin_claims
  /\ exists t atts atts',
       snd (create_ticket "2025-01-01 10:00:00" first_body empty_db)
       = ok 201 (Some "Ticket created successfully"%string) (TicketCreated (Some t) atts)
       /\ t_ticket_id t = "A-1"%string
       /\ t_vehicles t = Some 2
       /\ get_ticket "supersecret" demo_verify (Some "Bearer admin.supersecret.24h"%string)
            "A-1" one_ticket_db
          = ok 200 None (TicketDetail t [] [] [] atts')
       /\ Permutation atts' atts.
Proof.
  split; [reflexivity|]. split; [reflexivity|].
  destruct (created_ticket_is_served "supersecret" demo_sign demo_verify demo_compare
              "2025-01-01 10:00:00" first_body "A-1" empty_db
              (Some "Bearer admin.supersecret.24h"%string) admin_claims
              (reachable_empty "supersecret" demo_sign demo_verify demo_compare)
              eq_refl ltac:(discriminate) eq_refl I eq_refl)
    as (t & atts & atts' & H1 & H2 & _ & _ & H5 & _ & _ & _ & _ & _ & H11 & H12).
  exists t, atts, atts'. auto.
Defined.

Lemma protected_routes_need_token_witness :
  verifyToken "supersecret" demo_verify None = inr (failure 401 "No token provided")
  /\ delete_ticket_route "supersecret" demo_verify None "A-1" one_ticket_db
     = (one_ticket_db, failure 401 "No token provided")
  /\ put_ticket "supersecret" demo_verify "2025-01-01 11:00:00" None "A-1"
       {| p_plate := None; p_vehicles := None; p_damage := None;
          p_status := Some "closed"%string |} one_ticket_db
     = (one_ticket_db, failure 401 "No token provided").
Proof.
  split; [reflexivity|].
  destruct (proj1 (proj2 (protected_routes_need_token "supersecret" demo_verify))
              "2025-01-01 11:00:00"%string None (failure 401 "No token provided")
              one_ticket_db "A-1"%string
              {| p_plate := None; p_vehicles := None; p_damage := None;
                 p_status := Some "closed"%string |} eq_refl)
    as (_ & _ & Hput & Hdel).
  split; [exact Hdel | exact Hput].
Defined.

Definition note_body : conversation_body :=
  {| v_role := Some "user"%string; v_content := Some "Two cars, no injuries"%string;
     v_audio_path := None; v_transcription := None |}.

Lemma ticket_rows_need_ticket_witness :
  truthy_string (v_role note_body) = true
  /\ truthy_string (v_content note_body) = true
  /\ ticket_exists "A-9" one_ticket_db = false
  /\ add_conversation "2025-01-01 11:00:00" "A-9" note_body one_ticket_db
     = (one_ticket_db, failure 500 "Error adding conversation").
Proof.
  split; [reflexivity|]. split; [reflexivity|]. split; [reflexivity|].
  exact (proj1 (proj2 (ticket_rows_need_ticket "supersecret" demo_sign demo_verify
                         demo_compare))
           "2025-01-01 11:00:00"%string "A-9"%string note_body one_ticket_db
           eq_refl eq_refl eq_refl).
Defined.


Lemma login_token_is_accepted_witness :
  select_user "admin" admin_db
  = Some {| u_id := 1; u_username := "admin"; u_password_hash := "bcrypt:1234";
            u_role := Some "admin"%string; u_created_at := "2025-01-01 09:00:00";
            u_last_login := None |}
  /\ demo_compare "1234" "bcrypt:1234" = true
  /\ exists token,
       data (snd (login "supersecret" demo_sign demo_compare "2025-01-01 10:00:00"
                    (Some "admin"%string) (Some "1234"%string) admin_db))
       = LoginData token admin_claims "2025-01-01 10:00:00"
       /\ verifyToken "supersecret" demo_verify (Some ("Bearer " ++ token)%string)
          = inl admin_claims.
Proof.
  split; [reflexivity|]. split; [reflexivity|].
  destruct (proj2 (login_token_is_accepted "supersecret" demo_sign demo_verify
                     demo_compare)
              "2025-01-01 10:00:00"%string "admin"%string "1234"%string
              {| u_id := 1; u_username := "admin"; u_password_hash := "bcrypt:1234";
                 u_role := Some "admin"%string; u_created_at := "2025-01-01 09:00:00";
                 u_last_login := None |}
              admin_db ltac:(discriminate) ltac:(discriminate) eq_refl eq_refl eq_refl
              eq_refl ltac:(discriminate))
    as (token & Hdata & Hver & _).
  exists token. split; [exact Hdata | exact Hver].
Defined.

Lemma tables_reference_tickets_witness :
  NoDup (map t_ticket_id (tickets one_ticket_db)).
Proof.
  exact (proj1 (tables_reference_tickets "supersecret" demo_sign demo_verify demo_compare
                  one_ticket_db
                  (reachable_step "supersecret" demo_sign demo_verify demo_compare
                     empty_db "2025-01-01 10:00:00" (CreateTicket first_body)
                     (reachable_empty "supersecret" demo_sign demo_verify demo_compare)))).
Defined.

End Backend.
